(** * mini-reconciliation: the matching and classification engine

    A shallow embedding of [internal/domain] and of
    [internal/usecase/reconciliation.go], and the properties of the
    reconciliation report that follow from the code.

    Conventions of the embedding:
    - [float64] is Rocq's primitive binary64 float, with the IEEE operations
      the Go code uses ([-], [+], [math.Abs], [>]);
    - [time.Time] is an instant (nanoseconds since the Unix epoch) together
      with the offset of its location, which only [Format] looks at;
    - Go maps are [gmap]s; a [range] over a map visits the entries in an
      order the language leaves unspecified, here an explicit [MapOrder];
    - slices and maps stored in the report keep the difference between
      [nil] and an empty container, which JSON encoding makes visible;
    - [int] counters are [Z]: each one is bounded by the length of a slice
      held in memory, so no wrap-around can occur. *)

From Stdlib Require Import ZArith String Ascii Floats.
From stdpp Require Import gmap strings list fin_maps pretty.

Open Scope Z_scope.

(** ** The parts of Go's [time] package the code uses *)

Module GoTime.

Record Time := { unixNano : Z; zoneOffset : Z }.

Definition Duration := Z.
Definition Nanosecond : Duration := 1.
Definition Second : Duration := 1000000000.
Definition Hour : Duration := 3600 * Second.

Definition Equal (t u : Time) : bool := unixNano t =? unixNano u.
Definition After (t u : Time) : bool := unixNano u <? unixNano t.
Definition Before (t u : Time) : bool := unixNano t <? unixNano u.
Definition Add (t : Time) (d : Duration) : Time :=
  {| unixNano := unixNano t + d; zoneOffset := zoneOffset t |}.

(** Days since 1970-01-01 of the calendar day of [t] in its location. *)
Definition civilDay (t : Time) : Z :=
  (unixNano t `div` Second + zoneOffset t) `div` 86400.

(** Proleptic Gregorian (year, month, day) of a day number. *)
Definition civilFromDays (days : Z) : Z * Z * Z :=
  let z := days + 719468 in
  let era := z `div` 146097 in
  let doe := z - era * 146097 in
  let yoe := (doe - doe `div` 1460 + doe `div` 36524 - doe `div` 146096) `div` 365 in
  let doy := doe - (365 * yoe + yoe `div` 4 - yoe `div` 100) in
  let mp := (5 * doy + 2) `div` 153 in
  let d := doy - (153 * mp + 2) `div` 5 + 1 in
  let m := if mp <? 10 then mp + 3 else mp - 9 in
  let y := yoe + era * 400 in
  (if m <=? 2 then y + 1 else y, m, d).

(** [appendInt(b, x, width)]: decimal, zero-padded, sign first. *)
Definition padZeros (width : nat) (s : string) : string :=
  String.string_of_list_ascii
    (replicate (width - String.length s)%nat "0"%char) +:+ s.

Definition appendInt (x : Z) (width : nat) : string :=
  (if x <? 0 then "-" else "") +:+ padZeros width (pretty (Z.abs_N x)).

(** [t.Format("2006-01-02")], which is also [time.DateOnly]. *)
Definition FormatDateOnly (t : Time) : string :=
  let '(y, m, d) := civilFromDays (civilDay t) in
  appendInt y 4 +:+ "-" +:+ appendInt m 2 +:+ "-" +:+ appendInt d 2.

(** [time.Date(y, m, d, hh, mm, ss, ns, time.UTC)], for writing inputs. *)
Definition daysFromCivil (y m d : Z) : Z :=
  let y' := if m <=? 2 then y - 1 else y in
  let era := y' `div` 400 in
  let yoe := y' - era * 400 in
  let mp := if 2 <? m then m - 3 else m + 9 in
  let doy := (153 * mp + 2) `div` 5 + d - 1 in
  let doe := yoe * 365 + yoe `div` 4 - yoe `div` 100 + doy in
  era * 146097 + doe - 719468.

Definition DateUTC (y m d hh mm ss ns : Z) : Time :=
  {| unixNano := ((daysFromCivil y m d * 24 + hh) * 60 + mm) * 60 * Second
                 + ss * Second + ns;
     zoneOffset := 0 |}.

End GoTime.

(** ** [fmt.Sprintf("%.2f", x)] on a float64 *)

Module GoFmt.

(** The integer nearest to [m * 2^e], ties to the even one: the decimal
    conversion of [strconv] is exact and rounds half to even. *)
Definition roundHalfEven (m e : Z) : Z :=
  if 0 <=? e then m * 2 ^ e
  else
    let d := 2 ^ (- e) in
    let q := m `div` d in
    let r := m `mod` d in
    if 2 * r <? d then q
    else if d <? 2 * r then q + 1
    else if Z.even q then q else q + 1.

Definition fixed2 (neg : bool) (hundredths : Z) : string :=
  (if neg then "-" else "") +:+ pretty (Z.to_N (hundredths `div` 100))
    +:+ "." +:+ GoTime.padZeros 2 (pretty (Z.to_N (hundredths `mod` 100))).

Definition Sprintf_2f (x : float) : string :=
  match Prim2SF x with
  | S754_nan => "NaN"
  | S754_infinity false => "+Inf"
  | S754_infinity true => "-Inf"
  | S754_zero neg => fixed2 neg 0
  | S754_finite neg m e => fixed2 neg (roundHalfEven (100 * Z.pos m) e)
  end.

(** [strings.Contains(s, substr)] on byte strings. *)
Fixpoint Contains (s substr : string) : bool :=
  String.prefix substr s ||
  match s with
  | EmptyString => false
  | String _ s' => Contains s' substr
  end.

End GoFmt.

(** ** Package [domain] *)

Definition TransactionType := string.
Definition DEBIT : TransactionType := "DEBIT".
Definition CREDIT : TransactionType := "CREDIT".

(** Each Go struct is a record in a module of its name, so that fields keep
    their Go names; the field [Type] is written [Type_]. *)
Module SystemTransaction.
Record t := {
  TrxID : string;
  Amount : float;
  Type_ : TransactionType;
  TransactionTime : GoTime.Time
}.
End SystemTransaction.

Module BankTransaction.
Record t := {
  UniqueIdentifier : string;
  Amount : float;
  Date : GoTime.Time;
  Description : string;
  BankSource : string;
  NormalizedAmount : float;
  Type_ : TransactionType
}.
End BankTransaction.

Abbreviation SysTx := SystemTransaction.t.
Abbreviation BankTx := BankTransaction.t.

(** A slice held in the report: [nil] or a (possibly empty) backing list. *)
Inductive slice (A : Type) : Type :=
| nilSlice
| Slice (l : list A).
Arguments nilSlice {A}.
Arguments Slice {A} l.

Definition elems {A} (s : slice A) : list A :=
  match s with nilSlice => [] | Slice l => l end.

Definition len {A} (s : slice A) : Z := Z.of_nat (length (elems s)).

(** [append(s, xs...)]: appending nothing to [nil] gives [nil]. *)
Definition append {A} (s : slice A) (xs : list A) : slice A :=
  match s, xs with
  | nilSlice, [] => nilSlice
  | _, _ => Slice (elems s ++ xs)
  end.

(** A map held in the report: [nil] or a made map. *)
Inductive gomap (V : Type) : Type :=
| nilMap
| Map (m : gmap string V).
Arguments nilMap {V}.
Arguments Map {V} m.

Definition entries {V} (m : gomap V) : gmap string V :=
  match m with nilMap => ∅ | Map g => g end.

Module DiscrepancyDetail.
Record t := {
  SystemTransaction : SysTx;
  BankTransaction : BankTx
}.
End DiscrepancyDetail.

Module DiscrepantTransactions.
Record t := {
  Count : Z;
  TotalDiscrepancyValue : float;
  Details : slice DiscrepancyDetail.t
}.
End DiscrepantTransactions.

Module UnmatchedTransactions.
Record t := {
  Count : Z;
  SystemMissingFromBank : slice SysTx;
  BankMissingFromSystem : gomap (list BankTx)
}.
End UnmatchedTransactions.

Module Summary.
Record t := {
  TimeframeStart : string;
  TimeframeEnd : string;
  TotalSystemTransactionsProcessed : Z;
  TotalBankTransactionsProcessed : Z;
  MatchedTransactions : Z
}.
End Summary.

Module ReconciliationReport.
Record t := {
  ReconciliationSummary : Summary.t;
  DiscrepantTransactions : DiscrepantTransactions.t;
  UnmatchedTransactions : UnmatchedTransactions.t
}.
End ReconciliationReport.

Abbreviation Report := ReconciliationReport.t.

(** How [encoding/json] renders a slice or map field: this is where [nil]
    and empty differ. *)
Inductive jsonShape : Type :=
| JsonNull
| JsonArray (n : nat)
| JsonObject (n : nat).

Definition jsonOfSlice {A} (s : slice A) : jsonShape :=
  match s with nilSlice => JsonNull | Slice l => JsonArray (length l) end.

Definition jsonOfMap {V} (m : gomap V) : jsonShape :=
  match m with nilMap => JsonNull | Map g => JsonObject (size g) end.

(** ** Package [usecase] *)

(** Go's [error] values, as far as the code builds them:
    [fmt.Errorf("...: %w", err)] wraps [err] under a longer message. *)
Inductive error : Type :=
| errorNew (msg : string)
| errorWrap (msg : string) (cause : error).

Definition errorText (e : error) : string :=
  match e with errorNew m => m | errorWrap m _ => m end.

Definition Errorf_w (context : string) (err : error) : error :=
  errorWrap (context +:+ ": " +:+ errorText err) err.

(** The interface [TransactionRepository]; the [ctx] argument, which the
    use case only passes through, is left out. *)
Class TransactionRepository := {
  GetSystemTransactions : string → list SysTx + error;
  GetBankTransactions : list string → list BankTx + error
}.

Record ReconciliationUseCase := { repo : TransactionRepository }.

Definition NewReconciliationUseCase (r : TransactionRepository) :
  ReconciliationUseCase := {| repo := r |}.

(** *** Iteration over Go maps *)

(** The order in which one [range] statement visits the entries of a map.
    Go leaves it unspecified and varies it from one loop to the next; all it
    promises is that every entry is visited once ([fairOrder]). *)
Definition MapOrder : Type := ∀ V : Type, list (string * V) → list (string * V).

Definition fairOrder (o : MapOrder) : Prop :=
  ∀ V (l : list (string * V)), o V l ≡ₚ l.

Definition rangeMap {V} (o : MapOrder) (m : gmap string V) : list (string * V) :=
  o V (map_to_list m).

(** One order for each of the four [range]-over-map loops of the package:
    the matching loop, the two collation loops and [countBankMapItems]. *)
Record Schedule := {
  orderMatch : MapOrder;
  orderSystem : MapOrder;
  orderBank : MapOrder;
  orderCount : MapOrder
}.

Definition fairSchedule (sch : Schedule) : Prop :=
  fairOrder (orderMatch sch) ∧ fairOrder (orderSystem sch) ∧
  fairOrder (orderBank sch) ∧ fairOrder (orderCount sch).

Definition listedOrder : MapOrder := λ V l, l.
Definition reversedOrder : MapOrder := λ V l, reverse l.

Definition scheduleOf (o : MapOrder) : Schedule :=
  {| orderMatch := o; orderSystem := o; orderBank := o; orderCount := o |}.

(** *** Helpers of reconciliation.go *)

(** The constant [0.001], as the float64 nearest to it. *)
Definition epsilon : float := 0x1.0624dd2f1a9fcp-10%float.

(** [math.Abs(sysTx.Amount - bankTx.NormalizedAmount)] *)
Definition amountDiff (sysTx : SysTx) (bankTx : BankTx) : float :=
  PrimFloat.abs (PrimFloat.sub (SystemTransaction.Amount sysTx)
                               (BankTransaction.NormalizedAmount bankTx)).

Definition isDiscrepancy (sysTx : SysTx) (bankTx : BankTx) : bool :=
  PrimFloat.ltb epsilon (amountDiff sysTx bankTx).

Definition processMatch (report : Report) (sysTx : SysTx) (bankTx : BankTx) : Report :=
  let s := ReconciliationReport.ReconciliationSummary report in
  let d := ReconciliationReport.DiscrepantTransactions report in
  let s' := {| Summary.TimeframeStart := Summary.TimeframeStart s;
               Summary.TimeframeEnd := Summary.TimeframeEnd s;
               Summary.TotalSystemTransactionsProcessed :=
                 Summary.TotalSystemTransactionsProcessed s;
               Summary.TotalBankTransactionsProcessed :=
                 Summary.TotalBankTransactionsProcessed s;
               Summary.MatchedTransactions := Summary.MatchedTransactions s + 1 |} in
  let d' :=
    if isDiscrepancy sysTx bankTx then
      let diff := amountDiff sysTx bankTx in
      {| DiscrepantTransactions.Count := DiscrepantTransactions.Count d + 1;
         DiscrepantTransactions.TotalDiscrepancyValue :=
           PrimFloat.add (DiscrepantTransactions.TotalDiscrepancyValue d) diff;
         DiscrepantTransactions.Details :=
           append (DiscrepantTransactions.Details d)
             [ {| DiscrepancyDetail.SystemTransaction := sysTx;
                  DiscrepancyDetail.BankTransaction := bankTx |} ] |}
    else d in
  {| ReconciliationReport.ReconciliationSummary := s';
     ReconciliationReport.DiscrepantTransactions := d';
     ReconciliationReport.UnmatchedTransactions :=
       ReconciliationReport.UnmatchedTransactions report |}.

Definition buildGroupKey (t : GoTime.Time) (txType : TransactionType)
    (amount : float) : string :=
  GoTime.FormatDateOnly t +:+ "-" +:+ txType +:+ "-" +:+ GoFmt.Sprintf_2f amount.

Definition systemKey (sysTx : SysTx) : string :=
  buildGroupKey (SystemTransaction.TransactionTime sysTx)
    (SystemTransaction.Type_ sysTx) (SystemTransaction.Amount sysTx).

Definition bankKey (bankTx : BankTx) : string :=
  buildGroupKey (BankTransaction.Date bankTx)
    (BankTransaction.Type_ bankTx) (BankTransaction.NormalizedAmount bankTx).

(** The results of the two filters are only measured and ranged over, so
    that a plain list stands for the (possibly nil) slice. *)
Definition filterSystemTransactionsByDate (transactions : list SysTx)
    (start end_ : GoTime.Time) : list SysTx :=
  List.filter
    (λ tx,
       let txDate := SystemTransaction.TransactionTime tx in
       (GoTime.Equal txDate start || GoTime.After txDate start) &&
       (GoTime.Equal txDate end_ ||
        GoTime.Before txDate (GoTime.Add end_ (24 * GoTime.Hour - GoTime.Hour))))
    transactions.

Definition filterBankTransactionsByDate (transactions : list BankTx)
    (start end_ : GoTime.Time) : list BankTx :=
  List.filter
    (λ tx,
       let txDate := BankTransaction.Date tx in
       (GoTime.Equal txDate start || GoTime.After txDate start) &&
       (GoTime.Equal txDate end_ ||
        GoTime.Before txDate (GoTime.Add end_ (24 * GoTime.Hour - GoTime.Nanosecond))))
    transactions.

Definition countBankMapItems (o : MapOrder) (m : gomap (list BankTx)) : Z :=
  foldl (λ count kv, count + Z.of_nat (length kv.2)) 0 (rangeMap o (entries m)).

(** *** The matcher

    The loops of [Reconcile] call [processMatch] on the report for every
    accepted pair and otherwise never look at the report.  They are written
    once, for any accumulator [R] and handler [onMatch]: [Reconcile] runs
    them on the report with [processMatch], and [acceptedPairs] runs the
    same loops with a handler that records the pairs. *)

Section Matcher.
Context {R : Type} (onMatch : R → SysTx → BankTx → R).

(** The accumulator and the two claim sets [matchedSystem] and
    [matchedBank]: Go maps to [bool] in which only [true] is ever stored,
    that is, sets of identifiers. *)
Record Claims := {
  acc : R;
  matchedSystem : gset string;
  matchedBank : gset string
}.

(** [processMatch(...); matchedSystem[id] = true; matchedBank[id] = true] *)
Definition accept (st : Claims) (sysTx : SysTx) (bankTx : BankTx) : Claims :=
  {| acc := onMatch (acc st) sysTx bankTx;
     matchedSystem := {[SystemTransaction.TrxID sysTx]} ∪ matchedSystem st;
     matchedBank := {[BankTransaction.UniqueIdentifier bankTx]} ∪ matchedBank st |}.

(** Body of the inner loop of Pass 1. *)
Definition pass1Body (bankTx : BankTx) (st : Claims) (sysTx : SysTx) : Claims :=
  if bool_decide (SystemTransaction.TrxID sysTx ∈ matchedSystem st)
     || bool_decide (BankTransaction.UniqueIdentifier bankTx ∈ matchedBank st)
  then st
  else if GoFmt.Contains (BankTransaction.Description bankTx)
            ("trxID:" +:+ SystemTransaction.TrxID sysTx)
  then accept st sysTx bankTx
  else st.

Definition pass1 (filteredSystemTx : list SysTx) (filteredBankTx : list BankTx)
    (st : Claims) : Claims :=
  foldl (λ st bankTx, foldl (pass1Body bankTx) st filteredSystemTx)
    st filteredBankTx.

(** [m[key] = append(m[key], tx)] for every unclaimed record. *)
Definition groupInto {T} (claimed : T → bool) (key : T → string) (txs : list T)
    : gmap string (list T) :=
  foldl (λ m tx,
           if claimed tx then m
           else <[key tx := default [] (m !! key tx) ++ [tx]]> m)
    ∅ txs.

Record Groups := {
  claims : Claims;
  systemMap : gmap string (list SysTx);
  bankMap : gmap string (list BankTx)
}.

(** Body of the loop over [systemMap].  The loop deletes only the entry it
    is visiting, so that it visits every entry the map had at its start
    once; [zip] pairs index [i] with index [i], the lengths being equal. *)
Definition groupBody (g : Groups) (entry : string * list SysTx) : Groups :=
  let '(key, sysTxs) := entry in
  match bankMap g !! key with
  | Some bankTxs =>
      if (length sysTxs =? length bankTxs)%nat then
        {| claims := foldl (λ st p, accept st p.1 p.2) (claims g) (zip sysTxs bankTxs);
           systemMap := delete key (systemMap g);
           bankMap := delete key (bankMap g) |}
      else g
  | None => g
  end.

Definition matcher (o : MapOrder) (filteredSystemTx : list SysTx)
    (filteredBankTx : list BankTx) (r0 : R) : Groups :=
  let st0 := {| acc := r0; matchedSystem := ∅; matchedBank := ∅ |} in
  let st1 := pass1 filteredSystemTx filteredBankTx st0 in
  let systemMap :=
    groupInto (λ tx, bool_decide (SystemTransaction.TrxID tx ∈ matchedSystem st1))
      systemKey filteredSystemTx in
  let bankMap :=
    groupInto (λ tx, bool_decide (BankTransaction.UniqueIdentifier tx ∈ matchedBank st1))
      bankKey filteredBankTx in
  foldl groupBody
    {| claims := st1; systemMap := systemMap; bankMap := bankMap |}
    (rangeMap o systemMap).

End Matcher.

Arguments Claims R : clear implicits.
Arguments Groups R : clear implicits.

(** The pairs handed to [processMatch], in the order of the calls. *)
Definition notePair (l : list (SysTx * BankTx)) (sysTx : SysTx) (bankTx : BankTx) :=
  l ++ [(sysTx, bankTx)].

Definition acceptedPairs (o : MapOrder) (fs : list SysTx) (fb : list BankTx)
    : list (SysTx * BankTx) :=
  acc (claims (matcher notePair o fs fb [])).

(** Step 4 of [Reconcile]: the residue of the two group maps. *)
Definition collateSystem (o : MapOrder) (systemMap : gmap string (list SysTx))
    (missing : slice SysTx) : slice SysTx :=
  foldl (λ s kv, append s kv.2) missing (rangeMap o systemMap).

(** A store into a nil map would panic; [Reconcile] stores into the map it
    made (see [collateBank_made]). *)
Definition storeBank (m : gomap (list BankTx)) (bankTx : BankTx) : gomap (list BankTx) :=
  match m with
  | nilMap => nilMap
  | Map g =>
      let src := BankTransaction.BankSource bankTx in
      Map (<[src := default [] (g !! src) ++ [bankTx]]> g)
  end.

Definition collateBank (o : MapOrder) (bankMap : gmap string (list BankTx))
    (missing : gomap (list BankTx)) : gomap (list BankTx) :=
  foldl (λ m kv, foldl storeBank m kv.2) missing (rangeMap o bankMap).

(** [Reconcile] from its Step 2 on (lines 36 to 119), once both ingestion
    calls have returned their lists. *)
Definition reconcileLoaded (sch : Schedule)
    (systemTransactions : list SysTx) (bankTransactions : list BankTx)
    (start end_ : GoTime.Time) : Report :=
  let filteredSystemTx := filterSystemTransactionsByDate systemTransactions start end_ in
  let filteredBankTx := filterBankTransactionsByDate bankTransactions start end_ in
  let report :=
    {| ReconciliationReport.ReconciliationSummary :=
         {| Summary.TimeframeStart := GoTime.FormatDateOnly start;
            Summary.TimeframeEnd := GoTime.FormatDateOnly end_;
            Summary.TotalSystemTransactionsProcessed :=
              Z.of_nat (length filteredSystemTx);
            Summary.TotalBankTransactionsProcessed :=
              Z.of_nat (length filteredBankTx);
            Summary.MatchedTransactions := 0 |};
       ReconciliationReport.DiscrepantTransactions :=
         {| DiscrepantTransactions.Count := 0;
            DiscrepantTransactions.TotalDiscrepancyValue := 0%float;
            DiscrepantTransactions.Details := Slice [] |};
       ReconciliationReport.UnmatchedTransactions :=
         {| UnmatchedTransactions.Count := 0;
            UnmatchedTransactions.SystemMissingFromBank := nilSlice;
            UnmatchedTransactions.BankMissingFromSystem := Map ∅ |} |} in
  let g := matcher processMatch (orderMatch sch) filteredSystemTx filteredBankTx report in
  let report := acc (claims g) in
  let u := ReconciliationReport.UnmatchedTransactions report in
  let missingSystem :=
    collateSystem (orderSystem sch) (systemMap g)
      (UnmatchedTransactions.SystemMissingFromBank u) in
  let missingBank :=
    collateBank (orderBank sch) (bankMap g)
      (UnmatchedTransactions.BankMissingFromSystem u) in
  {| ReconciliationReport.ReconciliationSummary :=
       ReconciliationReport.ReconciliationSummary report;
     ReconciliationReport.DiscrepantTransactions :=
       ReconciliationReport.DiscrepantTransactions report;
     ReconciliationReport.UnmatchedTransactions :=
       {| UnmatchedTransactions.Count :=
            len missingSystem + countBankMapItems (orderCount sch) missingBank;
          UnmatchedTransactions.SystemMissingFromBank := missingSystem;
          UnmatchedTransactions.BankMissingFromSystem := missingBank |} |}.

Definition Reconcile (uc : ReconciliationUseCase) (sch : Schedule)
    (systemPath : string) (bankPaths : list string) (start end_ : GoTime.Time)
    : Report + error :=
  match @GetSystemTransactions (repo uc) systemPath with
  | inr err => inr (Errorf_w "could not get system transactions" err)
  | inl systemTransactions =>
      match @GetBankTransactions (repo uc) bankPaths with
      | inr err => inr (Errorf_w "could not get bank transactions" err)
      | inl bankTransactions =>
          inl (reconcileLoaded sch systemTransactions bankTransactions start end_)
      end
  end.

(** ** Package [gateway] *)

(** What a Go call that returns [(value, error)] can do: return a value
    and no error, return an error (the gateway returns [nil] with it), or
    panic (here: an index out of range). *)
Inductive outcome (A : Type) : Type :=
| Returned (a : A)
| Failed (err : error)
| Panicked.
Arguments Returned {A} a.
Arguments Failed {A} err.
Arguments Panicked {A}.

Definition outcomeBind {A B} (x : outcome A) (k : A → outcome B) : outcome B :=
  match x with
  | Returned a => k a
  | Failed err => Failed err
  | Panicked => Panicked
  end.

Notation "x ←! y ; z" := (outcomeBind y (λ x, z))
  (at level 20, y at level 100, z at level 200, right associativity).

(** [value, err := f(...); if err != nil { return nil, fmt.Errorf(context + ": %w", err) }] *)
Definition orFail {A} (x : A + error) (context : string) : outcome A :=
  match x with
  | inl a => Returned a
  | inr err => Failed (Errorf_w context err)
  end.

(** [record[i]] *)
Definition fieldAt (record : list string) (i : nat) : outcome string :=
  match record !! i with
  | Some s => Returned s
  | None => Panicked
  end.

(** One call of [csv.Reader.Read] that did not reach the end of the input:
    a record, or an error other than [io.EOF].  Which rows the [csv]
    package accepts is left to [openCSV]. *)
Inductive readResult : Type :=
| ReadRecord (fields : list string)
| ReadError (err : error).

Definition ioEOF : error := errorNew "EOF".

(** What the gateway takes from the standard library: [os.Open] followed by
    [csv.NewReader], as the results of the successive [Read] calls up to
    [io.EOF]; [strconv.ParseFloat(s, 64)]; [time.Parse] with the layouts
    [time.RFC3339] and ["2006-01-02"]. *)
Class GatewayLibrary := {
  openCSV : string → list readResult + error;
  ParseFloat : string → float + error;
  ParseRFC3339 : string → GoTime.Time + error;
  ParseDateOnly : string → GoTime.Time + error
}.

(** [filepath.Base] with the separator ['/']. *)
Definition isPathSeparator (c : ascii) : bool := Ascii.eqb c "/".

Fixpoint dropWhile {A} (f : A → bool) (l : list A) : list A :=
  match l with
  | [] => []
  | x :: l' => if f x then dropWhile f l' else l
  end.

Fixpoint takeWhile {A} (f : A → bool) (l : list A) : list A :=
  match l with
  | [] => []
  | x :: l' => if f x then x :: takeWhile f l' else []
  end.

Definition Base (path : string) : string :=
  match path with
  | EmptyString => "."
  | _ =>
      let stripped := dropWhile isPathSeparator (reverse (String.list_ascii_of_string path)) in
      let last := reverse (takeWhile (λ c, negb (isPathSeparator c)) stripped) in
      match last with
      | [] => "/"
      | _ => String.string_of_list_ascii last
      end
  end.

Module CSVTransactionRepository.
Section Methods.
Context {lib : GatewayLibrary}.

(** The skipped header: [if _, err := reader.Read(); err != nil { ... }]. *)
Definition skipHeader (reader : list readResult) (path : string)
    : outcome (list readResult) :=
  match reader with
  | [] => Failed (Errorf_w ("failed to read header from " +:+ path) ioEOF)
  | ReadError err :: _ => Failed (Errorf_w ("failed to read header from " +:+ path) err)
  | ReadRecord _ :: rest => Returned rest
  end.

Definition systemRecord (record : list string) : outcome SysTx :=
  amountText ←! fieldAt record 1;
  amount ←! orFail (ParseFloat amountText) ("could not parse amount '" +:+ amountText +:+ "'");
  timeText ←! fieldAt record 3;
  txTime ←! orFail (ParseRFC3339 timeText)
              ("could not parse transactionTime '" +:+ timeText +:+ "'");
  trxID ←! fieldAt record 0;
  type ←! fieldAt record 2;
  Returned {| SystemTransaction.TrxID := trxID;
              SystemTransaction.Amount := amount;
              SystemTransaction.Type_ := type;
              SystemTransaction.TransactionTime := txTime |}.

(** The read loop of [GetSystemTransactions]; the end of the list is
    [io.EOF]. *)
Fixpoint readSystemRecords (path : string) (reader : list readResult)
    (transactions : slice SysTx) : outcome (slice SysTx) :=
  match reader with
  | [] => Returned transactions
  | ReadError err :: _ => Failed (Errorf_w ("error reading record from " +:+ path) err)
  | ReadRecord record :: rest =>
      tx ←! systemRecord record;
      readSystemRecords path rest (append transactions [tx])
  end.

Definition GetSystemTransactions (path : string) : outcome (slice SysTx) :=
  reader ←! orFail (openCSV path) ("failed to open system transaction file " +:+ path);
  rest ←! skipHeader reader path;
  readSystemRecords path rest nilSlice.

Definition bankRecord (path : string) (record : list string) : outcome BankTx :=
  amountText ←! fieldAt record 1;
  amount ←! orFail (ParseFloat amountText) ("could not parse amount '" +:+ amountText +:+ "'");
  dateText ←! fieldAt record 2;
  date ←! orFail (ParseDateOnly dateText) ("could not parse date '" +:+ dateText +:+ "'");
  id ←! fieldAt record 0;
  description ←! fieldAt record 3;
  let negative := PrimFloat.ltb amount 0 in
  Returned
    {| BankTransaction.UniqueIdentifier := id;
       BankTransaction.Amount := amount;
       BankTransaction.Date := date;
       BankTransaction.Description := description;
       BankTransaction.BankSource := Base path;
       BankTransaction.NormalizedAmount :=
         if negative then PrimFloat.abs amount else amount;
       BankTransaction.Type_ := if negative then DEBIT else CREDIT |}.

Fixpoint readBankRecords (path : string) (reader : list readResult)
    (allTransactions : slice BankTx) : outcome (slice BankTx) :=
  match reader with
  | [] => Returned allTransactions
  | ReadError err :: _ => Failed (Errorf_w ("error reading record from " +:+ path) err)
  | ReadRecord record :: rest =>
      tx ←! bankRecord path record;
      readBankRecords path rest (append allTransactions [tx])
  end.

(** The loop over [paths], from the transactions of the files read so far. *)
Fixpoint readBankFiles (paths : list string) (allTransactions : slice BankTx)
    : outcome (slice BankTx) :=
  match paths with
  | [] => Returned allTransactions
  | path :: paths' =>
      reader ←! orFail (openCSV path) ("failed to open bank statement file " +:+ path);
      rest ←! skipHeader reader path;
      allTransactions' ←! readBankRecords path rest allTransactions;
      readBankFiles paths' allTransactions'
  end.

Definition GetBankTransactions (paths : list string) : outcome (slice BankTx) :=
  readBankFiles paths nilSlice.

End Methods.
End CSVTransactionRepository.

(** ** Vocabulary of the statements *)

(** A handler folded over a list of pairs, and the states of the loops
    rebuilt from the states of a run that records the pairs. *)
Section ReplayDefs.
Context {R : Type} (onMatch : R → SysTx → BankTx → R) (r0 : R).

Definition replay (pairs : list (SysTx * BankTx)) : R :=
  foldl (λ r p, onMatch r p.1 p.2) r0 pairs.

Definition replayClaims (st : Claims (list (SysTx * BankTx))) : Claims R :=
  {| acc := replay (acc st);
     matchedSystem := matchedSystem st;
     matchedBank := matchedBank st |}.

Definition replayGroups (g : Groups (list (SysTx * BankTx))) : Groups R :=
  {| claims := replayClaims (claims g);
     systemMap := systemMap g;
     bankMap := bankMap g |}.
End ReplayDefs.

(** The records of [txs] that are not claimed and carry the key [k], in
    their order in [txs]: what [groupInto] files under [k]. *)
Definition groupOf {T} (claimed : T → bool) (key : T → string) (k : string)
    (txs : list T) : list T :=
  filter (λ tx, claimed tx = false ∧ key tx = k) txs.

Definition optGroup {T} (l : list T) : option (list T) :=
  match l with [] => None | _ => Some l end.

(** What the matching loop does with one entry of [systemMap]. *)
Definition pairedEntry (bankMap : gmap string (list BankTx))
    (entry : string * list SysTx) : bool :=
  match bankMap !! entry.1 with
  | Some bankTxs => (length entry.2 =? length bankTxs)%nat
  | None => false
  end.

Definition pairsOfEntry (bankMap : gmap string (list BankTx))
    (entry : string * list SysTx) : list (SysTx * BankTx) :=
  match bankMap !! entry.1 with
  | Some bankTxs =>
      if (length entry.2 =? length bankTxs)%nat then zip entry.2 bankTxs else []
  | None => []
  end.

(** The state of the claim sets after Pass 1, and the pairs of each pass. *)
Definition afterPass1 (fs : list SysTx) (fb : list BankTx)
    : Claims (list (SysTx * BankTx)) :=
  pass1 notePair fs fb {| acc := []; matchedSystem := ∅; matchedBank := ∅ |}.

Definition pass1Pairs (fs : list SysTx) (fb : list BankTx) : list (SysTx * BankTx) :=
  acc (afterPass1 fs fb).

(** The accepted pairs that follow those of Pass 1: the pairs of the loop
    over [systemMap] (lemmas [acceptedPairs_split] and [groupedPairs_eq]). *)
Definition groupedPairs (o : MapOrder) (fs : list SysTx) (fb : list BankTx)
    : list (SysTx * BankTx) :=
  drop (length (pass1Pairs fs fb)) (acceptedPairs o fs fb).

Definition systemClaimed (fs : list SysTx) (fb : list BankTx) (tx : SysTx) : bool :=
  bool_decide (SystemTransaction.TrxID tx ∈ matchedSystem (afterPass1 fs fb)).

Definition bankClaimed (fs : list SysTx) (fb : list BankTx) (tx : BankTx) : bool :=
  bool_decide (BankTransaction.UniqueIdentifier tx ∈ matchedBank (afterPass1 fs fb)).

(** The two groups of a key after Pass 1. *)
Definition systemGroup (fs : list SysTx) (fb : list BankTx) (k : string) : list SysTx :=
  groupOf (systemClaimed fs fb) systemKey k fs.

Definition bankGroup (fs : list SysTx) (fb : list BankTx) (k : string) : list BankTx :=
  groupOf (bankClaimed fs fb) bankKey k fb.

(** The groups built after Pass 1, and whether a key has a group on both
    sides, of one size. *)
Definition systemGroups (fs : list SysTx) (fb : list BankTx) : gmap string (list SysTx) :=
  groupInto (systemClaimed fs fb) systemKey fs.

Definition bankGroups (fs : list SysTx) (fb : list BankTx) : gmap string (list BankTx) :=
  groupInto (bankClaimed fs fb) bankKey fb.

Definition pairedKey (fs : list SysTx) (fb : list BankTx) (k : string) : bool :=
  match systemGroups fs fb !! k, bankGroups fs fb !! k with
  | Some sysTxs, Some bankTxs => (length sysTxs =? length bankTxs)%nat
  | _, _ => false
  end.

(** The keys of the entries of [L] that the matching loop pairs up. *)
Definition pairedKeys (B : gmap string (list BankTx)) (L : list (string * list SysTx))
    : list string :=
  (filter (λ e, pairedEntry B e) L).*1.

(** The unclaimed records whose group is paired up, and those whose group
    is left alone. *)
Definition systemPaired (fs : list SysTx) (fb : list BankTx) : list SysTx :=
  filter (λ tx, systemClaimed fs fb tx = false ∧ pairedKey fs fb (systemKey tx) = true) fs.

Definition bankPaired (fs : list SysTx) (fb : list BankTx) : list BankTx :=
  filter (λ tx, bankClaimed fs fb tx = false ∧ pairedKey fs fb (bankKey tx) = true) fb.

Definition systemResidue (fs : list SysTx) (fb : list BankTx) : list SysTx :=
  filter (λ tx, (systemClaimed fs fb tx || pairedKey fs fb (systemKey tx)) = false) fs.

Definition bankResidue (fs : list SysTx) (fb : list BankTx) : list BankTx :=
  filter (λ tx, (bankClaimed fs fb tx || pairedKey fs fb (bankKey tx)) = false) fb.

(** Pass 1, said with "first": a bank record that is still unclaimed takes
    the first system record, in list order, that is still unclaimed and
    that its description references. *)
Definition token (sysTx : SysTx) : string := "trxID:" +:+ SystemTransaction.TrxID sysTx.

Definition references (bankTx : BankTx) (sysTx : SysTx) : bool :=
  GoFmt.Contains (BankTransaction.Description bankTx) (token sysTx).

Definition qualifies {R} (st : Claims R) (bankTx : BankTx) (sysTx : SysTx) : bool :=
  negb (bool_decide (SystemTransaction.TrxID sysTx ∈ matchedSystem st))
  && negb (bool_decide (BankTransaction.UniqueIdentifier bankTx ∈ matchedBank st))
  && references bankTx sysTx.

Definition firstMatch {R} (onMatch : R → SysTx → BankTx → R) (fs : list SysTx)
    (st : Claims R) (bankTx : BankTx) : Claims R :=
  match List.find (qualifies st bankTx) fs with
  | Some sysTx => accept onMatch st sysTx bankTx
  | None => st
  end.

(** The invariant of Pass 1: the claim sets are the identifiers of the
    recorded pairs, no identifier is recorded twice, and every pair comes
    from the two lists and is a reference. *)
Definition sysIds (ps : list (SysTx * BankTx)) : list string :=
  SystemTransaction.TrxID <$> ps.*1.

Definition bankIds (ps : list (SysTx * BankTx)) : list string :=
  BankTransaction.UniqueIdentifier <$> ps.*2.

Record Pass1Inv (fs : list SysTx) (fb : list BankTx)
    (st : Claims (list (SysTx * BankTx))) : Prop := {
  inv_system : (matchedSystem st = list_to_set (sysIds (acc st)));
  inv_bank : (matchedBank st = list_to_set (bankIds (acc st)));
  inv_system_nodup : NoDup (sysIds (acc st));
  inv_bank_nodup : NoDup (bankIds (acc st));
  inv_from : ∀ p, p ∈ acc st → p.1 ∈ fs ∧ p.2 ∈ fb ∧ references p.2 p.1 = true
}.

(** [storeBank] on the map behind a made [gomap]. *)
Definition fileUnder (g : gmap string (list BankTx)) (bankTx : BankTx)
    : gmap string (list BankTx) :=
  let src := BankTransaction.BankSource bankTx in
  <[src := default [] (g !! src) ++ [bankTx]]> g.

(** What [processMatch] adds up over a list of pairs. *)
Definition discrepantPairs (ps : list (SysTx * BankTx)) : list (SysTx * BankTx) :=
  filter (λ p, isDiscrepancy p.1 p.2) ps.

Definition detailOf (p : SysTx * BankTx) : DiscrepancyDetail.t :=
  {| DiscrepancyDetail.SystemTransaction := p.1;
     DiscrepancyDetail.BankTransaction := p.2 |}.

Definition sumDiffs (total : float) (ps : list (SysTx * BankTx)) : float :=
  foldl (λ t p, PrimFloat.add t (amountDiff p.1 p.2)) total ps.

(** The report literal of [Reconcile], before any match. *)
Definition initialReport (start end_ : GoTime.Time) (fs : list SysTx) (fb : list BankTx)
    : Report :=
  {| ReconciliationReport.ReconciliationSummary :=
       {| Summary.TimeframeStart := GoTime.FormatDateOnly start;
          Summary.TimeframeEnd := GoTime.FormatDateOnly end_;
          Summary.TotalSystemTransactionsProcessed := Z.of_nat (length fs);
          Summary.TotalBankTransactionsProcessed := Z.of_nat (length fb);
          Summary.MatchedTransactions := 0 |};
     ReconciliationReport.DiscrepantTransactions :=
       {| DiscrepantTransactions.Count := 0;
          DiscrepantTransactions.TotalDiscrepancyValue := 0%float;
          DiscrepantTransactions.Details := Slice [] |};
     ReconciliationReport.UnmatchedTransactions :=
       {| UnmatchedTransactions.Count := 0;
          UnmatchedTransactions.SystemMissingFromBank := nilSlice;
          UnmatchedTransactions.BankMissingFromSystem := Map ∅ |} |}.

(** ** Sample inputs

    The window and the records of the package's tests, and a few inputs
    that exercise one behaviour each.  [day n] is midnight UTC, [n] days
    after 2025-01-01. *)

Definition day (n : Z) : GoTime.Time := GoTime.DateUTC 2025 1 (1 + n) 0 0 0 0.

Definition windowStart : GoTime.Time := day 0.

Definition windowEnd : GoTime.Time := day 7.

Definition mkSys (id : string) (amount : float) (ty : TransactionType)
    (t : GoTime.Time) : SysTx :=
  {| SystemTransaction.TrxID := id;
     SystemTransaction.Amount := amount;
     SystemTransaction.Type_ := ty;
     SystemTransaction.TransactionTime := t |}.

(** A bank record as the CSV gateway builds it from the raw amount. *)
Definition mkBank (id : string) (raw : float) (t : GoTime.Time)
    (description source : string) : BankTx :=
  {| BankTransaction.UniqueIdentifier := id;
     BankTransaction.Amount := raw;
     BankTransaction.Date := t;
     BankTransaction.Description := description;
     BankTransaction.BankSource := source;
     BankTransaction.NormalizedAmount :=
       if PrimFloat.ltb raw 0 then PrimFloat.abs raw else raw;
     BankTransaction.Type_ := if PrimFloat.ltb raw 0 then DEBIT else CREDIT |}.

Definition dupSystem : list SysTx := [mkSys "TRX001" 100 DEBIT (day 1)].

Definition dupBankA : BankTx :=
  mkBank "1" (-100) (day 1) "Purchase trxID:TRX001" "statement_bank_A.csv".

Definition dupBankB : BankTx :=
  mkBank "1" 40 (day 2) "Cash deposit" "statement_bank_B.csv".

Definition dupBank : list BankTx := [dupBankA; dupBankB].

Definition residueSystem : list SysTx :=
  [mkSys "TRX001" 100 DEBIT (day 1); mkSys "TRX999" 500 CREDIT (day 5)].

Definition residueBank : list BankTx :=
  [mkBank "BANK001" (-100) (day 1) "Purchase trxID:TRX001" "Bank1";
   mkBank "BANK999" (-75) (day 4) "ATM Withdrawal" "Bank1"].

Definition groupSystem : list SysTx :=
  [mkSys "TRX001" 100 DEBIT (day 1); mkSys "TRX002" 100 DEBIT (day 1)].

Definition groupBank : list BankTx :=
  [mkBank "BANK001" (-100) (day 1) "Purchase 1" "Bank1";
   mkBank "BANK002" (-100) (day 1) "Purchase 2" "Bank1"].

(** 100.004 and 100 print alike to two decimals. *)
Definition roundedSysTx : SysTx := mkSys "TRX010" 0x1.9004189374bc7p+6 DEBIT (day 1).

Definition roundedBankTx : BankTx := mkBank "BANK010" (-100) (day 1) "Card payment" "Bank1".



(** Identifiers of which one is a prefix of the other. *)
Definition prefixSystem : list SysTx :=
  [mkSys "TRX10" 250 DEBIT (day 2); mkSys "TRX1" 80 DEBIT (day 3)].

Definition prefixBankFirst : BankTx :=
  mkBank "BANK031" (-250) (day 2) "Payment trxID:TRX10" "Bank1".

Definition prefixBankSecond : BankTx :=
  mkBank "BANK032" (-80) (day 3) "Payment trxID:TRX1" "Bank1".

Definition prefixBank : list BankTx := [prefixBankFirst; prefixBankSecond].

Definition discrepantSystem : list SysTx :=
  [mkSys "TRX001" 100 DEBIT (day 1); mkSys "TRX002" 250.5 CREDIT (day 2);
   mkSys "TRX003" 75.25 DEBIT (day 3)].

(** 99.95, 251.00 and 75.25 as the bank reports them. *)
Definition discrepantBank : list BankTx :=
  [mkBank "BANK001" (-0x1.8fccccccccccdp+6) (day 1) "Purchase trxID:TRX001" "Bank1";
   mkBank "BANK002" 251 (day 2) "Deposit trxID:TRX002" "Bank1";
   mkBank "BANK003" (-75.25) (day 3) "Withdrawal trxID:TRX003" "Bank2"].

(** The report of a run over two empty filtered sets. *)
Definition zeroReport (start end_ : GoTime.Time) : Report :=
  {| ReconciliationReport.ReconciliationSummary :=
       {| Summary.TimeframeStart := GoTime.FormatDateOnly start;
          Summary.TimeframeEnd := GoTime.FormatDateOnly end_;
          Summary.TotalSystemTransactionsProcessed := 0;
          Summary.TotalBankTransactionsProcessed := 0;
          Summary.MatchedTransactions := 0 |};
     ReconciliationReport.DiscrepantTransactions :=
       {| DiscrepantTransactions.Count := 0;
          DiscrepantTransactions.TotalDiscrepancyValue := 0%float;
          DiscrepantTransactions.Details := Slice [] |};
     ReconciliationReport.UnmatchedTransactions :=
       {| UnmatchedTransactions.Count := 0;
          UnmatchedTransactions.SystemMissingFromBank := nilSlice;
          UnmatchedTransactions.BankMissingFromSystem := Map ∅ |} |}.

Definition repoOf (systemResult : list SysTx + error) (bankResult : list BankTx + error)
    : ReconciliationUseCase :=
  NewReconciliationUseCase
    {| GetSystemTransactions := λ _, systemResult;
       GetBankTransactions := λ _, bankResult |}.

Definition systemReadError : error := errorNew "failed to read system transactions".

Definition bankReadError : error := errorNew "failed to read bank transactions".

Definition matchedSystem3 : list SysTx :=
  [mkSys "TRX001" 100 DEBIT (day 1); mkSys "TRX002" 250.5 CREDIT (day 2);
   mkSys "TRX003" 75.25 DEBIT (day 3)].

Definition matchedBank3 : list BankTx :=
  [mkBank "BANK001" (-100) (day 1) "Purchase trxID:TRX001" "Bank1";
   mkBank "BANK002" 250.5 (day 2) "Deposit" "Bank1";
   mkBank "BANK003" (-75.25) (day 3) "Withdrawal" "Bank2"].

Definition looseSystem : list SysTx :=
  [mkSys "TRX041" 10 DEBIT (day 1); mkSys "TRX042" 20 DEBIT (day 2)].

(** The last half hour of the end day. *)
Definition lateTime : GoTime.Time := GoTime.DateUTC 2025 1 8 23 30 0 0.

Definition lateSysTx : SysTx := mkSys "TRX050" 60 DEBIT lateTime.

Definition lateBankTx : BankTx := mkBank "BANK050" (-60) lateTime "Late payment" "Bank1".

(** The "date filtering" case of the package's tests: one record in the
    window, one before it, one after it. *)
Definition windowSystem : list SysTx :=
  [mkSys "TRX001" 100 DEBIT (day 1); mkSys "TRX002" 250.5 CREDIT (day (-1));
   mkSys "TRX003" 75.25 DEBIT (day 10)].

Definition windowBank : list BankTx :=
  [mkBank "BANK001" (-100) (day 1) "Purchase trxID:TRX001" "Bank1";
   mkBank "BANK002" 250.5 (day (-1)) "Deposit" "Bank1"].

(** What the package's tests compare of a report: the summary, the
    discrepancy count and total, the number of details, the unmatched count,
    the system-only list and the number of bank-only buckets. *)
Definition compared (r : Report) :=
  (ReconciliationReport.ReconciliationSummary r,
   DiscrepantTransactions.Count (ReconciliationReport.DiscrepantTransactions r),
   DiscrepantTransactions.TotalDiscrepancyValue
     (ReconciliationReport.DiscrepantTransactions r),
   length (elems (DiscrepantTransactions.Details
                    (ReconciliationReport.DiscrepantTransactions r))),
   UnmatchedTransactions.Count (ReconciliationReport.UnmatchedTransactions r),
   UnmatchedTransactions.SystemMissingFromBank
     (ReconciliationReport.UnmatchedTransactions r),
   size (entries (UnmatchedTransactions.BankMissingFromSystem
                    (ReconciliationReport.UnmatchedTransactions r)))).

Definition summaryOf (processedSystem processedBank matched : Z) : Summary.t :=
  {| Summary.TimeframeStart := "2025-01-01";
     Summary.TimeframeEnd := "2025-01-08";
     Summary.TotalSystemTransactionsProcessed := processedSystem;
     Summary.TotalBankTransactionsProcessed := processedBank;
     Summary.MatchedTransactions := matched |}.

(** [assert.InDelta(want, got, 0.001)] *)
Definition inDelta (want got : float) : bool :=
  PrimFloat.leb (PrimFloat.abs (PrimFloat.sub want got)) epsilon.

(** ** Vocabulary of the further properties *)

(** The instants the two filters keep, as nanoseconds since the epoch. *)
Definition inSystemWindow (start end_ t : GoTime.Time) : Prop :=
  GoTime.unixNano start ≤ GoTime.unixNano t < GoTime.unixNano end_ + 23 * GoTime.Hour.

Definition inBankWindow (start end_ t : GoTime.Time) : Prop :=
  GoTime.unixNano start ≤ GoTime.unixNano t
  < GoTime.unixNano end_ + 24 * GoTime.Hour - GoTime.Nanosecond.

(** Midnight UTC: what [time.Parse] gives for a date without a time. *)
Definition atMidnightUTC (t : GoTime.Time) : Prop :=
  GoTime.unixNano t `mod` (24 * GoTime.Hour) = 0.

(** The year that [FormatDateOnly] prints. *)
Definition yearOf (t : GoTime.Time) : Z := (GoTime.civilFromDays (GoTime.civilDay t)).1.1.

(** The month and the day of [civilFromDays], from the day of the era. *)
Definition monthDayOfEra (doe : Z) : Z * Z :=
  let yoe := (doe - doe `div` 1460 + doe `div` 36524 - doe `div` 146096) `div` 365 in
  let doy := doe - (365 * yoe + yoe `div` 4 - yoe `div` 100) in
  let mp := (5 * doy + 2) `div` 153 in
  let d := doy - (153 * mp + 2) `div` 5 + 1 in
  let m := if mp <? 10 then mp + 3 else mp - 9 in
  (m, d).

(** [f] on the [n] integers from [x] on. *)
Fixpoint allFrom (f : Z → bool) (n : nat) (x : Z) : bool :=
  match n with
  | O => true
  | S n' => if f x then allFrom f n' (x + 1) else false
  end.

Definition twoDigits (md : Z * Z) : bool :=
  (String.length (GoTime.appendInt md.1 2) =? 2)%nat
  && (String.length (GoTime.appendInt md.2 2) =? 2)%nat.

Definition fourDigits (y : Z) : bool :=
  (String.length (GoTime.appendInt y 4) =? 4)%nat.

(** The read loop over one reader, said without the accumulator: the
    transactions of the rows, in order, up to the first row that does not
    give one. *)
Fixpoint readAll {T} (parse : list string → outcome T) (path : string)
    (reader : list readResult) : outcome (list T) :=
  match reader with
  | [] => Returned []
  | ReadError err :: _ => Failed (Errorf_w ("error reading record from " +:+ path) err)
  | ReadRecord record :: rest =>
      tx ←! parse record;
      txs ←! readAll parse path rest;
      Returned (tx :: txs)
  end.

(** A row and the system transaction the gateway makes of it. *)
Definition systemRow `{GatewayLibrary} (row : readResult) (tx : SysTx) : Prop :=
  ∃ fields amountText timeText,
    row = ReadRecord fields ∧
    fields !! 0%nat = Some (SystemTransaction.TrxID tx) ∧
    fields !! 1%nat = Some amountText ∧
    ParseFloat amountText = inl (SystemTransaction.Amount tx) ∧
    fields !! 2%nat = Some (SystemTransaction.Type_ tx) ∧
    fields !! 3%nat = Some timeText ∧
    ParseRFC3339 timeText = inl (SystemTransaction.TransactionTime tx).

(** A row of the file at [path] and the bank transaction the gateway makes
    of it. *)
Definition bankRow `{GatewayLibrary} (path : string) (row : readResult) (tx : BankTx)
    : Prop :=
  ∃ fields amountText dateText,
    row = ReadRecord fields ∧
    fields !! 0%nat = Some (BankTransaction.UniqueIdentifier tx) ∧
    fields !! 1%nat = Some amountText ∧
    ParseFloat amountText = inl (BankTransaction.Amount tx) ∧
    fields !! 2%nat = Some dateText ∧
    ParseDateOnly dateText = inl (BankTransaction.Date tx) ∧
    fields !! 3%nat = Some (BankTransaction.Description tx) ∧
    BankTransaction.BankSource tx = Base path ∧
    BankTransaction.Type_ tx
    = (if PrimFloat.ltb (BankTransaction.Amount tx) 0 then DEBIT else CREDIT) ∧
    BankTransaction.NormalizedAmount tx
    = (if PrimFloat.ltb (BankTransaction.Amount tx) 0
       then PrimFloat.abs (BankTransaction.Amount tx)
       else BankTransaction.Amount tx).

Definition fourFields (r : readResult) : Prop :=
  match r with ReadRecord fields => (4 ≤ length fields)%nat | ReadError _ => True end.

(** The file at [path] read in full: it opens, its first row is skipped, and
    its other rows give [parsed], one by one. *)
Definition bankFile `{GatewayLibrary} (path : string) (parsed : list BankTx) : Prop :=
  ∃ header rows,
    openCSV path = inl (ReadRecord header :: rows) ∧ Forall2 (bankRow path) rows parsed.

(** ** Sample files

    Files in the manner of the gateway's tests, and the texts the parsers
    accept in them. *)

(** A table-driven library for the examples: files by path, and the texts
    the parsers accept. *)
Definition lookupOr {A} (table : list (string * A)) (key : string) (err : error) : A + error :=
  match list_find (λ kv, kv.1 = key) table with
  | Some (_, (_, a)) => inl a
  | None => inr err
  end.

Definition tableLibrary (files : list (string * list (list string)))
    (floats : list (string * float)) (times dates : list (string * GoTime.Time))
    : GatewayLibrary :=
  {| openCSV := λ path,
       match lookupOr files path
               (errorNew ("open " +:+ path +:+ ": no such file or directory")) with
       | inl rows => inl (ReadRecord <$> rows)
       | inr err => inr err
       end;
     ParseFloat := λ s, lookupOr floats s (errorNew "invalid syntax");
     ParseRFC3339 := λ s, lookupOr times s (errorNew "cannot parse time");
     ParseDateOnly := λ s, lookupOr dates s (errorNew "cannot parse date") |}.

Definition testLibrary : GatewayLibrary :=
  tableLibrary
    [("system.csv",
      [["trxID"; "amount"; "type"; "transactionTime"];
       ["SYS001"; "150.00"; "DEBIT"; "2025-09-01T10:00:00Z"];
       ["SYS002"; "200.50"; "CREDIT"; "2025-09-01T11:30:00Z"];
       ["SYS003"; "75.00"; "DEBIT"; "2025-09-02T09:00:00Z"]]);
     ("header_only.csv", [["trxID"; "amount"; "type"; "transactionTime"]]);
     ("empty.csv", []);
     ("bad_amount.csv",
      [["trxID"; "amount"; "type"; "transactionTime"];
       ["SYS001"; "150.00"; "DEBIT"; "2025-09-01T10:00:00Z"];
       ["SYS002"; "invalid_amount"; "DEBIT"; "invalid_time"];
       ["SYS003"; "75.00"; "DEBIT"; "2025-09-02T09:00:00Z"]]);
     ("bad_time.csv",
      [["trxID"; "amount"; "type"; "transactionTime"];
       ["SYS001"; "150.00"; "DEBIT"; "invalid_time"]]);
     ("short.csv", [["trxID"; "amount"]; ["SYS001"; "150.00"]]);
     ("/tmp/test_bank_0.csv",
      [["unique_identifier"; "amount"; "date"; "description"];
       ["BANK_A_1"; "-150.00"; "2025-09-01"; "Payment for INV001 trxID:SYS001"];
       ["BANK_A_2"; "200.50"; "2025-09-01"; "Incoming Transfer"];
       ["BANK_A_3"; "-75.00"; "2025-09-02"; "Withdrawal ATM Central"]]);
     ("/tmp/test_bank_1.csv",
      [["unique_identifier"; "amount"; "date"; "description"];
       ["BANK_B_1"; "500.00"; "2025-09-03"; "Deposit from Client X"]]);
     ("/tmp/bank_header_only.csv",
      [["unique_identifier"; "amount"; "date"; "description"]])]
    [("150.00", 150%float); ("200.50", 200.5%float); ("75.00", 75%float);
     ("-150.00", (-150)%float); ("-75.00", (-75)%float); ("500.00", 500%float)]
    [("2025-09-01T10:00:00Z", GoTime.DateUTC 2025 9 1 10 0 0 0);
     ("2025-09-01T11:30:00Z", GoTime.DateUTC 2025 9 1 11 30 0 0);
     ("2025-09-02T09:00:00Z", GoTime.DateUTC 2025 9 2 9 0 0 0)]
    [("2025-09-01", GoTime.DateUTC 2025 9 1 0 0 0 0);
     ("2025-09-02", GoTime.DateUTC 2025 9 2 0 0 0 0);
     ("2025-09-03", GoTime.DateUTC 2025 9 3 0 0 0 0)].

Definition testBankPaths : list string :=
  ["/tmp/test_bank_0.csv"; "/tmp/test_bank_1.csv"]%string.

Definition firstBankRow : BankTx :=
  {| BankTransaction.UniqueIdentifier := "BANK_A_1";
     BankTransaction.Amount := (-150)%float;
     BankTransaction.Date := GoTime.DateUTC 2025 9 1 0 0 0 0;
     BankTransaction.Description := "Payment for INV001 trxID:SYS001";
     BankTransaction.BankSource := "test_bank_0.csv";
     BankTransaction.NormalizedAmount := 150%float;
     BankTransaction.Type_ := DEBIT |}.

Definition firstSystemRow : SysTx :=
  {| SystemTransaction.TrxID := "SYS001";
     SystemTransaction.Amount := 150%float;
     SystemTransaction.Type_ := DEBIT;
     SystemTransaction.TransactionTime := GoTime.DateUTC 2025 9 1 10 0 0 0 |}.

(** * Properties *)

(** ** The model on known values

    The models of [time] and [fmt] on values whose Go rendering is known,
    and [Reconcile] on the cases of [reconciliation_test.go], under two
    orders of map iteration. *)

Example FormatDateOnly_values :
  GoTime.FormatDateOnly (GoTime.DateUTC 2025 1 1 0 0 0 0) = "2025-01-01"%string ∧
  GoTime.FormatDateOnly (GoTime.DateUTC 2024 2 29 23 59 59 999999999) = "2024-02-29"%string ∧
  GoTime.FormatDateOnly (GoTime.DateUTC 1969 12 31 12 0 0 0) = "1969-12-31"%string ∧
  GoTime.FormatDateOnly
    {| GoTime.unixNano := GoTime.unixNano (GoTime.DateUTC 2025 1 1 23 0 0 0);
       GoTime.zoneOffset := 7200 |} = "2025-01-02"%string ∧
  GoTime.unixNano (GoTime.DateUTC 2025 1 1 0 0 0 0) = 1735689600 * GoTime.Second.
Proof. vm_compute. done. Qed.

Example Sprintf_2f_values :
  GoFmt.Sprintf_2f 100 = "100.00"%string ∧
  GoFmt.Sprintf_2f 250.5 = "250.50"%string ∧
  GoFmt.Sprintf_2f 0.125 = "0.12"%string ∧
  GoFmt.Sprintf_2f 0.375 = "0.38"%string ∧
  GoFmt.Sprintf_2f (-75.25) = "-75.25"%string ∧
  GoFmt.Sprintf_2f (-0x1.0624dd2f1a9fcp-10) = "-0.00"%string ∧
  GoFmt.Sprintf_2f 0x1.9004189374bc7p+6 = "100.00"%string ∧
  GoFmt.Sprintf_2f infinity = "+Inf"%string ∧
  GoFmt.Sprintf_2f nan = "NaN"%string.
Proof. vm_compute. done. Qed.

Example Contains_values :
  GoFmt.Contains "Purchase trxID:TRX001" "trxID:TRX001" = true ∧
  GoFmt.Contains "Purchase trxID:TRX01" "trxID:TRX001" = false ∧
  GoFmt.Contains "Payment trxID:TRX10" "trxID:TRX1" = true ∧
  GoFmt.Contains "" "" = true.
Proof. vm_compute. done. Qed.

Example test_all_matching_types :
  compared (reconcileLoaded (scheduleOf listedOrder) matchedSystem3 matchedBank3
              windowStart windowEnd)
  = (summaryOf 3 3 3, 0, 0%float, 0%nat, 0, nilSlice, 0%nat) ∧
  compared (reconcileLoaded (scheduleOf reversedOrder) matchedSystem3 matchedBank3
              windowStart windowEnd)
  = (summaryOf 3 3 3, 0, 0%float, 0%nat, 0, nilSlice, 0%nat).
Proof. vm_compute. done. Qed.

Example test_discrepancies :
  let r := reconcileLoaded (scheduleOf listedOrder)
             (take 2 discrepantSystem) (take 2 discrepantBank) windowStart windowEnd in
  ReconciliationReport.ReconciliationSummary r = summaryOf 2 2 2 ∧
  DiscrepantTransactions.Count (ReconciliationReport.DiscrepantTransactions r) = 2 ∧
  inDelta 0x1.199999999999ap-1
    (DiscrepantTransactions.TotalDiscrepancyValue
       (ReconciliationReport.DiscrepantTransactions r)) = true ∧
  jsonOfSlice (DiscrepantTransactions.Details
                 (ReconciliationReport.DiscrepantTransactions r)) = JsonArray 2 ∧
  ReconciliationReport.UnmatchedTransactions r
  = {| UnmatchedTransactions.Count := 0;
       UnmatchedTransactions.SystemMissingFromBank := nilSlice;
       UnmatchedTransactions.BankMissingFromSystem := Map ∅ |}.
Proof. vm_compute. done. Qed.

Example test_unmatched_transactions :
  compared (reconcileLoaded (scheduleOf listedOrder) residueSystem residueBank
              windowStart windowEnd)
  = (summaryOf 2 2 1, 0, 0%float, 0%nat, 2,
     Slice [mkSys "TRX999" 500 CREDIT (day 5)], 1%nat) ∧
  compared (reconcileLoaded (scheduleOf reversedOrder) residueSystem residueBank
              windowStart windowEnd)
  = (summaryOf 2 2 1, 0, 0%float, 0%nat, 2,
     Slice [mkSys "TRX999" 500 CREDIT (day 5)], 1%nat).
Proof. vm_compute. done. Qed.

Example test_group_matching :
  compared (reconcileLoaded (scheduleOf listedOrder) groupSystem groupBank
              windowStart windowEnd)
  = (summaryOf 2 2 2, 0, 0%float, 0%nat, 0, nilSlice, 0%nat) ∧
  compared (reconcileLoaded (scheduleOf reversedOrder) groupSystem groupBank
              windowStart windowEnd)
  = (summaryOf 2 2 2, 0, 0%float, 0%nat, 0, nilSlice, 0%nat).
Proof. vm_compute. done. Qed.

Example test_date_filtering :
  compared (reconcileLoaded (scheduleOf listedOrder) windowSystem windowBank
              windowStart windowEnd)
  = (summaryOf 1 1 1, 0, 0%float, 0%nat, 0, nilSlice, 0%nat) ∧
  compared (reconcileLoaded (scheduleOf reversedOrder) windowSystem windowBank
              windowStart windowEnd)
  = (summaryOf 1 1 1, 0, 0%float, 0%nat, 0, nilSlice, 0%nat).
Proof. vm_compute. done. Qed.

Example test_empty_transactions :
  compared (reconcileLoaded (scheduleOf listedOrder) [] [] windowStart windowEnd)
  = (summaryOf 0 0 0, 0, 0%float, 0%nat, 0, nilSlice, 0%nat).
Proof. vm_compute. done. Qed.

Set Warnings "-clear-no-such-hyp".

(** ** The loops are generic in the handler

    Running the loops with any handler gives the same claim sets and group
    maps as running them with [notePair], and an accumulator that is the
    handler folded over the recorded pairs. *)

Section Replay.
Context {R : Type} (onMatch : R → SysTx → BankTx → R) (r0 : R).

Local Abbreviation replay := (replay onMatch r0).
Local Abbreviation replayClaims := (replayClaims onMatch r0).
Local Abbreviation replayGroups := (replayGroups onMatch r0).

Lemma accept_replay st sysTx bankTx :
  accept onMatch (replayClaims st) sysTx bankTx
  = replayClaims (accept notePair st sysTx bankTx).
Proof.
  unfold accept, replayClaims, replay, notePair; simpl.
  by rewrite foldl_app.
Qed.

Lemma pass1Body_replay bankTx st sysTx :
  pass1Body onMatch bankTx (replayClaims st) sysTx
  = replayClaims (pass1Body notePair bankTx st sysTx).
Proof.
  unfold pass1Body; simpl.
  repeat case_match; try done; apply accept_replay.
Qed.

Lemma foldl_replay {A B C} (f : B → A → B) (g : C → A → C) (h : C → B)
    (l : list A) (c : C) :
  (∀ c a, f (h c) a = h (g c a)) → foldl f (h c) l = h (foldl g c l).
Proof.
  intros Hstep. revert c. induction l as [|a l IH]; intros c; simpl; [done|].
  by rewrite Hstep, IH.
Qed.

Lemma pass1_replay fs fb st :
  pass1 onMatch fs fb (replayClaims st) = replayClaims (pass1 notePair fs fb st).
Proof.
  unfold pass1. apply foldl_replay. intros c b.
  apply foldl_replay. intros c' s. apply pass1Body_replay.
Qed.

Lemma groupBody_replay g entry :
  groupBody onMatch (replayGroups g) entry = replayGroups (groupBody notePair g entry).
Proof.
  destruct entry as [key sysTxs]. unfold groupBody; simpl.
  destruct (bankMap g !! key) as [bankTxs|]; [|done].
  case_match; [|done].
  unfold replayGroups; simpl. f_equal.
  apply foldl_replay. intros c p. apply accept_replay.
Qed.

Lemma matcher_replay o fs fb :
  matcher onMatch o fs fb r0 = replayGroups (matcher notePair o fs fb []).
Proof.
  unfold matcher.
  set (st0 := {| acc := []; matchedSystem := ∅; matchedBank := ∅ |}).
  change {| acc := r0; matchedSystem := ∅; matchedBank := ∅ |}
    with (replayClaims st0).
  rewrite pass1_replay. simpl.
  set (st1 := pass1 notePair fs fb st0).
  match goal with
  | |- foldl _ ?g0 _ = _ =>
      change g0 with (replayGroups
        {| claims := st1;
           systemMap := groupInto
             (λ tx, bool_decide (SystemTransaction.TrxID tx ∈ matchedSystem st1))
             systemKey fs;
           bankMap := groupInto
             (λ tx, bool_decide (BankTransaction.UniqueIdentifier tx ∈ matchedBank st1))
             bankKey fb |})
  end.
  apply foldl_replay. intros c e. apply groupBody_replay.
Qed.

Lemma acc_matcher_replay o fs fb :
  acc (claims (matcher onMatch o fs fb r0)) = replay (acceptedPairs o fs fb).
Proof. by rewrite matcher_replay. Qed.

Lemma systemMap_matcher_replay o fs fb :
  systemMap (matcher onMatch o fs fb r0) = systemMap (matcher notePair o fs fb []).
Proof. by rewrite matcher_replay. Qed.

Lemma bankMap_matcher_replay o fs fb :
  bankMap (matcher onMatch o fs fb r0) = bankMap (matcher notePair o fs fb []).
Proof. by rewrite matcher_replay. Qed.

End Replay.

(** ** Lists *)

Lemma filter_none {A} (Q : A → Prop) `{∀ x, Decision (Q x)} (l : list A) :
  (∀ x, x ∈ l → ¬ Q x) → filter Q l = [].
Proof.
  induction l as [|x l IH]; intros HQ; [done|].
  rewrite filter_cons_False by (apply HQ; left).
  apply IH. intros y Hy. apply HQ. by right.
Qed.

Lemma filter_every {A} (Q : A → Prop) `{∀ x, Decision (Q x)} (l : list A) :
  (∀ x, x ∈ l → Q x) → filter Q l = l.
Proof.
  induction l as [|x l IH]; intros HQ; [done|].
  rewrite filter_cons_True by (apply HQ; left).
  f_equal. apply IH. intros y Hy. apply HQ. by right.
Qed.

(** ** What [groupInto] builds *)

Section Grouping.
Context {T : Type} (claimed : T → bool) (key : T → string).

Lemma groupOf_app k l1 l2 :
  groupOf claimed key k (l1 ++ l2)
  = groupOf claimed key k l1 ++ groupOf claimed key k l2.
Proof. apply filter_app. Qed.

Lemma groupOf_snoc_claimed k l x :
  claimed x = true → groupOf claimed key k (l ++ [x]) = groupOf claimed key k l.
Proof.
  intros Hc. rewrite groupOf_app. unfold groupOf at 2.
  rewrite filter_cons_False, filter_nil, app_nil_r; [done|].
  intros [? _]; congruence.
Qed.

Lemma groupOf_snoc_other k l x :
  key x ≠ k → groupOf claimed key k (l ++ [x]) = groupOf claimed key k l.
Proof.
  intros Hk. rewrite groupOf_app. unfold groupOf at 2.
  rewrite filter_cons_False, filter_nil, app_nil_r; [done|].
  intros [_ ?]; congruence.
Qed.

Lemma groupOf_snoc_same l x :
  claimed x = false →
  groupOf claimed key (key x) (l ++ [x]) = groupOf claimed key (key x) l ++ [x].
Proof.
  intros Hc. rewrite groupOf_app. unfold groupOf at 2.
  by rewrite filter_cons_True, filter_nil.
Qed.

Lemma default_optGroup (l : list T) : default [] (optGroup l) = l.
Proof. by destruct l. Qed.

Lemma optGroup_snoc (l : list T) x : optGroup (l ++ [x]) = Some (l ++ [x]).
Proof. by destruct l. Qed.

Lemma groupInto_snoc l x :
  groupInto claimed key (l ++ [x])
  = let m := groupInto claimed key l in
    if claimed x then m else <[key x := default [] (m !! key x) ++ [x]]> m.
Proof. unfold groupInto. by rewrite foldl_app. Qed.

Lemma groupInto_lookup txs k :
  groupInto claimed key txs !! k = optGroup (groupOf claimed key k txs).
Proof.
  induction txs as [|x txs IH] using rev_ind; [done|].
  rewrite groupInto_snoc. simpl.
  destruct (claimed x) eqn:Hc.
  { by rewrite groupOf_snoc_claimed. }
  destruct (decide (key x = k)) as [<-|Hne].
  - rewrite lookup_insert_eq, IH, default_optGroup, groupOf_snoc_same by done.
    by rewrite optGroup_snoc.
  - by rewrite lookup_insert_ne, groupOf_snoc_other.
Qed.

(** The groups, put end to end, are the unclaimed records. *)
Lemma groupInto_concat txs :
  concat (map_to_list (groupInto claimed key txs)).*2
  ≡ₚ filter (λ tx, claimed tx = false) txs.
Proof.
  induction txs as [|x txs IH] using rev_ind; [done|].
  rewrite groupInto_snoc, filter_app. simpl.
  destruct (claimed x) eqn:Hc.
  { rewrite filter_cons_False, filter_nil, app_nil_r by congruence. done. }
  rewrite filter_cons_True, filter_nil by done.
  set (m := groupInto claimed key txs) in *.
  destruct (m !! key x) as [l|] eqn:Hm; simpl.
  - rewrite <-IH.
    rewrite <-(insert_delete_eq m (key x) (l ++ [x])).
    rewrite map_to_list_insert by apply lookup_delete_eq.
    rewrite <-(insert_delete_id m (key x) l) at 2 by done.
    rewrite map_to_list_insert by apply lookup_delete_eq.
    simpl. rewrite <-!app_assoc. f_equiv. apply Permutation_app_comm.
  - rewrite map_to_list_insert by done. simpl.
    rewrite IH. apply Permutation_cons_append.
Qed.
End Grouping.

(** ** The loop over [systemMap] *)

Section MatchLoop.
Implicit Types (g : Groups (list (SysTx * BankTx))) (e : string * list SysTx).

Lemma accept_all_acc (st : Claims (list (SysTx * BankTx))) ps :
  acc (foldl (λ st p, accept notePair st p.1 p.2) st ps) = acc st ++ ps.
Proof.
  revert st. induction ps as [|p ps IH]; intros st; simpl.
  - by rewrite app_nil_r.
  - rewrite IH. simpl. unfold notePair. destruct p. by rewrite <-app_assoc.
Qed.

Lemma groupBody_acc g e :
  acc (claims (groupBody notePair g e)) = acc (claims g) ++ pairsOfEntry (bankMap g) e.
Proof.
  destruct e as [k s]. unfold groupBody, pairsOfEntry. simpl.
  destruct (bankMap g !! k) as [b|]; [|by rewrite app_nil_r].
  case_match; simpl; [apply accept_all_acc | by rewrite app_nil_r].
Qed.

Lemma groupBody_systemMap g e :
  systemMap (groupBody notePair g e)
  = if pairedEntry (bankMap g) e then delete e.1 (systemMap g) else systemMap g.
Proof.
  destruct e as [k s]. unfold groupBody, pairedEntry. simpl.
  destruct (bankMap g !! k) as [b|]; [|done]. by case_match.
Qed.

Lemma groupBody_bankMap g e :
  bankMap (groupBody notePair g e)
  = if pairedEntry (bankMap g) e then delete e.1 (bankMap g) else bankMap g.
Proof.
  destruct e as [k s]. unfold groupBody, pairedEntry. simpl.
  destruct (bankMap g !! k) as [b|]; [|done]. by case_match.
Qed.

Lemma pairedEntry_ext (B B' : gmap string (list BankTx)) e :
  B !! e.1 = B' !! e.1 → pairedEntry B e = pairedEntry B' e.
Proof. unfold pairedEntry. by intros ->. Qed.

Lemma pairsOfEntry_ext (B B' : gmap string (list BankTx)) e :
  B !! e.1 = B' !! e.1 → pairsOfEntry B e = pairsOfEntry B' e.
Proof. unfold pairsOfEntry. by intros ->. Qed.

Lemma pairedKeys_cons (B : gmap string (list BankTx)) e L :
  pairedKeys B (e :: L)
  = if pairedEntry B e then e.1 :: pairedKeys B L else pairedKeys B L.
Proof.
  unfold pairedKeys. rewrite filter_cons.
  by destruct (pairedEntry B e).
Qed.

Lemma pairedKeys_ext (B B' : gmap string (list BankTx)) L :
  (∀ e, e ∈ L → B !! e.1 = B' !! e.1) → pairedKeys B L = pairedKeys B' L.
Proof.
  unfold pairedKeys. intros H. f_equal.
  induction L as [|e L IH]; [done|].
  rewrite !filter_cons. rewrite (pairedEntry_ext B B' e) by (apply H; left).
  rewrite IH; [done|]. intros e' He'. apply H. by right.
Qed.

Lemma bind_pairsOfEntry_ext (B B' : gmap string (list BankTx)) (L : list (string * list SysTx)) :
  (∀ e, e ∈ L → B !! e.1 = B' !! e.1) →
  L ≫= pairsOfEntry B = L ≫= pairsOfEntry B'.
Proof.
  intros H. induction L as [|e L IH]; [done|].
  rewrite !bind_cons, (pairsOfEntry_ext B B' e) by (apply H; left).
  rewrite IH; [done|]. intros e' He'. apply H. by right.
Qed.

Lemma matchLoop L : ∀ g,
  NoDup L.*1 →
  let g' := foldl (groupBody notePair) g L in
  acc (claims g') = acc (claims g) ++ (L ≫= pairsOfEntry (bankMap g)) ∧
  (∀ k, systemMap g' !! k
        = if bool_decide (k ∈ pairedKeys (bankMap g) L) then None
          else systemMap g !! k) ∧
  (∀ k, bankMap g' !! k
        = if bool_decide (k ∈ pairedKeys (bankMap g) L) then None
          else bankMap g !! k).
Proof.
  induction L as [|e L IH]; intros g Hnd; cbv zeta.
  { simpl. split; [by rewrite app_nil_r|]. split; intros k; done. }
  change (foldl (groupBody notePair) g (e :: L))
    with (foldl (groupBody notePair) (groupBody notePair g e) L).
  rewrite bind_cons.
  rewrite fmap_cons in Hnd. apply NoDup_cons in Hnd as [Hnotin Hnd].
  assert (Hsame : ∀ e', e' ∈ L →
             bankMap (groupBody notePair g e) !! e'.1 = bankMap g !! e'.1).
  { intros e' He'. rewrite groupBody_bankMap. case_match; [|done].
    apply lookup_delete_ne. intros Heq. apply Hnotin. rewrite Heq.
    by apply list_elem_of_fmap_2. }
  destruct (IH (groupBody notePair g e) Hnd) as (Hacc & Hsys & Hbank).
  rewrite (bind_pairsOfEntry_ext _ (bankMap g)) in Hacc by done.
  rewrite (pairedKeys_ext _ (bankMap g)) in Hsys, Hbank by done.
  split; [|split].
  - by rewrite Hacc, groupBody_acc, <-app_assoc.
  - intros k. rewrite Hsys, groupBody_systemMap, pairedKeys_cons.
    destruct (pairedEntry (bankMap g) e) eqn:Hp; [|done].
    destruct (decide (k = e.1)) as [->|Hne].
    + rewrite (bool_decide_eq_true_2 (_ ∈ _ :: _)) by left.
      case_bool_decide; [done|]. apply lookup_delete_eq.
    + rewrite lookup_delete_ne by done.
      repeat case_bool_decide; set_solver.
  - intros k. rewrite Hbank, groupBody_bankMap, pairedKeys_cons.
    destruct (pairedEntry (bankMap g) e) eqn:Hp; [|done].
    destruct (decide (k = e.1)) as [->|Hne].
    + rewrite (bool_decide_eq_true_2 (_ ∈ _ :: _)) by left.
      case_bool_decide; [done|]. apply lookup_delete_eq.
    + rewrite lookup_delete_ne by done.
      repeat case_bool_decide; set_solver.
Qed.
End MatchLoop.

(** ** Pass 1 as a search for the first qualifying record *)

Section Pass1.
Context {R : Type} (onMatch : R → SysTx → BankTx → R).
Implicit Types (st : Claims R).

Lemma pass1Body_qualifies b st s :
  pass1Body onMatch b st s = if qualifies st b s then accept onMatch st s b else st.
Proof.
  unfold pass1Body, qualifies, references, token.
  repeat case_bool_decide; simpl; try done.
Qed.

Lemma inner_claimed b st fs :
  BankTransaction.UniqueIdentifier b ∈ matchedBank st →
  foldl (pass1Body onMatch b) st fs = st.
Proof.
  intros Hb. induction fs as [|s fs IH]; [done|]. simpl.
  rewrite pass1Body_qualifies. unfold qualifies.
  rewrite (bool_decide_eq_true_2 _ Hb), andb_false_r. simpl. apply IH.
Qed.

Lemma inner_firstMatch b st fs :
  foldl (pass1Body onMatch b) st fs = firstMatch onMatch fs st b.
Proof.
  unfold firstMatch. revert st. induction fs as [|s fs IH]; intros st; [done|].
  simpl. rewrite pass1Body_qualifies.
  destruct (qualifies st b s) eqn:Hq.
  - apply inner_claimed. simpl. set_solver.
  - rewrite IH. done.
Qed.

Lemma pass1_firstMatch fs fb st :
  pass1 onMatch fs fb st = foldl (firstMatch onMatch fs) st fb.
Proof.
  unfold pass1. revert st. induction fb as [|b fb IH]; intros st; [done|].
  simpl. by rewrite inner_firstMatch, IH.
Qed.

Lemma pass1_snoc fs fb b st :
  pass1 onMatch fs (fb ++ [b]) st = firstMatch onMatch fs (pass1 onMatch fs fb st) b.
Proof. by rewrite !pass1_firstMatch, foldl_app. Qed.
End Pass1.

(** ** The invariant of Pass 1 *)

Section Pass1Invariant.
Implicit Types (st : Claims (list (SysTx * BankTx))).

Lemma sysIds_snoc ps s b :
  sysIds (ps ++ [(s, b)]) = sysIds ps ++ [SystemTransaction.TrxID s].
Proof. unfold sysIds. by rewrite !fmap_app. Qed.

Lemma bankIds_snoc ps s b :
  bankIds (ps ++ [(s, b)]) = bankIds ps ++ [BankTransaction.UniqueIdentifier b].
Proof. unfold bankIds. by rewrite !fmap_app. Qed.

Lemma qualifies_inv {R} (st : Claims R) b s :
  qualifies st b s = true →
  (SystemTransaction.TrxID s ∉ matchedSystem st) ∧
  (BankTransaction.UniqueIdentifier b ∉ matchedBank st) ∧
  references b s = true.
Proof.
  unfold qualifies. rewrite !andb_true_iff, !negb_true_iff.
  intros [[H1 H2] H3].
  apply bool_decide_eq_false in H1. apply bool_decide_eq_false in H2. done.
Qed.

Lemma init_inv fs fb :
  Pass1Inv fs fb {| acc := []; matchedSystem := ∅; matchedBank := ∅ |}.
Proof.
  split; simpl; [done|done|constructor|constructor|].
  intros p Hp. by apply elem_of_nil in Hp.
Qed.

Lemma firstMatch_inv fs fb st b :
  b ∈ fb → Pass1Inv fs fb st → Pass1Inv fs fb (firstMatch notePair fs st b).
Proof.
  intros Hb [Hs Hk Hns Hnb Hfrom]. unfold firstMatch.
  destruct (find (qualifies st b) fs) as [s|] eqn:Hfind; [|done].
  apply find_some in Hfind as [Hin Hq].
  apply qualifies_inv in Hq as (Hsfresh & Hbfresh & Href).
  split; simpl; unfold notePair.
  - rewrite sysIds_snoc, list_to_set_app_L, Hs. set_solver.
  - rewrite bankIds_snoc, list_to_set_app_L, Hk. set_solver.
  - rewrite sysIds_snoc. apply NoDup_app. split; [done|]. split; [|apply NoDup_singleton].
    intros x Hx ->%list_elem_of_singleton. apply Hsfresh. rewrite Hs.
    by apply elem_of_list_to_set.
  - rewrite bankIds_snoc. apply NoDup_app. split; [done|]. split; [|apply NoDup_singleton].
    intros x Hx ->%list_elem_of_singleton. apply Hbfresh. rewrite Hk.
    by apply elem_of_list_to_set.
  - intros p [Hp| ->%list_elem_of_singleton]%elem_of_app; [by apply Hfrom|].
    simpl. by rewrite <-list_elem_of_In in Hin.
Qed.

Lemma pass1_inv_gen fs fb fb' st :
  (∀ b, b ∈ fb' → b ∈ fb) → Pass1Inv fs fb st →
  Pass1Inv fs fb (pass1 notePair fs fb' st).
Proof.
  rewrite pass1_firstMatch. revert st.
  induction fb' as [|b fb' IH]; intros st Hsub Hinv; [done|].
  simpl. apply IH; [set_solver|]. apply firstMatch_inv; [set_solver|done].
Qed.

Lemma afterPass1_inv fs fb : Pass1Inv fs fb (afterPass1 fs fb).
Proof. apply pass1_inv_gen; [done|apply init_inv]. Qed.

Lemma firstMatch_mono {R} (h : R → SysTx → BankTx → R) fs (st : Claims R) b :
  matchedSystem st ⊆ matchedSystem (firstMatch h fs st b) ∧
  matchedBank st ⊆ matchedBank (firstMatch h fs st b).
Proof. unfold firstMatch. case_match; simpl; set_solver. Qed.

End Pass1Invariant.

(** Counting the records whose identifier is in a duplicate-free list. *)
Section Counting.
Context {T : Type} (ident : T → string).

Lemma claimed_count_le (ids : list string) (txs : list T) :
  NoDup ids → (∀ i, i ∈ ids → ∃ tx, tx ∈ txs ∧ ident tx = i) →
  (length ids ≤ length (filter (λ tx, ident tx ∈ ids) txs))%nat.
Proof.
  intros Hnd Hin.
  rewrite <-(length_fmap ident (filter _ txs)).
  apply submseteq_length, NoDup_submseteq; [done|].
  intros i Hi. destruct (Hin i Hi) as (tx & Htx & <-).
  apply list_elem_of_fmap_2, list_elem_of_filter. done.
Qed.

Lemma claimed_count_eq (ids : list string) (txs : list T) :
  NoDup ids → (∀ i, i ∈ ids → ∃ tx, tx ∈ txs ∧ ident tx = i) →
  NoDup (ident <$> txs) →
  length ids = length (filter (λ tx, ident tx ∈ ids) txs).
Proof.
  intros Hnd Hin Hndt. apply Nat.le_antisymm; [by apply claimed_count_le|].
  rewrite <-(length_fmap ident (filter _ txs)).
  apply submseteq_length, NoDup_submseteq.
  - apply (sublist_NoDup _ (ident <$> txs)); [done|].
    apply fmap_sublist, sublist_filter.
  - intros i (tx & -> & Htx)%list_elem_of_fmap.
    by apply list_elem_of_filter in Htx as [? _].
Qed.

End Counting.

(** ** The matcher, pass by pass *)

Section MatcherStructure.
Context (o : MapOrder) (Hfair : fairOrder o) (fs : list SysTx) (fb : list BankTx).

Lemma rangeMap_perm {V} (m : gmap string V) : rangeMap o m ≡ₚ map_to_list m.
Proof. apply Hfair. Qed.

Lemma rangeMap_NoDup {V} (m : gmap string V) : NoDup (rangeMap o m).*1.
Proof. rewrite rangeMap_perm. apply NoDup_fst_map_to_list. Qed.

Lemma elem_of_rangeMap {V} (m : gmap string V) k v :
  (k, v) ∈ rangeMap o m ↔ m !! k = Some v.
Proof. rewrite rangeMap_perm. apply elem_of_map_to_list. Qed.

Lemma matcher_unfold :
  matcher notePair o fs fb []
  = foldl (groupBody notePair)
      {| claims := afterPass1 fs fb;
         systemMap := systemGroups fs fb;
         bankMap := bankGroups fs fb |}
      (rangeMap o (systemGroups fs fb)).
Proof. reflexivity. Qed.

Lemma acceptedPairs_split :
  acceptedPairs o fs fb
  = pass1Pairs fs fb
    ++ (rangeMap o (systemGroups fs fb) ≫= pairsOfEntry (bankGroups fs fb)).
Proof.
  unfold acceptedPairs. rewrite matcher_unfold.
  by destruct (matchLoop (rangeMap o (systemGroups fs fb))
                 {| claims := afterPass1 fs fb;
                    systemMap := systemGroups fs fb;
                    bankMap := bankGroups fs fb |} (rangeMap_NoDup _)) as (-> & _).
Qed.

Lemma groupedPairs_eq :
  groupedPairs o fs fb
  = rangeMap o (systemGroups fs fb) ≫= pairsOfEntry (bankGroups fs fb).
Proof.
  unfold groupedPairs. rewrite acceptedPairs_split. by rewrite drop_app_length.
Qed.

Lemma elem_of_pairedKeys k :
  k ∈ pairedKeys (bankGroups fs fb) (rangeMap o (systemGroups fs fb))
  ↔ pairedKey fs fb k = true.
Proof.
  unfold pairedKeys, pairedKey. rewrite list_elem_of_fmap. split.
  - intros ([k' v] & -> & [Hp Hin]%list_elem_of_filter). simpl.
    apply elem_of_rangeMap in Hin. rewrite Hin.
    unfold pairedEntry in Hp. simpl in Hp.
    destruct (bankGroups fs fb !! k'); [by apply Is_true_true|done].
  - destruct (systemGroups fs fb !! k) as [v|] eqn:Hs; [|done].
    destruct (bankGroups fs fb !! k) as [b|] eqn:Hb; [|done].
    intros Hlen. exists (k, v). split; [done|].
    apply list_elem_of_filter. split; [|by apply elem_of_rangeMap].
    unfold pairedEntry. simpl. rewrite Hb. by apply Is_true_true.
Qed.

Lemma systemMap_final k :
  systemMap (matcher notePair o fs fb []) !! k
  = if pairedKey fs fb k then None else systemGroups fs fb !! k.
Proof.
  rewrite matcher_unfold.
  destruct (matchLoop (rangeMap o (systemGroups fs fb))
              {| claims := afterPass1 fs fb;
                 systemMap := systemGroups fs fb;
                 bankMap := bankGroups fs fb |} (rangeMap_NoDup _)) as (_ & -> & _).
  simpl. destruct (pairedKey fs fb k) eqn:Hp.
  - by rewrite bool_decide_eq_true_2 by by apply elem_of_pairedKeys.
  - rewrite bool_decide_eq_false_2; [done|].
    rewrite elem_of_pairedKeys. congruence.
Qed.

Lemma bankMap_final k :
  bankMap (matcher notePair o fs fb []) !! k
  = if pairedKey fs fb k then None else bankGroups fs fb !! k.
Proof.
  rewrite matcher_unfold.
  destruct (matchLoop (rangeMap o (systemGroups fs fb))
              {| claims := afterPass1 fs fb;
                 systemMap := systemGroups fs fb;
                 bankMap := bankGroups fs fb |} (rangeMap_NoDup _)) as (_ & _ & ->).
  simpl. destruct (pairedKey fs fb k) eqn:Hp.
  - by rewrite bool_decide_eq_true_2 by by apply elem_of_pairedKeys.
  - rewrite bool_decide_eq_false_2; [done|].
    rewrite elem_of_pairedKeys. congruence.
Qed.
End MatcherStructure.

(** ** The group maps after matching *)

Section Residue.
Context (o : MapOrder) (Hfair : fairOrder o) (fs : list SysTx) (fb : list BankTx).

Lemma groupOf_paired {T} (claimed : T → bool) (key : T → string)
    (paired : string → bool) k txs :
  groupOf (λ tx, claimed tx || paired (key tx)) key k txs
  = if paired k then [] else groupOf claimed key k txs.
Proof.
  unfold groupOf. induction txs as [|x txs IH]; [by destruct (paired k)|].
  rewrite !filter_cons, IH.
  destruct (decide (key x = k)) as [<-|Hne].
  - destruct (paired (key x)) eqn:Hp.
    + rewrite decide_False; [done|]. intros [H _]. by rewrite orb_true_r in H.
    + rewrite orb_false_r. destruct (claimed x) eqn:Hc.
      * rewrite !decide_False; [done|intros [? _]; congruence..].
      * by rewrite !decide_True.
  - rewrite !decide_False; [done|tauto..].
Qed.

Lemma systemMap_final_groups :
  systemMap (matcher notePair o fs fb [])
  = groupInto (λ tx, systemClaimed fs fb tx || pairedKey fs fb (systemKey tx))
      systemKey fs.
Proof.
  apply map_eq. intros k.
  rewrite (systemMap_final o Hfair), !groupInto_lookup. unfold systemGroups.
  rewrite groupInto_lookup, groupOf_paired. by destruct (pairedKey fs fb k).
Qed.

Lemma bankMap_final_groups :
  bankMap (matcher notePair o fs fb [])
  = groupInto (λ tx, bankClaimed fs fb tx || pairedKey fs fb (bankKey tx))
      bankKey fb.
Proof.
  apply map_eq. intros k.
  rewrite (bankMap_final o Hfair), !groupInto_lookup. unfold bankGroups.
  rewrite groupInto_lookup, groupOf_paired. by destruct (pairedKey fs fb k).
Qed.

Lemma system_residue_perm (o' : MapOrder) :
  fairOrder o' →
  concat (rangeMap o' (systemMap (matcher notePair o fs fb []))).*2
  ≡ₚ systemResidue fs fb.
Proof.
  intros Hfair'. rewrite systemMap_final_groups.
  unfold rangeMap. rewrite (Hfair' _ _). apply groupInto_concat.
Qed.

Lemma bank_residue_perm (o' : MapOrder) :
  fairOrder o' →
  concat (rangeMap o' (bankMap (matcher notePair o fs fb []))).*2
  ≡ₚ bankResidue fs fb.
Proof.
  intros Hfair'. rewrite bankMap_final_groups.
  unfold rangeMap. rewrite (Hfair' _ _). apply groupInto_concat.
Qed.
End Residue.

(** ** Step 4: collating the residue *)

Section Collate.
Lemma append_elems {A} (s : slice A) xs : elems (append s xs) = elems s ++ xs.
Proof. destruct s, xs; simpl; by rewrite ?app_nil_r. Qed.

Lemma collateSystem_elems o m s :
  elems (collateSystem o m s) = elems s ++ concat (rangeMap o m).*2.
Proof.
  unfold collateSystem. generalize (rangeMap o m) as L. intros L. revert s.
  induction L as [|kv L IH]; intros s; [simpl; by rewrite app_nil_r|].
  cbn [foldl]. by rewrite IH, append_elems, fmap_cons, concat_cons, <-app_assoc.
Qed.

(** The system-only list is nil for as long as nothing is appended. *)
Lemma append_nil_iff {A} (s : slice A) xs :
  append s xs = nilSlice ↔ s = nilSlice ∧ xs = [].
Proof. destruct s, xs; simpl; naive_solver. Qed.

Lemma collateSystem_nil o m s :
  collateSystem o m s = nilSlice
  ↔ s = nilSlice ∧ concat (rangeMap o m).*2 = [].
Proof.
  unfold collateSystem. generalize (rangeMap o m) as L. intros L. revert s.
  induction L as [|kv L IH]; intros s; [simpl; naive_solver|].
  cbn [foldl]. rewrite IH, append_nil_iff, fmap_cons, concat_cons.
  split.
  - intros [[-> ->] ->]. done.
  - intros [-> [-> ->]%app_eq_nil]. done.
Qed.

Lemma storeBank_made g l :
  foldl storeBank (Map g) l = Map (foldl fileUnder g l).
Proof. revert g. induction l as [|b l IH]; intros g; simpl; [done|]. by rewrite IH. Qed.

Lemma collateBank_made o m g :
  collateBank o m (Map g)
  = Map (foldl fileUnder g (concat (rangeMap o m).*2)).
Proof.
  unfold collateBank. generalize (rangeMap o m) as L. intros L. revert g.
  induction L as [|kv L IH]; intros g; [done|].
  cbn [foldl]. by rewrite storeBank_made, IH, fmap_cons, concat_cons, foldl_app.
Qed.

Lemma fileUnder_groupInto l :
  foldl fileUnder ∅ l = groupInto (λ _, false) BankTransaction.BankSource l.
Proof. reflexivity. Qed.

Lemma count_foldl (L : list (string * list BankTx)) c :
  foldl (λ count kv, count + Z.of_nat (length kv.2)) c L
  = c + Z.of_nat (length (concat L.*2)).
Proof.
  revert c. induction L as [|kv L IH]; intros c; [simpl; lia|].
  cbn [foldl]. rewrite IH, fmap_cons, concat_cons, length_app. lia.
Qed.

Lemma countBankMapItems_made o l :
  fairOrder o →
  countBankMapItems o (Map (foldl fileUnder ∅ l)) = Z.of_nat (length l).
Proof.
  intros Hfair. unfold countBankMapItems. rewrite count_foldl. simpl.
  rewrite fileUnder_groupInto. unfold rangeMap. rewrite (Hfair _ _).
  rewrite groupInto_concat. by rewrite filter_every.
Qed.
End Collate.

(** ** [processMatch] over a list of pairs *)

Section ProcessMatch.
Import ReconciliationReport.

Lemma append_append {A} (s : slice A) xs ys :
  append (append s xs) ys = append s (xs ++ ys).
Proof. destruct s, xs, ys; simpl; by rewrite <-?app_assoc, ?app_nil_r. Qed.

Lemma append_nil_r {A} (s : slice A) : append s [] = s.
Proof. destruct s; simpl; by rewrite ?app_nil_r. Qed.

Lemma replay_cons {R} (h : R → SysTx → BankTx → R) r0 p ps :
  replay h r0 (p :: ps) = replay h (h r0 p.1 p.2) ps.
Proof. reflexivity. Qed.

Lemma discrepantPairs_cons p ps :
  discrepantPairs (p :: ps)
  = if isDiscrepancy p.1 p.2 then p :: discrepantPairs ps else discrepantPairs ps.
Proof. unfold discrepantPairs. rewrite filter_cons. by destruct (isDiscrepancy _ _). Qed.

Lemma replay_unmatched r0 ps :
  UnmatchedTransactions (replay processMatch r0 ps) = UnmatchedTransactions r0.
Proof.
  revert r0. induction ps as [|p ps IH]; intros r0; [done|].
  by rewrite replay_cons, IH.
Qed.

Lemma replay_summary r0 ps :
  ReconciliationSummary (replay processMatch r0 ps)
  = let s := ReconciliationSummary r0 in
    {| Summary.TimeframeStart := Summary.TimeframeStart s;
       Summary.TimeframeEnd := Summary.TimeframeEnd s;
       Summary.TotalSystemTransactionsProcessed :=
         Summary.TotalSystemTransactionsProcessed s;
       Summary.TotalBankTransactionsProcessed :=
         Summary.TotalBankTransactionsProcessed s;
       Summary.MatchedTransactions :=
         Summary.MatchedTransactions s + Z.of_nat (length ps) |}.
Proof.
  revert r0. induction ps as [|p ps IH]; intros r0.
  - simpl. destruct (ReconciliationSummary r0). simpl. f_equal. lia.
  - rewrite replay_cons, IH. cbn [length]. simpl. f_equal. lia.
Qed.

Lemma replay_discrepant r0 ps :
  DiscrepantTransactions (replay processMatch r0 ps)
  = let d := DiscrepantTransactions r0 in
    let ds := discrepantPairs ps in
    {| DiscrepantTransactions.Count :=
         DiscrepantTransactions.Count d + Z.of_nat (length ds);
       DiscrepantTransactions.TotalDiscrepancyValue :=
         sumDiffs (DiscrepantTransactions.TotalDiscrepancyValue d) ds;
       DiscrepantTransactions.Details :=
         append (DiscrepantTransactions.Details d) (detailOf <$> ds) |}.
Proof.
  revert r0. induction ps as [|p ps IH]; intros r0.
  - simpl. destruct (DiscrepantTransactions r0). simpl.
    rewrite append_nil_r. f_equal. lia.
  - rewrite replay_cons, IH, discrepantPairs_cons. cbv zeta.
    unfold processMatch at 1 2 3. cbn [DiscrepantTransactions].
    destruct (isDiscrepancy p.1 p.2); [|done].
    cbn [DiscrepantTransactions.Count DiscrepantTransactions.TotalDiscrepancyValue
         DiscrepantTransactions.Details length fmap list_fmap].
    rewrite append_append. f_equal. lia.
Qed.
End ProcessMatch.

(** ** The fields of the report *)

Section Loaded.
Context (sch : Schedule) (ss : list SysTx) (bs : list BankTx) (start end_ : GoTime.Time).
Let fs := filterSystemTransactionsByDate ss start end_.
Let fb := filterBankTransactionsByDate bs start end_.
Let g := matcher notePair (orderMatch sch) fs fb [].
Let r := reconcileLoaded sch ss bs start end_.
Import ReconciliationReport.

Lemma loaded_summary :
  ReconciliationSummary r
  = ReconciliationSummary
      (replay processMatch (initialReport start end_ fs fb)
         (acceptedPairs (orderMatch sch) fs fb)).
Proof.
  unfold r, reconcileLoaded. cbv zeta. cbn [ReconciliationSummary].
  fold fs fb. by rewrite (acc_matcher_replay processMatch).
Qed.

Lemma loaded_discrepant :
  DiscrepantTransactions r
  = DiscrepantTransactions
      (replay processMatch (initialReport start end_ fs fb)
         (acceptedPairs (orderMatch sch) fs fb)).
Proof.
  unfold r, reconcileLoaded. cbv zeta. cbn [DiscrepantTransactions].
  fold fs fb. by rewrite (acc_matcher_replay processMatch).
Qed.

Lemma loaded_missing_system :
  UnmatchedTransactions.SystemMissingFromBank (UnmatchedTransactions r)
  = collateSystem (orderSystem sch) (systemMap g) nilSlice.
Proof.
  unfold r, reconcileLoaded. cbv zeta.
  cbn [UnmatchedTransactions UnmatchedTransactions.SystemMissingFromBank].
  fold fs fb. rewrite (acc_matcher_replay processMatch), replay_unmatched.
  by rewrite (systemMap_matcher_replay processMatch).
Qed.

Lemma loaded_missing_bank :
  UnmatchedTransactions.BankMissingFromSystem (UnmatchedTransactions r)
  = collateBank (orderBank sch) (bankMap g) (Map ∅).
Proof.
  unfold r, reconcileLoaded. cbv zeta.
  cbn [UnmatchedTransactions UnmatchedTransactions.BankMissingFromSystem].
  fold fs fb. rewrite (acc_matcher_replay processMatch), replay_unmatched.
  by rewrite (bankMap_matcher_replay processMatch).
Qed.

Lemma loaded_count :
  UnmatchedTransactions.Count (UnmatchedTransactions r)
  = len (UnmatchedTransactions.SystemMissingFromBank (UnmatchedTransactions r))
    + countBankMapItems (orderCount sch)
        (UnmatchedTransactions.BankMissingFromSystem (UnmatchedTransactions r)).
Proof. reflexivity. Qed.
End Loaded.

(** ** The two sides of the grouped pairs *)

Section PairedPart.
Lemma filter_or_disjoint {A} (P Q : A → Prop)
    `{∀ x, Decision (P x), ∀ x, Decision (Q x)} (l : list A) :
  (∀ x, P x → Q x → False) →
  filter (λ x, P x ∨ Q x) l ≡ₚ filter P l ++ filter Q l.
Proof.
  intros Hdis. induction l as [|x l IH]; [done|].
  rewrite !filter_cons.
  destruct (decide (P x)) as [HP|HP], (decide (Q x)) as [HQ|HQ].
  - destruct (Hdis x HP HQ).
  - rewrite decide_True by tauto. simpl. by rewrite IH.
  - rewrite decide_True by tauto. rewrite IH. apply Permutation_middle.
  - rewrite decide_False by tauto. done.
Qed.

Context {T : Type} (claimed : T → bool) (key : T → string).

Lemma groupInto_default txs k :
  default [] (groupInto claimed key txs !! k) = groupOf claimed key k txs.
Proof. by rewrite groupInto_lookup, default_optGroup. Qed.

Lemma groupInto_vals txs (K : list string) :
  NoDup K →
  concat ((λ k, default [] (groupInto claimed key txs !! k)) <$> K)
  ≡ₚ filter (λ tx, claimed tx = false ∧ key tx ∈ K) txs.
Proof.
  induction 1 as [|k K Hk Hnd IH].
  - simpl. symmetry. apply Permutation_nil_r.
    induction txs as [|x txs IHt]; [done|].
    rewrite filter_cons_False; [done|]. intros [_ ?%elem_of_nil]. done.
  - rewrite fmap_cons, concat_cons, IH, groupInto_default. unfold groupOf.
    rewrite <-filter_or_disjoint.
    + apply (reflexive_eq (R:=(≡ₚ))). apply list_filter_iff. intros x.
      rewrite elem_of_cons. naive_solver.
    + intros x [_ <-] [_ ?]. done.
Qed.
End PairedPart.

Section PairsProjections.
Context (S : gmap string (list SysTx)) (B : gmap string (list BankTx)).

Lemma pairs_fst (L : list (string * list SysTx)) :
  (∀ e, e ∈ L → S !! e.1 = Some e.2) →
  (L ≫= pairsOfEntry B).*1
  = concat ((λ k, default [] (S !! k)) <$> pairedKeys B L).
Proof.
  induction L as [|e L IH]; intros HL; [done|].
  rewrite bind_cons, fmap_app, pairedKeys_cons, IH by (intros; apply HL; by right).
  unfold pairsOfEntry, pairedEntry.
  destruct (B !! e.1) as [b|]; [|done].
  destruct (length e.2 =? length b)%nat eqn:Hlen; [|done].
  apply Nat.eqb_eq in Hlen.
  rewrite fmap_cons, concat_cons, HL by left. simpl.
  by rewrite fst_zip by lia.
Qed.

Lemma pairs_snd (L : list (string * list SysTx)) :
  (L ≫= pairsOfEntry B).*2
  = concat ((λ k, default [] (B !! k)) <$> pairedKeys B L).
Proof.
  induction L as [|e L IH]; [done|].
  rewrite bind_cons, fmap_app, pairedKeys_cons, IH.
  unfold pairsOfEntry, pairedEntry.
  destruct (B !! e.1) as [b|] eqn:Hb; [|done].
  destruct (length e.2 =? length b)%nat eqn:Hlen; [|done].
  apply Nat.eqb_eq in Hlen.
  rewrite fmap_cons, concat_cons, Hb. simpl.
  by rewrite snd_zip by lia.
Qed.

Lemma pairedKeys_NoDup (L : list (string * list SysTx)) :
  NoDup L.*1 → NoDup (pairedKeys B L).
Proof.
  intros Hnd. apply (sublist_NoDup _ L.*1); [done|].
  apply fmap_sublist, sublist_filter.
Qed.
End PairsProjections.

Section GroupedSides.
Context (o : MapOrder) (Hfair : fairOrder o) (fs : list SysTx) (fb : list BankTx).

Lemma grouped_system_side : (groupedPairs o fs fb).*1 ≡ₚ systemPaired fs fb.
Proof.
  rewrite (groupedPairs_eq o Hfair).
  rewrite (pairs_fst (systemGroups fs fb)).
  2:{ intros [k v] He. by apply (elem_of_rangeMap o Hfair). }
  unfold systemGroups at 1.
  rewrite groupInto_vals by apply pairedKeys_NoDup, (rangeMap_NoDup o Hfair).
  apply (reflexive_eq (R:=(≡ₚ))). apply list_filter_iff. intros tx.
  by rewrite (elem_of_pairedKeys o Hfair).
Qed.

Lemma grouped_bank_side : (groupedPairs o fs fb).*2 ≡ₚ bankPaired fs fb.
Proof.
  rewrite (groupedPairs_eq o Hfair), pairs_snd.
  unfold bankGroups at 1.
  rewrite groupInto_vals by apply pairedKeys_NoDup, (rangeMap_NoDup o Hfair).
  apply (reflexive_eq (R:=(≡ₚ))). apply list_filter_iff. intros tx.
  by rewrite (elem_of_pairedKeys o Hfair).
Qed.
End GroupedSides.

(** ** Counting the buckets *)

Section Buckets.
Lemma three_way_count {T} (c p : T → bool) (l : list T) :
  (length (filter (λ x, c x = true) l)
   + length (filter (λ x, c x = false ∧ p x = true) l)
   + length (filter (λ x, (c x || p x) = false) l) = length l)%nat.
Proof.
  induction l as [|x l IH]; [done|].
  rewrite !filter_cons.
  destruct (c x) eqn:Hc, (p x) eqn:Hp; simpl;
    repeat (case_decide; try naive_solver); simpl; lia.
Qed.

Context (fs : list SysTx) (fb : list BankTx).

Lemma pass1_system_count :
  (length (pass1Pairs fs fb) ≤ length (filter (λ tx, systemClaimed fs fb tx = true) fs))%nat.
Proof.
  destruct (afterPass1_inv fs fb) as [Hs _ Hnd _ Hfrom].
  unfold pass1Pairs.
  rewrite <-(length_fmap fst), <-(length_fmap SystemTransaction.TrxID).
  fold (sysIds (acc (afterPass1 fs fb))).
  etrans; [apply (claimed_count_le SystemTransaction.TrxID _ fs Hnd)|].
  - intros i (s & -> & ([s' b] & -> & Hp)%list_elem_of_fmap)%list_elem_of_fmap.
    exists s'. split; [|done]. by apply (Hfrom _ Hp).
  - apply Nat.eq_le_incl. f_equal. apply list_filter_iff. intros tx.
    unfold systemClaimed. rewrite bool_decide_eq_true, Hs.
    by rewrite elem_of_list_to_set.
Qed.

Lemma pass1_system_count_eq :
  NoDup (SystemTransaction.TrxID <$> fs) →
  length (pass1Pairs fs fb) = length (filter (λ tx, systemClaimed fs fb tx = true) fs).
Proof.
  intros Hids. destruct (afterPass1_inv fs fb) as [Hs _ Hnd _ Hfrom].
  unfold pass1Pairs.
  rewrite <-(length_fmap fst), <-(length_fmap SystemTransaction.TrxID).
  fold (sysIds (acc (afterPass1 fs fb))).
  rewrite (claimed_count_eq SystemTransaction.TrxID _ fs Hnd); [|  |done].
  - f_equal. apply list_filter_iff. intros tx.
    unfold systemClaimed. rewrite bool_decide_eq_true, Hs.
    by rewrite elem_of_list_to_set.
  - intros i (s & -> & ([s' b] & -> & Hp)%list_elem_of_fmap)%list_elem_of_fmap.
    exists s'. split; [|done]. by apply (Hfrom _ Hp).
Qed.

Lemma pass1_bank_count :
  (length (pass1Pairs fs fb) ≤ length (filter (λ tx, bankClaimed fs fb tx = true) fb))%nat.
Proof.
  destruct (afterPass1_inv fs fb) as [_ Hb _ Hnd Hfrom].
  unfold pass1Pairs.
  rewrite <-(length_fmap snd), <-(length_fmap BankTransaction.UniqueIdentifier).
  fold (bankIds (acc (afterPass1 fs fb))).
  etrans; [apply (claimed_count_le BankTransaction.UniqueIdentifier _ fb Hnd)|].
  - intros i (b & -> & ([s b'] & -> & Hp)%list_elem_of_fmap)%list_elem_of_fmap.
    exists b'. split; [|done]. by apply (Hfrom _ Hp).
  - apply Nat.eq_le_incl. f_equal. apply list_filter_iff. intros tx.
    unfold bankClaimed. rewrite bool_decide_eq_true, Hb.
    by rewrite elem_of_list_to_set.
Qed.

Lemma pass1_bank_count_eq :
  NoDup (BankTransaction.UniqueIdentifier <$> fb) →
  length (pass1Pairs fs fb) = length (filter (λ tx, bankClaimed fs fb tx = true) fb).
Proof.
  intros Hids. destruct (afterPass1_inv fs fb) as [_ Hb _ Hnd Hfrom].
  unfold pass1Pairs.
  rewrite <-(length_fmap snd), <-(length_fmap BankTransaction.UniqueIdentifier).
  fold (bankIds (acc (afterPass1 fs fb))).
  rewrite (claimed_count_eq BankTransaction.UniqueIdentifier _ fb Hnd); [|  |done].
  - f_equal. apply list_filter_iff. intros tx.
    unfold bankClaimed. rewrite bool_decide_eq_true, Hb.
    by rewrite elem_of_list_to_set.
  - intros i (b & -> & ([s b'] & -> & Hp)%list_elem_of_fmap)%list_elem_of_fmap.
    exists b'. split; [|done]. by apply (Hfrom _ Hp).
Qed.
End Buckets.

Section BucketCounts.
Context (sch : Schedule) (Hsch : fairSchedule sch)
        (ss : list SysTx) (bs : list BankTx) (start end_ : GoTime.Time).
Let fs := filterSystemTransactionsByDate ss start end_.
Let fb := filterBankTransactionsByDate bs start end_.
Let r := reconcileLoaded sch ss bs start end_.
Import ReconciliationReport.

Lemma loaded_matched :
  Summary.MatchedTransactions (ReconciliationSummary r)
  = Z.of_nat (length (acceptedPairs (orderMatch sch) fs fb)).
Proof. unfold r. rewrite loaded_summary, replay_summary. done. Qed.

Lemma accepted_length :
  length (acceptedPairs (orderMatch sch) fs fb)
  = (length (pass1Pairs fs fb) + length (systemPaired fs fb))%nat.
Proof.
  destruct Hsch as (Hm & _).
  rewrite (acceptedPairs_split _ Hm), length_app, <-(groupedPairs_eq _ Hm).
  by rewrite <-(grouped_system_side _ Hm), length_fmap.
Qed.

Lemma paired_sides_length :
  length (systemPaired fs fb) = length (bankPaired fs fb).
Proof.
  destruct Hsch as (Hm & _).
  by rewrite <-(grouped_system_side _ Hm), <-(grouped_bank_side _ Hm), !length_fmap.
Qed.

Lemma loaded_missing_system_perm :
  elems (UnmatchedTransactions.SystemMissingFromBank (UnmatchedTransactions r))
  ≡ₚ systemResidue fs fb.
Proof.
  destruct Hsch as (Hm & Hs & _).
  unfold r. rewrite loaded_missing_system, collateSystem_elems. simpl.
  by apply system_residue_perm.
Qed.

Lemma loaded_missing_bank_made :
  UnmatchedTransactions.BankMissingFromSystem (UnmatchedTransactions r)
  = Map (foldl fileUnder ∅
           (concat (rangeMap (orderBank sch)
              (bankMap (matcher notePair (orderMatch sch) fs fb []))).*2)).
Proof. unfold r. by rewrite loaded_missing_bank, collateBank_made. Qed.

Lemma loaded_bank_count o :
  fairOrder o →
  countBankMapItems o
    (UnmatchedTransactions.BankMissingFromSystem (UnmatchedTransactions r))
  = Z.of_nat (length (bankResidue fs fb)).
Proof.
  intros Ho. destruct Hsch as (Hm & _ & Hb & _).
  rewrite loaded_missing_bank_made, countBankMapItems_made by done.
  by rewrite bank_residue_perm.
Qed.
End BucketCounts.

Import ReconciliationReport.

Lemma fair_listedOrder : fairOrder listedOrder.
Proof. by intros V l. Qed.

Lemma fair_reversedOrder : fairOrder reversedOrder.
Proof. intros V l. apply reverse_Permutation. Qed.

Lemma fair_scheduleOf o : fairOrder o → fairSchedule (scheduleOf o).
Proof. by repeat split. Qed.

(** ** Every record in one bucket *)

Section Partition.
Context (fs : list SysTx) (fb : list BankTx).

Lemma NoDup_fmap_inj_on {A B} (f : A → B) (l : list A) x y :
  NoDup (f <$> l) → x ∈ l → y ∈ l → f x = f y → x = y.
Proof.
  induction l as [|a l IH]; [by intros _ ?%elem_of_nil|].
  rewrite fmap_cons, NoDup_cons.
  intros [Ha Hnd] [->|Hx]%elem_of_cons [->|Hy]%elem_of_cons Heq; [done| | |by apply IH].
  - destruct Ha. rewrite Heq. by apply list_elem_of_fmap_2.
  - destruct Ha. rewrite <-Heq. by apply list_elem_of_fmap_2.
Qed.

Lemma pass1_system_side :
  NoDup (SystemTransaction.TrxID <$> fs) →
  (pass1Pairs fs fb).*1 ≡ₚ filter (λ tx, systemClaimed fs fb tx = true) fs.
Proof.
  intros Hids. destruct (afterPass1_inv fs fb) as [Hs _ Hnd _ Hfrom].
  apply NoDup_Permutation.
  - by apply (NoDup_fmap_1 SystemTransaction.TrxID).
  - apply NoDup_filter. by apply (NoDup_fmap_1 SystemTransaction.TrxID).
  - intros x. rewrite list_elem_of_filter. unfold systemClaimed.
    rewrite bool_decide_eq_true, Hs, elem_of_list_to_set. split.
    + intros Hx. split; [by apply list_elem_of_fmap_2|].
      apply list_elem_of_fmap in Hx as ([s b] & -> & Hp). by apply (Hfrom _ Hp).
    + intros [(s & Heq & Hsin)%list_elem_of_fmap Hx].
      assert (s ∈ fs) as Hsfs.
      { apply list_elem_of_fmap in Hsin as ([s' b] & -> & Hp). by apply (Hfrom _ Hp). }
      by rewrite (NoDup_fmap_inj_on _ _ _ _ Hids Hx Hsfs Heq).
Qed.

Lemma pass1_bank_side :
  NoDup (BankTransaction.UniqueIdentifier <$> fb) →
  (pass1Pairs fs fb).*2 ≡ₚ filter (λ tx, bankClaimed fs fb tx = true) fb.
Proof.
  intros Hids. destruct (afterPass1_inv fs fb) as [_ Hb _ Hnd Hfrom].
  apply NoDup_Permutation.
  - by apply (NoDup_fmap_1 BankTransaction.UniqueIdentifier).
  - apply NoDup_filter. by apply (NoDup_fmap_1 BankTransaction.UniqueIdentifier).
  - intros x. rewrite list_elem_of_filter. unfold bankClaimed.
    rewrite bool_decide_eq_true, Hb, elem_of_list_to_set. split.
    + intros Hx. split; [by apply list_elem_of_fmap_2|].
      apply list_elem_of_fmap in Hx as ([s b] & -> & Hp). by apply (Hfrom _ Hp).
    + intros [(b & Heq & Hbin)%list_elem_of_fmap Hx].
      assert (b ∈ fb) as Hbfb.
      { apply list_elem_of_fmap in Hbin as ([s b'] & -> & Hp). by apply (Hfrom _ Hp). }
      by rewrite (NoDup_fmap_inj_on _ _ _ _ Hids Hx Hbfb Heq).
Qed.

Lemma three_way_perm {T} (c p : T → bool) (l : list T) :
  filter (λ x, c x = true) l
  ++ filter (λ x, c x = false ∧ p x = true) l
  ++ filter (λ x, (c x || p x) = false) l ≡ₚ l.
Proof.
  induction l as [|x l IH]; [done|].
  rewrite !filter_cons.
  destruct (c x) eqn:Hc, (p x) eqn:Hp; simpl;
    repeat (case_decide; try naive_solver); simpl.
  - by rewrite IH.
  - by rewrite IH.
  - rewrite <-Permutation_middle. by rewrite IH.
  - rewrite <-!Permutation_middle. by rewrite IH.
Qed.
End Partition.

Section BankBuckets.
Context (sch : Schedule) (Hsch : fairSchedule sch)
        (ss : list SysTx) (bs : list BankTx) (start end_ : GoTime.Time).
Let fs := filterSystemTransactionsByDate ss start end_.
Let fb := filterBankTransactionsByDate bs start end_.
Let r := reconcileLoaded sch ss bs start end_.

Lemma loaded_bank_buckets_perm :
  concat (map_to_list (entries
    (UnmatchedTransactions.BankMissingFromSystem (UnmatchedTransactions r)))).*2
  ≡ₚ bankResidue fs fb.
Proof.
  destruct Hsch as (Hm & _ & Hb & _).
  unfold r. rewrite loaded_missing_bank_made. simpl.
  rewrite fileUnder_groupInto, groupInto_concat, filter_every by done.
  by apply bank_residue_perm.
Qed.
End BankBuckets.

(** C1 (amended): for every input, under any orders of map iteration, the
    matched count plus the length of the system-only list is at most the
    number of filtered system transactions, and the matched count plus the
    number of records in the bank-only buckets is at most the number of
    filtered bank transactions.  When the filtered system transactions have
    pairwise distinct [TrxID]s the first is an equality and the system
    records of the matched pairs together with the system-only list are a
    rearrangement of the filtered system transactions; the same holds on the
    bank side when the [UniqueIdentifier]s are pairwise distinct. *)
Theorem every_record_in_one_bucket (sch : Schedule) (o : MapOrder)
    (ss : list SysTx) (bs : list BankTx) (start end_ : GoTime.Time) :
  fairSchedule sch → fairOrder o →
  let fs := filterSystemTransactionsByDate ss start end_ in
  let fb := filterBankTransactionsByDate bs start end_ in
  let r := reconcileLoaded sch ss bs start end_ in
  let matched := Summary.MatchedTransactions (ReconciliationSummary r) in
  let systemOnly := UnmatchedTransactions.SystemMissingFromBank (UnmatchedTransactions r) in
  let bankOnly := UnmatchedTransactions.BankMissingFromSystem (UnmatchedTransactions r) in
  let pairs := acceptedPairs (orderMatch sch) fs fb in
  matched + len systemOnly ≤ Z.of_nat (length fs) ∧
  matched + countBankMapItems o bankOnly ≤ Z.of_nat (length fb) ∧
  (NoDup (SystemTransaction.TrxID <$> fs) →
     matched + len systemOnly = Z.of_nat (length fs) ∧
     pairs.*1 ++ elems systemOnly ≡ₚ fs) ∧
  (NoDup (BankTransaction.UniqueIdentifier <$> fb) →
     matched + countBankMapItems o bankOnly = Z.of_nat (length fb) ∧
     pairs.*2 ++ concat (map_to_list (entries bankOnly)).*2 ≡ₚ fb).
Proof.
  intros Hsch Ho. cbv zeta.
  set (fs := filterSystemTransactionsByDate ss start end_).
  set (fb := filterBankTransactionsByDate bs start end_).
  pose proof (loaded_matched sch ss bs start end_) as Hmatched.
  pose proof (accepted_length sch Hsch ss bs start end_) as Hlen.
  pose proof (paired_sides_length sch Hsch ss bs start end_) as Hsides.
  pose proof (loaded_missing_system_perm sch Hsch ss bs start end_) as Hsys.
  pose proof (loaded_bank_count sch Hsch ss bs start end_ o Ho) as Hbank.
  pose proof (loaded_bank_buckets_perm sch Hsch ss bs start end_) as Hbuckets.
  fold fs fb in Hmatched, Hlen, Hsides, Hsys, Hbank, Hbuckets.
  pose proof (three_way_count (systemClaimed fs fb) (λ tx, pairedKey fs fb (systemKey tx)) fs)
    as Hs3.
  pose proof (three_way_count (bankClaimed fs fb) (λ tx, pairedKey fs fb (bankKey tx)) fb)
    as Hb3.
  cbv beta in Hs3, Hb3.
  fold (systemPaired fs fb) (systemResidue fs fb) in Hs3.
  fold (bankPaired fs fb) (bankResidue fs fb) in Hb3.
  rewrite Hmatched, Hlen, Hbank. unfold len. rewrite Hsys.
  split; [|split; [|split]].
  - pose proof (pass1_system_count fs fb). lia.
  - pose proof (pass1_bank_count fs fb). lia.
  - intros Hids. split.
    + pose proof (pass1_system_count_eq fs fb Hids). lia.
    + destruct Hsch as (Hm & _).
      rewrite (acceptedPairs_split _ Hm), <-(groupedPairs_eq _ Hm), fmap_app.
      rewrite (grouped_system_side _ Hm), (pass1_system_side _ _ Hids).
      rewrite <-app_assoc.
      apply (three_way_perm _ (λ tx, pairedKey fs fb (_ tx))).
  - intros Hids. split.
    + pose proof (pass1_bank_count_eq fs fb Hids). lia.
    + destruct Hsch as (Hm & _).
      rewrite (acceptedPairs_split _ Hm), <-(groupedPairs_eq _ Hm), fmap_app.
      rewrite (grouped_bank_side _ Hm), Hbuckets, (pass1_bank_side _ _ Hids).
      rewrite <-app_assoc.
      apply (three_way_perm _ (λ tx, pairedKey fs fb (_ tx))).
Qed.

(** C1, witness: the "unmatched transactions" case of the package's tests,
    with the maps ranged over backwards. *)
Lemma every_record_in_one_bucket_witness :
  fairSchedule (scheduleOf reversedOrder) ∧ fairOrder listedOrder ∧
  let fs := filterSystemTransactionsByDate residueSystem windowStart windowEnd in
  let fb := filterBankTransactionsByDate residueBank windowStart windowEnd in
  let r := reconcileLoaded (scheduleOf reversedOrder) residueSystem residueBank
             windowStart windowEnd in
  let matched := Summary.MatchedTransactions (ReconciliationSummary r) in
  let systemOnly := UnmatchedTransactions.SystemMissingFromBank (UnmatchedTransactions r) in
  let bankOnly := UnmatchedTransactions.BankMissingFromSystem (UnmatchedTransactions r) in
  NoDup (SystemTransaction.TrxID <$> fs) ∧
  NoDup (BankTransaction.UniqueIdentifier <$> fb) ∧
  matched + len systemOnly = Z.of_nat (length fs) ∧
  matched + countBankMapItems listedOrder bankOnly = Z.of_nat (length fb).
Proof.
  pose proof (fair_scheduleOf reversedOrder fair_reversedOrder) as Hs.
  pose proof fair_listedOrder as Ho.
  split; [exact Hs|]. split; [exact Ho|].
  destruct (every_record_in_one_bucket (scheduleOf reversedOrder) listedOrder
              residueSystem residueBank windowStart windowEnd Hs Ho)
    as (_ & _ & Hsys & Hbank).
  assert (NoDup (SystemTransaction.TrxID <$>
            filterSystemTransactionsByDate residueSystem windowStart windowEnd)) as Hn1.
  { apply (bool_decide_unpack _). vm_compute. exact I. }
  assert (NoDup (BankTransaction.UniqueIdentifier <$>
            filterBankTransactionsByDate residueBank windowStart windowEnd)) as Hn2.
  { apply (bool_decide_unpack _). vm_compute. exact I. }
  cbv zeta. split; [exact Hn1|]. split; [exact Hn2|].
  split; [exact (proj1 (Hsys Hn1))|exact (proj1 (Hbank Hn2))].
Defined.

(** C1, counterexample: two bank records from different files share the
    identifier "1"; one is matched, the other lands in no bucket, so that
    matched + bank-only is 1 for 2 filtered bank transactions. *)
Lemma duplicate_identifier_breaks_bucket_equality :
  let fb := filterBankTransactionsByDate dupBank windowStart windowEnd in
  let r := reconcileLoaded (scheduleOf listedOrder) dupSystem dupBank windowStart windowEnd in
  let matched := Summary.MatchedTransactions (ReconciliationSummary r) in
  let bankOnly := UnmatchedTransactions.BankMissingFromSystem (UnmatchedTransactions r) in
  fairSchedule (scheduleOf listedOrder) ∧
  matched + countBankMapItems listedOrder bankOnly ≠ Z.of_nat (length fb).
Proof.
  split; [apply fair_scheduleOf, fair_listedOrder|].
  vm_compute. discriminate.
Qed.

(** ** Grouped pairs share their key *)

Section GroupedMembers.
Context (o : MapOrder) (Hfair : fairOrder o) (fs : list SysTx) (fb : list BankTx).

Lemma elem_of_groupOf {T} (claimed : T → bool) (key : T → string) k txs x :
  x ∈ groupOf claimed key k txs ↔ claimed x = false ∧ key x = k ∧ x ∈ txs.
Proof. unfold groupOf. rewrite list_elem_of_filter. tauto. Qed.

Lemma systemGroups_lookup k :
  systemGroups fs fb !! k = optGroup (systemGroup fs fb k).
Proof. apply groupInto_lookup. Qed.

Lemma bankGroups_lookup k :
  bankGroups fs fb !! k = optGroup (bankGroup fs fb k).
Proof. apply groupInto_lookup. Qed.

Lemma optGroup_Some {T} (l l' : list T) : optGroup l = Some l' → l' = l ∧ l ≠ [].
Proof. destruct l; [done|]. by intros [= <-]. Qed.

(** A pair of the matching loop comes from the two groups of one key. *)
Lemma pairsOfEntry_members k v s b :
  systemGroups fs fb !! k = Some v →
  (s, b) ∈ pairsOfEntry (bankGroups fs fb) (k, v) →
  s ∈ systemGroup fs fb k ∧ b ∈ bankGroup fs fb k.
Proof.
  rewrite systemGroups_lookup. intros [-> _]%optGroup_Some.
  unfold pairsOfEntry. simpl. rewrite bankGroups_lookup.
  destruct (optGroup (bankGroup fs fb k)) as [bl|] eqn:Hb; [|by intros ?%elem_of_nil].
  apply optGroup_Some in Hb as [-> _].
  case_match; [|by intros ?%elem_of_nil].
  intros Hin. split.
  - by apply elem_of_zip_l in Hin.
  - by apply elem_of_zip_r in Hin.
Qed.

Lemma groupedPairs_members s b :
  (s, b) ∈ groupedPairs o fs fb →
  ∃ k, s ∈ systemGroup fs fb k ∧ b ∈ bankGroup fs fb k ∧ pairedKey fs fb k = true.
Proof.
  rewrite (groupedPairs_eq o Hfair), list_elem_of_bind.
  intros ([k v] & Hin & He). apply (elem_of_rangeMap o Hfair) in He.
  exists k. destruct (pairsOfEntry_members k v s b He Hin) as [Hs Hb].
  split; [done|]. split; [done|].
  unfold pairedKey. rewrite He. unfold pairsOfEntry in Hin. simpl in Hin.
  destruct (bankGroups fs fb !! k); [|by apply elem_of_nil in Hin].
  case_match; [done|by apply elem_of_nil in Hin].
Qed.
End GroupedMembers.




(** ** Grouped matching, key by key *)

Section GroupedByKey.
Context {P : Type} (key : P → string).

Lemma filter_bind_absent {V} (f : string * V → list P) (L : list (string * V)) k :
  (∀ e p, e ∈ L → p ∈ f e → key p = e.1) →
  k ∉ L.*1 → filter (λ p, key p = k) (L ≫= f) = [].
Proof.
  intros Hkey Hk. apply filter_none. intros p Hp Heq.
  apply list_elem_of_bind in Hp as (e & Hp & He).
  apply Hk. rewrite <-Heq, (Hkey e p He Hp). by apply list_elem_of_fmap_2.
Qed.

Lemma filter_bind_at {V} (f : string * V → list P) (L : list (string * V)) k v :
  (∀ e p, e ∈ L → p ∈ f e → key p = e.1) →
  NoDup L.*1 → (k, v) ∈ L →
  filter (λ p, key p = k) (L ≫= f) = f (k, v).
Proof.
  intros Hkey. induction L as [|e L IH]; intros Hnd Hin; [by apply elem_of_nil in Hin|].
  rewrite fmap_cons in Hnd. apply NoDup_cons in Hnd as [Hfresh Hnd].
  rewrite bind_cons, filter_app.
  assert (∀ e' p, e' ∈ L → p ∈ f e' → key p = e'.1) as Hkey'.
  { intros e' p He'. apply Hkey. by right. }
  apply elem_of_cons in Hin as [<-|Hin].
  - rewrite filter_bind_absent by done.
    rewrite filter_every, app_nil_r; [done|].
    intros p Hp. apply (Hkey (k, v) p); [left|done].
  - rewrite IH by done.
    rewrite filter_none; [done|].
    intros p Hp Heq. apply Hfresh.
    rewrite <-(Hkey e p) by (done || left). rewrite Heq.
    by apply (list_elem_of_fmap_2 fst) in Hin.
Qed.
End GroupedByKey.

Section GroupedFilter.
Context (o : MapOrder) (Hfair : fairOrder o) (fs : list SysTx) (fb : list BankTx).

Lemma pairsOfEntry_keys e p :
  e ∈ rangeMap o (systemGroups fs fb) →
  p ∈ pairsOfEntry (bankGroups fs fb) e →
  systemKey p.1 = e.1 ∧ bankKey p.2 = e.1.
Proof.
  destruct e as [k v], p as [s b]. intros He%(elem_of_rangeMap o Hfair) Hp.
  destruct (pairsOfEntry_members fs fb k v s b He Hp) as
    [(_ & ? & _)%elem_of_groupOf (_ & ? & _)%elem_of_groupOf].
  done.
Qed.

Lemma pairsOfEntry_groups k :
  pairsOfEntry (bankGroups fs fb) (k, systemGroup fs fb k)
  = if pairedKey fs fb k then zip (systemGroup fs fb k) (bankGroup fs fb k) else [].
Proof.
  unfold pairsOfEntry, pairedKey. simpl.
  rewrite systemGroups_lookup, bankGroups_lookup.
  destruct (systemGroup fs fb k) as [|s gs] eqn:Hs;
    destruct (bankGroup fs fb k) as [|b gb] eqn:Hb; simpl; done.
Qed.

Lemma grouped_filter_key (key : SysTx * BankTx → string) k :
  (∀ e p, e ∈ rangeMap o (systemGroups fs fb) →
          p ∈ pairsOfEntry (bankGroups fs fb) e → key p = e.1) →
  filter (λ p, key p = k) (groupedPairs o fs fb)
  = if pairedKey fs fb k then zip (systemGroup fs fb k) (bankGroup fs fb k) else [].
Proof.
  intros Hkey. rewrite (groupedPairs_eq o Hfair).
  destruct (systemGroups fs fb !! k) as [v|] eqn:Hs.
  - rewrite (filter_bind_at key _ _ k v Hkey (rangeMap_NoDup o Hfair _))
      by by apply (elem_of_rangeMap o Hfair).
    rewrite systemGroups_lookup in Hs. apply optGroup_Some in Hs as [-> _].
    apply pairsOfEntry_groups.
  - rewrite (filter_bind_absent key _ _ k Hkey).
    + unfold pairedKey. by rewrite Hs.
    + intros ([k' v] & -> & He%(elem_of_rangeMap o Hfair))%list_elem_of_fmap.
      simpl in Hs. congruence.
Qed.

Lemma pairedKey_sizes k :
  pairedKey fs fb k = true
  ↔ systemGroup fs fb k ≠ []
    ∧ length (systemGroup fs fb k) = length (bankGroup fs fb k).
Proof.
  unfold pairedKey. rewrite systemGroups_lookup, bankGroups_lookup.
  destruct (systemGroup fs fb k) as [|s gs]; simpl; [naive_solver|].
  destruct (bankGroup fs fb k) as [|b gb]; simpl; [naive_solver|].
  rewrite Nat.eqb_eq. naive_solver.
Qed.
End GroupedFilter.




(** ** The first-match policy of Pass 1 *)

Section FirstMatch.
Context (fs : list SysTx).
Implicit Types (st : Claims (list (SysTx * BankTx))).

Lemma firstMatch_acc st b :
  ∃ l, acc (firstMatch notePair fs st b) = acc st ++ l.
Proof.
  unfold firstMatch. case_match; simpl.
  - by eexists.
  - exists []. by rewrite app_nil_r.
Qed.

Lemma pass1_acc fb st :
  ∃ l, acc (pass1 notePair fs fb st) = acc st ++ l.
Proof.
  rewrite pass1_firstMatch. revert st.
  induction fb as [|b fb IH]; intros st; simpl.
  - exists []. by rewrite app_nil_r.
  - destruct (IH (firstMatch notePair fs st b)) as [l ->].
    destruct (firstMatch_acc st b) as [l' ->].
    exists (l' ++ l). by rewrite app_assoc.
Qed.

Lemma pass1_app {R} (h : R → SysTx → BankTx → R) fb1 fb2 (st : Claims R) :
  pass1 h fs (fb1 ++ fb2) st = pass1 h fs fb2 (pass1 h fs fb1 st).
Proof. unfold pass1. apply foldl_app. Qed.

Lemma find_qualifies {R} (st : Claims R) b s :
  s ∈ fs → qualifies st b s = true → is_Some (List.find (qualifies st b) fs).
Proof.
  intros Hin Hq. destruct (find (qualifies st b) fs) eqn:Hfind; [done|].
  apply list_elem_of_In in Hin.
  pose proof (find_none _ _ Hfind s Hin). congruence.
Qed.

Lemma firstMatch_claims_referrer {R} (h : R → SysTx → BankTx → R)
    (st : Claims R) b s :
  s ∈ fs → references b s = true →
  SystemTransaction.TrxID s ∉ matchedSystem (firstMatch h fs st b) →
  BankTransaction.UniqueIdentifier b ∈ matchedBank (firstMatch h fs st b).
Proof.
  intros Hin Href Hs.
  destruct (firstMatch_mono h fs st b) as [Hms Hmb].
  destruct (decide (BankTransaction.UniqueIdentifier b ∈ matchedBank st)) as [Hb|Hb].
  { by apply Hmb. }
  assert (qualifies st b s = true) as Hq.
  { unfold qualifies. rewrite Href.
    rewrite !bool_decide_eq_false_2; [done|done|]. intros ?. apply Hs. by apply Hms. }
  destruct (find_qualifies st b s Hin Hq) as [s' Hfind].
  unfold firstMatch. rewrite Hfind. simpl. set_solver.
Qed.

Lemma earlier_referrers_claimed {R} (h : R → SysTx → BankTx → R)
    fb (st : Claims R) s b' :
  s ∈ fs → b' ∈ fb → references b' s = true →
  SystemTransaction.TrxID s ∉ matchedSystem (pass1 h fs fb st) →
  BankTransaction.UniqueIdentifier b' ∈ matchedBank (pass1 h fs fb st).
Proof.
  intros Hin. induction fb as [|x fb IH] using rev_ind; [by intros ?%elem_of_nil|].
  rewrite pass1_snoc. intros Hb' Href Hs.
  destruct (firstMatch_mono h fs (pass1 h fs fb st) x) as [Hms Hmb].
  apply elem_of_app in Hb' as [Hb'| ->%list_elem_of_singleton].
  - apply Hmb, IH; [done|done|]. intros ?. apply Hs. by apply Hms.
  - by apply (firstMatch_claims_referrer h _ _ s).
Qed.
End FirstMatch.

(** C5 (amended): Pass 1 visits the bank records in order and, for each,
    the system records in order; it accepts a pair exactly when neither
    identifier is claimed yet and the description contains "trxID:"
    followed by the system identifier, and claims both identifiers at once.
    So each bank record whose identifier is unclaimed takes the first
    qualifying system record, no identifier is paired twice, and when a
    system record is paired with a bank record, every earlier bank record
    that references it had its identifier claimed before. *)
Theorem pass1_first_match_policy (fs : list SysTx) (fb : list BankTx) :
  (∀ (R : Type) (onMatch : R → SysTx → BankTx → R) bankTx st sysTx,
     pass1Body onMatch bankTx st sysTx
     = if qualifies st bankTx sysTx then accept onMatch st sysTx bankTx else st) ∧
  (∀ (R : Type) (onMatch : R → SysTx → BankTx → R) st,
     pass1 onMatch fs fb st = foldl (firstMatch onMatch fs) st fb) ∧
  NoDup (sysIds (pass1Pairs fs fb)) ∧
  NoDup (bankIds (pass1Pairs fs fb)) ∧
  (∀ fb1 bankTx fb2 sysTx,
     fb = fb1 ++ bankTx :: fb2 →
     let before := afterPass1 fs fb1 in
     List.find (qualifies before bankTx) fs = Some sysTx →
     afterPass1 fs (fb1 ++ [bankTx]) = accept notePair before sysTx bankTx ∧
     (sysTx, bankTx) ∈ pass1Pairs fs fb ∧
     ∀ earlier, earlier ∈ fb1 → references earlier sysTx = true →
                BankTransaction.UniqueIdentifier earlier ∈ matchedBank before).
Proof.
  split; [intros; apply pass1Body_qualifies|].
  split; [intros; apply pass1_firstMatch|].
  destruct (afterPass1_inv fs fb) as [_ _ Hns Hnb _].
  split; [done|]. split; [done|].
  intros fb1 b fb2 s -> before Hfind.
  assert (afterPass1 fs (fb1 ++ [b]) = accept notePair before s b) as Hstep.
  { unfold afterPass1. rewrite pass1_snoc. unfold firstMatch.
    fold (afterPass1 fs fb1). fold before. by rewrite Hfind. }
  split; [done|]. split.
  - unfold pass1Pairs, afterPass1.
    rewrite (assoc_L _ fb1 [b] fb2 : fb1 ++ b :: fb2 = (fb1 ++ [b]) ++ fb2).
    rewrite pass1_app. fold (afterPass1 fs (fb1 ++ [b])). rewrite Hstep.
    destruct (pass1_acc fs fb2 (accept notePair before s b)) as [l ->].
    simpl. unfold notePair. rewrite !elem_of_app, list_elem_of_singleton. tauto.
  - intros b' Hb' Href.
    apply find_some in Hfind as [Hin Hq]. apply list_elem_of_In in Hin.
    apply qualifies_inv in Hq as (Hs & _ & _).
    by apply (earlier_referrers_claimed fs notePair fb1 _ s b').
Qed.

(** C5, witness: "TRX1" is taken by the second bank record; the first one,
    which references it too, was claimed by then. *)
Lemma pass1_first_match_policy_witness :
  let trx1 := mkSys "TRX1" 80 DEBIT (day 3) in
  let before := afterPass1 prefixSystem [prefixBankFirst] in
  List.find (qualifies before prefixBankSecond) prefixSystem = Some trx1 ∧
  references prefixBankFirst trx1 = true ∧
  (trx1, prefixBankSecond) ∈ pass1Pairs prefixSystem prefixBank ∧
  BankTransaction.UniqueIdentifier prefixBankFirst ∈ matchedBank before.
Proof.
  destruct (pass1_first_match_policy prefixSystem prefixBank) as (_ & _ & _ & _ & H).
  assert (List.find (qualifies (afterPass1 prefixSystem [prefixBankFirst]) prefixBankSecond)
            prefixSystem = Some (mkSys "TRX1" 80 DEBIT (day 3))) as Hfind.
  { vm_compute. reflexivity. }
  assert (references prefixBankFirst (mkSys "TRX1" 80 DEBIT (day 3)) = true) as Href.
  { vm_compute. reflexivity. }
  destruct (H [prefixBankFirst] prefixBankSecond [] _ eq_refl Hfind) as (_ & Hin & Hearlier).
  cbv zeta. split; [exact Hfind|]. split; [exact Href|]. split; [exact Hin|].
  apply (Hearlier prefixBankFirst); [left|exact Href].
Defined.

(** C5, counterexample: both bank records contain "trxID:TRX1", the first
    one inside "trxID:TRX10"; the first bank record that references "TRX1"
    is the first of the list, and "TRX1" is paired with the second. *)
Lemma later_bank_record_takes_referenced_system_record :
  let trx1 := mkSys "TRX1" 80 DEBIT (day 3) in
  references prefixBankFirst trx1 = true ∧
  references prefixBankSecond trx1 = true ∧
  head (filter (λ bankTx, references bankTx trx1) prefixBank) = Some prefixBankFirst ∧
  pass1Pairs prefixSystem prefixBank
  = [(mkSys "TRX10" 250 DEBIT (day 2), prefixBankFirst); (trx1, prefixBankSecond)].
Proof. vm_compute. done. Qed.



(** ** Nil and empty containers *)

Section Shape.
Context (sch : Schedule) (ss : list SysTx) (bs : list BankTx) (start end_ : GoTime.Time).
Let fs := filterSystemTransactionsByDate ss start end_.
Let fb := filterBankTransactionsByDate bs start end_.
Let r := reconcileLoaded sch ss bs start end_.

Lemma loaded_details_made :
  DiscrepantTransactions.Details (DiscrepantTransactions r)
  = Slice (detailOf <$> discrepantPairs (acceptedPairs (orderMatch sch) fs fb)).
Proof. unfold r. by rewrite loaded_discrepant, replay_discrepant. Qed.

Lemma loaded_missing_system_nil :
  fairSchedule sch →
  UnmatchedTransactions.SystemMissingFromBank (UnmatchedTransactions r) = nilSlice
  ↔ systemResidue fs fb = [].
Proof.
  intros (Hm & Hs & _). unfold r.
  rewrite loaded_missing_system, collateSystem_nil.
  pose proof (system_residue_perm _ Hm fs fb _ Hs) as Hperm. fold fs fb.
  split.
  - intros [_ Hnil]. rewrite Hnil in Hperm. by apply Permutation_nil_l in Hperm.
  - intros Hnil. split; [done|]. rewrite Hnil in Hperm.
    by apply Permutation_nil_r in Hperm.
Qed.
End Shape.

Lemma fair_empty (o : MapOrder) {V} : fairOrder o → rangeMap o (∅ : gmap string V) = [].
Proof.
  intros Hfair. unfold rangeMap. rewrite map_to_list_empty.
  apply Permutation_nil_r. apply Hfair.
Qed.

Lemma matcher_empty {R} (h : R → SysTx → BankTx → R) o r0 :
  fairOrder o →
  matcher h o [] [] r0
  = {| claims := {| acc := r0; matchedSystem := ∅; matchedBank := ∅ |};
       systemMap := ∅; bankMap := ∅ |}.
Proof.
  intros Hfair. unfold matcher, pass1, groupInto. cbn [foldl].
  by rewrite (fair_empty o Hfair).
Qed.

Lemma loaded_empty sch ss bs start end_ :
  fairSchedule sch →
  filterSystemTransactionsByDate ss start end_ = [] →
  filterBankTransactionsByDate bs start end_ = [] →
  reconcileLoaded sch ss bs start end_ = zeroReport start end_.
Proof.
  intros (Hm & Hs & Hb & Hc) Hfs Hfb.
  unfold reconcileLoaded. rewrite Hfs, Hfb. cbv zeta.
  rewrite (matcher_empty _ _ _ Hm).
  cbn [claims acc systemMap bankMap ReconciliationReport.UnmatchedTransactions
       UnmatchedTransactions.SystemMissingFromBank
       UnmatchedTransactions.BankMissingFromSystem
       ReconciliationReport.ReconciliationSummary
       ReconciliationReport.DiscrepantTransactions].
  unfold collateSystem, collateBank, countBankMapItems.
  rewrite (fair_empty _ Hs), (fair_empty _ Hb). cbn [foldl entries].
  by rewrite (fair_empty _ Hc).
Qed.

(** C7: if the system ingestion fails, [Reconcile] returns its error,
    wrapped, and no report; if the bank ingestion fails, likewise; if both
    succeed it returns a report, whose details list and bank-only map are
    never nil, and which is the all-zero report, with an empty details list
    and an empty bank-only map, when both filtered sets are empty. *)
Theorem reconcile_errors_and_shape (uc : ReconciliationUseCase) (sch : Schedule)
    (systemPath : string) (bankPaths : list string) (start end_ : GoTime.Time) :
  (∀ err, @GetSystemTransactions (repo uc) systemPath = inr err →
     Reconcile uc sch systemPath bankPaths start end_
     = inr (Errorf_w "could not get system transactions" err)) ∧
  (∀ systemTransactions err,
     @GetSystemTransactions (repo uc) systemPath = inl systemTransactions →
     @GetBankTransactions (repo uc) bankPaths = inr err →
     Reconcile uc sch systemPath bankPaths start end_
     = inr (Errorf_w "could not get bank transactions" err)) ∧
  (∀ systemTransactions bankTransactions,
     @GetSystemTransactions (repo uc) systemPath = inl systemTransactions →
     @GetBankTransactions (repo uc) bankPaths = inl bankTransactions →
     ∃ r, Reconcile uc sch systemPath bankPaths start end_ = inl r ∧
          r = reconcileLoaded sch systemTransactions bankTransactions start end_ ∧
          (∃ l, DiscrepantTransactions.Details (DiscrepantTransactions r) = Slice l) ∧
          (∃ g, UnmatchedTransactions.BankMissingFromSystem (UnmatchedTransactions r)
                = Map g) ∧
          (fairSchedule sch →
           filterSystemTransactionsByDate systemTransactions start end_ = [] →
           filterBankTransactionsByDate bankTransactions start end_ = [] →
           r = zeroReport start end_)).
Proof.
  unfold Reconcile. split; [by intros err ->|]. split; [by intros s err -> ->|].
  intros s b -> ->. eexists. split; [done|]. split; [done|].
  split; [by rewrite loaded_details_made; eexists|].
  split; [by rewrite loaded_missing_bank_made; eexists|].
  apply loaded_empty.
Qed.

(** C7, witness: the two error cases and the "empty transactions" case of
    the package's tests. *)
Lemma reconcile_errors_and_shape_witness :
  let paths := ["statement_bank_A.csv"; "statement_bank_B.csv"]%string in
  Reconcile (repoOf (inr systemReadError) (inl [])) (scheduleOf listedOrder)
    "system_transactions.csv" paths windowStart windowEnd
  = inr (errorWrap
           "could not get system transactions: failed to read system transactions"
           systemReadError) ∧
  Reconcile (repoOf (inl []) (inr bankReadError)) (scheduleOf listedOrder)
    "system_transactions.csv" paths windowStart windowEnd
  = inr (errorWrap
           "could not get bank transactions: failed to read bank transactions"
           bankReadError) ∧
  Reconcile (repoOf (inl []) (inl [])) (scheduleOf reversedOrder)
    "system_transactions.csv" paths windowStart windowEnd
  = inl (zeroReport windowStart windowEnd).
Proof.
  cbv zeta. split; [|split].
  - exact (proj1 (reconcile_errors_and_shape (repoOf (inr systemReadError) (inl []))
                    (scheduleOf listedOrder) "system_transactions.csv"
                    ["statement_bank_A.csv"; "statement_bank_B.csv"]%string
                    windowStart windowEnd) systemReadError eq_refl).
  - exact (proj1 (proj2 (reconcile_errors_and_shape (repoOf (inl []) (inr bankReadError))
                    (scheduleOf listedOrder) "system_transactions.csv"
                    ["statement_bank_A.csv"; "statement_bank_B.csv"]%string
                    windowStart windowEnd)) [] bankReadError eq_refl eq_refl).
  - destruct (proj2 (proj2 (reconcile_errors_and_shape (repoOf (inl []) (inl []))
                    (scheduleOf reversedOrder) "system_transactions.csv"
                    ["statement_bank_A.csv"; "statement_bank_B.csv"]%string
                    windowStart windowEnd)) [] [] eq_refl eq_refl)
      as (r & Hr & _ & _ & _ & Hzero).
    rewrite Hr. f_equal.
    exact (Hzero (fair_scheduleOf reversedOrder fair_reversedOrder) eq_refl eq_refl).
Defined.

(** C9: the details list and the bank-only map of a report are never
    encoded as JSON null, whereas the system-only list is nil, and encoded
    as null, whenever it has no element; it is so when every filtered
    system transaction is in a matched pair. *)
Theorem system_only_list_is_nil_when_empty (sch : Schedule)
    (ss : list SysTx) (bs : list BankTx) (start end_ : GoTime.Time) :
  fairSchedule sch →
  let fs := filterSystemTransactionsByDate ss start end_ in
  let fb := filterBankTransactionsByDate bs start end_ in
  let r := reconcileLoaded sch ss bs start end_ in
  let systemOnly := UnmatchedTransactions.SystemMissingFromBank (UnmatchedTransactions r) in
  let bankOnly := UnmatchedTransactions.BankMissingFromSystem (UnmatchedTransactions r) in
  let details := DiscrepantTransactions.Details (DiscrepantTransactions r) in
  jsonOfSlice details ≠ JsonNull ∧
  jsonOfMap bankOnly ≠ JsonNull ∧
  (elems systemOnly = [] ↔ systemOnly = nilSlice) ∧
  ((∀ sysTx, sysTx ∈ fs → sysTx ∈ (acceptedPairs (orderMatch sch) fs fb).*1) →
   systemOnly = nilSlice ∧ jsonOfSlice systemOnly = JsonNull).
Proof.
  intros Hsch. cbv zeta.
  set (fs := filterSystemTransactionsByDate ss start end_).
  set (fb := filterBankTransactionsByDate bs start end_).
  rewrite loaded_details_made, loaded_missing_bank_made.
  split; [done|]. split; [done|].
  pose proof (loaded_missing_system_nil sch ss bs start end_ Hsch) as Hnil.
  pose proof (loaded_missing_system_perm sch Hsch ss bs start end_) as Hperm.
  fold fs fb in Hnil, Hperm.
  split.
  - rewrite Hnil. split.
    + intros He. rewrite He in Hperm. by apply Permutation_nil_l in Hperm.
    + intros He. rewrite He in Hperm. by apply Permutation_nil_r in Hperm.
  - intros Hall.
    assert (systemResidue fs fb = []) as Hres.
    { apply filter_none. intros s Hs Hfalse.
      apply orb_false_iff in Hfalse as [Hc Hp].
      destruct Hsch as (Hm & _).
      specialize (Hall s Hs).
      rewrite (acceptedPairs_split _ Hm), <-(groupedPairs_eq _ Hm), fmap_app in Hall.
      apply elem_of_app in Hall as [Hin|Hin].
      - destruct (afterPass1_inv fs fb) as [Hms _ _ _ _].
        unfold systemClaimed in Hc. apply bool_decide_eq_false in Hc. apply Hc.
        rewrite Hms. apply elem_of_list_to_set.
        by apply (list_elem_of_fmap_2 SystemTransaction.TrxID) in Hin.
      - rewrite (grouped_system_side _ Hm) in Hin.
        apply list_elem_of_filter in Hin as [[_ Hp'] _]. congruence. }
    apply Hnil in Hres. by rewrite Hres.
Qed.

(** C9, witness: the "all matching types" case of the package's tests. *)
Lemma system_only_list_is_nil_when_empty_witness :
  let r := reconcileLoaded (scheduleOf reversedOrder) matchedSystem3 matchedBank3
             windowStart windowEnd in
  fairSchedule (scheduleOf reversedOrder) ∧
  Summary.MatchedTransactions (ReconciliationSummary r) = 3 ∧
  UnmatchedTransactions.SystemMissingFromBank (UnmatchedTransactions r) = nilSlice ∧
  jsonOfSlice (UnmatchedTransactions.SystemMissingFromBank (UnmatchedTransactions r))
  = JsonNull ∧
  jsonOfSlice (DiscrepantTransactions.Details (DiscrepantTransactions r)) = JsonArray 0 ∧
  jsonOfMap (UnmatchedTransactions.BankMissingFromSystem (UnmatchedTransactions r))
  = JsonObject 0.
Proof.
  pose proof (fair_scheduleOf reversedOrder fair_reversedOrder) as Hs.
  destruct (system_only_list_is_nil_when_empty (scheduleOf reversedOrder)
              matchedSystem3 matchedBank3 windowStart windowEnd Hs) as (_ & _ & _ & Hall).
  assert (∀ sysTx,
            sysTx ∈ filterSystemTransactionsByDate matchedSystem3 windowStart windowEnd →
            sysTx ∈ (acceptedPairs (orderMatch (scheduleOf reversedOrder))
                       (filterSystemTransactionsByDate matchedSystem3 windowStart windowEnd)
                       (filterBankTransactionsByDate matchedBank3 windowStart windowEnd)).*1)
    as Hevery.
  { intros s Hin. vm_compute in Hin.
    repeat (apply elem_of_cons in Hin as [->|Hin]); [..|by apply elem_of_nil in Hin];
      vm_compute; repeat ((by left) || right). }
  destruct (Hall Hevery) as [Hnil Hjson].
  cbv zeta. split; [exact Hs|]. split; [vm_compute; reflexivity|].
  split; [exact Hnil|]. split; [exact Hjson|].
  split; vm_compute; reflexivity.
Defined.

(** ** Two runs on the same inputs *)

Section OrderIndependence.
Context (sch1 sch2 : Schedule) (Hsch1 : fairSchedule sch1) (Hsch2 : fairSchedule sch2)
        (ss : list SysTx) (bs : list BankTx) (start end_ : GoTime.Time).
Let fs := filterSystemTransactionsByDate ss start end_.
Let fb := filterBankTransactionsByDate bs start end_.
Let r1 := reconcileLoaded sch1 ss bs start end_.
Let r2 := reconcileLoaded sch2 ss bs start end_.

Lemma acceptedPairs_perm :
  acceptedPairs (orderMatch sch1) fs fb ≡ₚ acceptedPairs (orderMatch sch2) fs fb.
Proof.
  destruct Hsch1 as (Hm1 & _), Hsch2 as (Hm2 & _).
  rewrite (acceptedPairs_split _ Hm1), (acceptedPairs_split _ Hm2).
  by rewrite (rangeMap_perm _ Hm1), (rangeMap_perm _ Hm2).
Qed.

Lemma optGroup_perm {T} (l1 l2 : list T) :
  l1 ≡ₚ l2 →
  match optGroup l1, optGroup l2 with
  | Some b1, Some b2 => b1 ≡ₚ b2
  | None, None => True
  | _, _ => False
  end.
Proof.
  intros Hperm. destruct l1 as [|x l1], l2 as [|y l2]; simpl; try done.
  - by apply Permutation_nil_cons in Hperm.
  - symmetry in Hperm. by apply Permutation_nil_cons in Hperm.
Qed.

Lemma buckets_perm src :
  match entries (UnmatchedTransactions.BankMissingFromSystem (UnmatchedTransactions r1))
          !! src,
        entries (UnmatchedTransactions.BankMissingFromSystem (UnmatchedTransactions r2))
          !! src with
  | Some b1, Some b2 => b1 ≡ₚ b2
  | None, None => True
  | _, _ => False
  end.
Proof.
  unfold r1, r2. rewrite !loaded_missing_bank_made. simpl.
  rewrite !fileUnder_groupInto, !groupInto_lookup.
  apply optGroup_perm. unfold groupOf. apply filter_Permutation.
  destruct Hsch1 as (Hm1 & _ & Hb1 & _), Hsch2 as (Hm2 & _ & Hb2 & _).
  by rewrite !bank_residue_perm.
Qed.
End OrderIndependence.

(** C8 (amended): two runs on the same inputs, whatever orders their map
    iterations follow, accept the same pairs in Pass 1 and, overall, the
    same pairs up to order; they report the same summary, the same
    discrepancy count and unmatched count, and the same details, the same
    system-only entries and the same bank-only entries in each bucket, up
    to the order of the entries. *)
Theorem partition_independent_of_map_order (sch1 sch2 : Schedule)
    (ss : list SysTx) (bs : list BankTx) (start end_ : GoTime.Time) :
  fairSchedule sch1 → fairSchedule sch2 →
  let fs := filterSystemTransactionsByDate ss start end_ in
  let fb := filterBankTransactionsByDate bs start end_ in
  let r1 := reconcileLoaded sch1 ss bs start end_ in
  let r2 := reconcileLoaded sch2 ss bs start end_ in
  let u1 := UnmatchedTransactions r1 in
  let u2 := UnmatchedTransactions r2 in
  pass1Pairs fs fb ++ groupedPairs (orderMatch sch1) fs fb
    = acceptedPairs (orderMatch sch1) fs fb ∧
  acceptedPairs (orderMatch sch1) fs fb ≡ₚ acceptedPairs (orderMatch sch2) fs fb ∧
  ReconciliationSummary r1 = ReconciliationSummary r2 ∧
  DiscrepantTransactions.Count (DiscrepantTransactions r1)
  = DiscrepantTransactions.Count (DiscrepantTransactions r2) ∧
  elems (DiscrepantTransactions.Details (DiscrepantTransactions r1))
  ≡ₚ elems (DiscrepantTransactions.Details (DiscrepantTransactions r2)) ∧
  elems (UnmatchedTransactions.SystemMissingFromBank u1)
  ≡ₚ elems (UnmatchedTransactions.SystemMissingFromBank u2) ∧
  (∀ src,
     match entries (UnmatchedTransactions.BankMissingFromSystem u1) !! src,
           entries (UnmatchedTransactions.BankMissingFromSystem u2) !! src with
     | Some b1, Some b2 => b1 ≡ₚ b2
     | None, None => True
     | _, _ => False
     end) ∧
  UnmatchedTransactions.Count u1 = UnmatchedTransactions.Count u2.
Proof.
  intros Hsch1 Hsch2. cbv zeta.
  set (fs := filterSystemTransactionsByDate ss start end_).
  set (fb := filterBankTransactionsByDate bs start end_).
  pose proof (acceptedPairs_perm sch1 sch2 Hsch1 Hsch2 ss bs start end_) as Hperm.
  fold fs fb in Hperm.
  split.
  { destruct Hsch1 as (Hm1 & _).
    by rewrite (acceptedPairs_split _ Hm1), (groupedPairs_eq _ Hm1). }
  split; [done|]. split.
  { rewrite !loaded_summary, !replay_summary. simpl. fold fs fb.
    by rewrite (Permutation_length Hperm). }
  split.
  { rewrite !loaded_discrepant, !replay_discrepant. simpl. fold fs fb.
    unfold discrepantPairs. by rewrite Hperm. }
  split.
  { rewrite !loaded_discrepant, !replay_discrepant. simpl. fold fs fb.
    unfold discrepantPairs. by rewrite Hperm. }
  split.
  { by rewrite !loaded_missing_system_perm. }
  split; [by apply buckets_perm|].
  rewrite !loaded_count. unfold len.
  rewrite !loaded_missing_system_perm by done.
  destruct Hsch1 as (? & ? & ? & Hc1). destruct Hsch2 as (? & ? & ? & Hc2).
  by rewrite !loaded_bank_count by (done || by repeat split).
Qed.

(** C8, witness: two unmatched system records, ranged over in the two
    directions. *)
Lemma partition_independent_of_map_order_witness :
  let r1 := reconcileLoaded (scheduleOf listedOrder) looseSystem [] windowStart windowEnd in
  let r2 := reconcileLoaded (scheduleOf reversedOrder) looseSystem [] windowStart windowEnd in
  fairSchedule (scheduleOf listedOrder) ∧ fairSchedule (scheduleOf reversedOrder) ∧
  ReconciliationSummary r1 = ReconciliationSummary r2 ∧
  elems (UnmatchedTransactions.SystemMissingFromBank (UnmatchedTransactions r1))
  ≡ₚ elems (UnmatchedTransactions.SystemMissingFromBank (UnmatchedTransactions r2)) ∧
  UnmatchedTransactions.Count (UnmatchedTransactions r1)
  = UnmatchedTransactions.Count (UnmatchedTransactions r2).
Proof.
  pose proof (fair_scheduleOf listedOrder fair_listedOrder) as H1.
  pose proof (fair_scheduleOf reversedOrder fair_reversedOrder) as H2.
  destruct (partition_independent_of_map_order (scheduleOf listedOrder) (scheduleOf reversedOrder)
              looseSystem [] windowStart windowEnd H1 H2)
    as (_ & _ & Hsum & _ & _ & Hsys & _ & Hcount).
  cbv zeta. exact (conj H1 (conj H2 (conj Hsum (conj Hsys Hcount)))).
Defined.

(** C8, counterexample: on the same input the two directions give the
    system-only list in two orders, hence two different reports. *)
Lemma system_only_order_follows_map_order :
  let r1 := reconcileLoaded (scheduleOf listedOrder) looseSystem [] windowStart windowEnd in
  let r2 := reconcileLoaded (scheduleOf reversedOrder) looseSystem [] windowStart windowEnd in
  fairSchedule (scheduleOf listedOrder) ∧ fairSchedule (scheduleOf reversedOrder) ∧
  UnmatchedTransactions.SystemMissingFromBank (UnmatchedTransactions r1)
  = Slice (reverse looseSystem) ∧
  UnmatchedTransactions.SystemMissingFromBank (UnmatchedTransactions r2)
  = Slice looseSystem ∧
  r1 ≠ r2.
Proof.
  cbv zeta.
  split; [exact (fair_scheduleOf listedOrder fair_listedOrder)|].
  split; [exact (fair_scheduleOf reversedOrder fair_reversedOrder)|].
  split; [vm_compute; reflexivity|]. split; [vm_compute; reflexivity|].
  vm_compute. discriminate.
Qed.

(** C10: there is an input with two filtered bank records that share their
    [UniqueIdentifier] and come from different files, in which Pass 1
    matches the first, the second (which references nothing) counts as
    claimed, no group is built for it, it is in no matched pair, and the
    report has no bank-only bucket and no system-only entry: 2 bank
    transactions processed, 1 matched, 0 unmatched. *)
Theorem shared_bank_identifier_drops_record :
  ∃ (ss : list SysTx) (first second : BankTx) (start end_ : GoTime.Time) (sysTx : SysTx),
    let bs := [first; second] in
    let fs := filterSystemTransactionsByDate ss start end_ in
    let fb := filterBankTransactionsByDate bs start end_ in
    let r := reconcileLoaded (scheduleOf listedOrder) ss bs start end_ in
    let u := UnmatchedTransactions r in
    fb = [first; second] ∧
    BankTransaction.UniqueIdentifier first = BankTransaction.UniqueIdentifier second ∧
    BankTransaction.BankSource first ≠ BankTransaction.BankSource second ∧
    pass1Pairs fs fb = [(sysTx, first)] ∧
    references second sysTx = false ∧
    bankClaimed fs fb second = true ∧
    bankGroups fs fb = ∅ ∧
    acceptedPairs listedOrder fs fb = [(sysTx, first)] ∧
    UnmatchedTransactions.BankMissingFromSystem u = Map ∅ ∧
    UnmatchedTransactions.SystemMissingFromBank u = nilSlice ∧
    UnmatchedTransactions.Count u = 0 ∧
    Summary.MatchedTransactions (ReconciliationSummary r) = 1 ∧
    Summary.TotalBankTransactionsProcessed (ReconciliationSummary r) = 2.
Proof.
  exists dupSystem, dupBankA, dupBankB, windowStart, windowEnd,
    (mkSys "TRX001" 100 DEBIT (day 1)).
  cbv zeta. split; [vm_compute; reflexivity|].
  split; [reflexivity|]. split; [vm_compute; discriminate|].
  repeat split; vm_compute; reflexivity.
Qed.

(** C3, at the failing input: a record at 23:30 of the end day is on the end
    calendar day; the system filter drops it and the bank filter keeps a
    bank record of the same instant. *)
Theorem system_filter_drops_last_hour_of_end_day :
  GoTime.FormatDateOnly lateTime = GoTime.FormatDateOnly windowEnd ∧
  filterSystemTransactionsByDate [lateSysTx] windowStart windowEnd = [] ∧
  filterBankTransactionsByDate [lateBankTx] windowStart windowEnd = [lateBankTx].
Proof. vm_compute. done. Qed.

(** * Further properties *)

(** ** The two date filters *)

Section Filters.

Lemma List_filter_stdpp {A} (f : A → bool) (P : A → Prop) `{∀ x, Decision (P x)}
    (l : list A) :
  (∀ x, f x = true ↔ P x) → List.filter f l = filter P l.
Proof.
  intros Hf. induction l as [|x l IH]; [done|].
  simpl. rewrite filter_cons, IH.
  destruct (f x) eqn:Hx, (decide (P x)) as [Hp|Hn]; try done.
  - destruct Hn. by apply Hf.
  - apply Hf in Hp. congruence.
Qed.

Lemma filter_iff_Forall {A} (P Q : A → Prop)
    `{∀ x, Decision (P x), ∀ x, Decision (Q x)} (l : list A) :
  Forall (λ x, P x ↔ Q x) l → filter P l = filter Q l.
Proof.
  induction 1 as [|x l Hx _ IH]; [done|].
  rewrite !filter_cons, IH.
  destruct (decide (P x)), (decide (Q x)); tauto.
Qed.

Lemma Hour_value : GoTime.Hour = 3600000000000.
Proof. reflexivity. Qed.

Lemma filterSystem_window ss start end_ :
  filterSystemTransactionsByDate ss start end_
  = filter (λ tx, inSystemWindow start end_ (SystemTransaction.TransactionTime tx)) ss.
Proof.
  apply List_filter_stdpp. intros tx. cbv zeta.
  unfold inSystemWindow, GoTime.Equal, GoTime.After, GoTime.Before, GoTime.Add,
    GoTime.Nanosecond.
  cbn [GoTime.unixNano]. rewrite Hour_value.
  rewrite andb_true_iff, !orb_true_iff, !Z.eqb_eq, !Z.ltb_lt. lia.
Qed.

Lemma filterBank_window bs start end_ :
  filterBankTransactionsByDate bs start end_
  = filter (λ tx, inBankWindow start end_ (BankTransaction.Date tx)) bs.
Proof.
  apply List_filter_stdpp. intros tx. cbv zeta.
  unfold inBankWindow, GoTime.Equal, GoTime.After, GoTime.Before, GoTime.Add,
    GoTime.Nanosecond.
  cbn [GoTime.unixNano]. rewrite Hour_value.
  rewrite andb_true_iff, !orb_true_iff, !Z.eqb_eq, !Z.ltb_lt. lia.
Qed.

Lemma midnight_window start end_ t :
  atMidnightUTC end_ → atMidnightUTC t →
  (inSystemWindow start end_ t
   ↔ GoTime.unixNano start ≤ GoTime.unixNano t ≤ GoTime.unixNano end_) ∧
  (inBankWindow start end_ t
   ↔ GoTime.unixNano start ≤ GoTime.unixNano t ≤ GoTime.unixNano end_).
Proof.
  unfold atMidnightUTC, inSystemWindow, inBankWindow, GoTime.Nanosecond.
  rewrite Hour_value. intros He Ht.
  apply Z.mod_divide in He as [e He]; [|done].
  apply Z.mod_divide in Ht as [d Ht]; [|done].
  rewrite He, Ht. lia.
Qed.
End Filters.

(** X1: each filter keeps, in their order, the records whose instant lies
    in a half-open window that begins at [start]: the system filter up to
    23 hours after [end], the bank filter up to one nanosecond before 24
    hours after [end].  Only the instants count, not the zones; the test
    for equality with [end] adds nothing; and every instant the system
    filter keeps, the bank filter keeps too. *)
Theorem filters_keep_half_open_windows (ss : list SysTx) (bs : list BankTx)
    (start end_ : GoTime.Time) :
  filterSystemTransactionsByDate ss start end_
  = filter (λ tx, inSystemWindow start end_ (SystemTransaction.TransactionTime tx)) ss ∧
  filterBankTransactionsByDate bs start end_
  = filter (λ tx, inBankWindow start end_ (BankTransaction.Date tx)) bs ∧
  ∀ t, inSystemWindow start end_ t → inBankWindow start end_ t.
Proof.
  split; [apply filterSystem_window|]. split; [apply filterBank_window|].
  intros t. unfold inSystemWindow, inBankWindow, GoTime.Nanosecond.
  rewrite Hour_value. lia.
Qed.

(** X2: when [end] and the times of the records are midnights UTC (dates
    without a time of day, as the bank gateway and the command line parse
    them), both filters keep exactly the records from [start] to [end],
    both included: the whole end day is in the window. *)
Theorem whole_day_records_filter_by_date (ss : list SysTx) (bs : list BankTx)
    (start end_ : GoTime.Time) :
  atMidnightUTC end_ →
  Forall (λ tx, atMidnightUTC (SystemTransaction.TransactionTime tx)) ss →
  Forall (λ tx, atMidnightUTC (BankTransaction.Date tx)) bs →
  filterSystemTransactionsByDate ss start end_
  = filter (λ tx, GoTime.unixNano start
                  ≤ GoTime.unixNano (SystemTransaction.TransactionTime tx)
                  ≤ GoTime.unixNano end_) ss ∧
  filterBankTransactionsByDate bs start end_
  = filter (λ tx, GoTime.unixNano start
                  ≤ GoTime.unixNano (BankTransaction.Date tx)
                  ≤ GoTime.unixNano end_) bs.
Proof.
  intros He Hss Hbs. rewrite filterSystem_window, filterBank_window. split.
  - apply filter_iff_Forall. eapply Forall_impl; [exact Hss|].
    intros tx Ht. by apply midnight_window.
  - apply filter_iff_Forall. eapply Forall_impl; [exact Hbs|].
    intros tx Ht. by apply midnight_window.
Qed.

Lemma whole_day_records_filter_by_date_witness :
  filterSystemTransactionsByDate windowSystem windowStart windowEnd
  = [mkSys "TRX001" 100 DEBIT (day 1)] ∧
  filterBankTransactionsByDate (windowBank ++ [mkBank "BANK003" 5 windowEnd "Fee" "Bank1"])
    windowStart windowEnd
  = [mkBank "BANK001" (-100) (day 1) "Purchase trxID:TRX001" "Bank1";
     mkBank "BANK003" 5 windowEnd "Fee" "Bank1"].
Proof.
  destruct (whole_day_records_filter_by_date windowSystem
              (windowBank ++ [mkBank "BANK003" 5 windowEnd "Fee" "Bank1"])
              windowStart windowEnd) as [-> ->].
  - reflexivity.
  - repeat constructor.
  - repeat constructor.
  - split; reflexivity.
Defined.

(** ** The report, field by field *)

Section ReportFacts.
Context (sch : Schedule) (Hsch : fairSchedule sch)
        (ss : list SysTx) (bs : list BankTx) (start end_ : GoTime.Time).
Let fs := filterSystemTransactionsByDate ss start end_.
Let fb := filterBankTransactionsByDate bs start end_.
Let r := reconcileLoaded sch ss bs start end_.

Lemma pass1Pairs_members s b :
  (s, b) ∈ pass1Pairs fs fb → s ∈ fs ∧ b ∈ fb ∧ references b s = true.
Proof.
  destruct (afterPass1_inv fs fb) as [_ _ _ _ Hfrom]. intros Hp.
  apply (Hfrom _ Hp).
Qed.

Lemma systemClaimed_ids s :
  systemClaimed fs fb s = true
  ↔ SystemTransaction.TrxID s ∈ sysIds (pass1Pairs fs fb).
Proof.
  destruct (afterPass1_inv fs fb) as [Hs _ _ _ _].
  unfold systemClaimed, pass1Pairs.
  by rewrite bool_decide_eq_true, Hs, elem_of_list_to_set.
Qed.

Lemma bankClaimed_ids b :
  bankClaimed fs fb b = true
  ↔ BankTransaction.UniqueIdentifier b ∈ bankIds (pass1Pairs fs fb).
Proof.
  destruct (afterPass1_inv fs fb) as [_ Hb _ _ _].
  unfold bankClaimed, pass1Pairs.
  by rewrite bool_decide_eq_true, Hb, elem_of_list_to_set.
Qed.

Lemma acceptedPairs_members s b :
  (s, b) ∈ acceptedPairs (orderMatch sch) fs fb → s ∈ fs ∧ b ∈ fb.
Proof.
  destruct Hsch as (Hm & _).
  rewrite (acceptedPairs_split _ Hm), <-(groupedPairs_eq _ Hm), elem_of_app.
  intros [Hp|Hg].
  - by destruct (pass1Pairs_members s b Hp) as (? & ? & _).
  - destruct (groupedPairs_members _ Hm fs fb s b Hg)
      as (k & (_ & _ & ?)%elem_of_groupOf & (_ & _ & ?)%elem_of_groupOf & _).
    done.
Qed.

Lemma elem_of_systemResidue s :
  s ∈ systemResidue fs fb
  ↔ s ∈ fs ∧ systemClaimed fs fb s = false ∧ pairedKey fs fb (systemKey s) = false.
Proof.
  unfold systemResidue. rewrite list_elem_of_filter, orb_false_iff. tauto.
Qed.

Lemma elem_of_bankResidue b :
  b ∈ bankResidue fs fb
  ↔ b ∈ fb ∧ bankClaimed fs fb b = false ∧ pairedKey fs fb (bankKey b) = false.
Proof.
  unfold bankResidue. rewrite list_elem_of_filter, orb_false_iff. tauto.
Qed.

Lemma loaded_bucket src :
  entries (UnmatchedTransactions.BankMissingFromSystem (UnmatchedTransactions r)) !! src
  = optGroup
      (filter (λ b, BankTransaction.BankSource b = src)
         (concat (rangeMap (orderBank sch)
            (bankMap (matcher notePair (orderMatch sch) fs fb []))).*2)).
Proof.
  unfold r. rewrite loaded_missing_bank_made. simpl.
  rewrite fileUnder_groupInto, groupInto_lookup. unfold groupOf.
  f_equal. apply list_filter_iff. naive_solver.
Qed.

Lemma loaded_bucket_perm src bucket :
  entries (UnmatchedTransactions.BankMissingFromSystem (UnmatchedTransactions r)) !! src
  = Some bucket →
  bucket ≠ [] ∧
  bucket ≡ₚ filter (λ b, BankTransaction.BankSource b = src) (bankResidue fs fb).
Proof.
  destruct Hsch as (Hm & _ & Hb & _).
  rewrite loaded_bucket. intros [-> Hne]%optGroup_Some. split; [done|].
  apply filter_Permutation. by apply bank_residue_perm.
Qed.

Lemma loaded_bucket_members src bucket b :
  entries (UnmatchedTransactions.BankMissingFromSystem (UnmatchedTransactions r)) !! src
  = Some bucket →
  b ∈ bucket →
  BankTransaction.BankSource b = src ∧ b ∈ bankResidue fs fb.
Proof.
  intros [_ Hperm]%loaded_bucket_perm. rewrite Hperm, list_elem_of_filter. tauto.
Qed.
End ReportFacts.

(** X3: in every report the discrepancy count is the number of details,
    the discrepancies are at most the matches, the matches are at most the
    processed transactions of either side, and the processed transactions
    are at most those that were loaded. *)
Theorem report_counts_are_consistent (sch : Schedule)
    (ss : list SysTx) (bs : list BankTx) (start end_ : GoTime.Time) :
  fairSchedule sch →
  let r := reconcileLoaded sch ss bs start end_ in
  let s := ReconciliationSummary r in
  let d := DiscrepantTransactions r in
  DiscrepantTransactions.Count d = len (DiscrepantTransactions.Details d) ∧
  0 ≤ DiscrepantTransactions.Count d ≤ Summary.MatchedTransactions s ∧
  Summary.MatchedTransactions s ≤ Summary.TotalSystemTransactionsProcessed s ∧
  Summary.MatchedTransactions s ≤ Summary.TotalBankTransactionsProcessed s ∧
  Summary.TotalSystemTransactionsProcessed s ≤ Z.of_nat (length ss) ∧
  Summary.TotalBankTransactionsProcessed s ≤ Z.of_nat (length bs).
Proof.
  intros Hsch. cbv zeta.
  set (fs := filterSystemTransactionsByDate ss start end_).
  set (fb := filterBankTransactionsByDate bs start end_).
  pose proof (loaded_matched sch ss bs start end_) as Hmatched.
  pose proof (accepted_length sch Hsch ss bs start end_) as Hlen.
  pose proof (paired_sides_length sch Hsch ss bs start end_) as Hsides.
  fold fs fb in Hmatched, Hlen, Hsides.
  pose proof (three_way_count (systemClaimed fs fb) (λ tx, pairedKey fs fb (systemKey tx)) fs)
    as Hs3.
  pose proof (three_way_count (bankClaimed fs fb) (λ tx, pairedKey fs fb (bankKey tx)) fb)
    as Hb3.
  cbv beta in Hs3, Hb3.
  fold (systemPaired fs fb) (systemResidue fs fb) in Hs3.
  fold (bankPaired fs fb) (bankResidue fs fb) in Hb3.
  pose proof (pass1_system_count fs fb) as Hp1s.
  pose proof (pass1_bank_count fs fb) as Hp1b.
  rewrite Hmatched, loaded_details_made, loaded_discrepant, replay_discrepant,
    loaded_summary, replay_summary.
  fold fs fb. cbn. unfold len. cbn. rewrite length_fmap.
  pose proof (length_filter (λ p : SysTx * BankTx, isDiscrepancy p.1 p.2)
                (acceptedPairs (orderMatch sch) fs fb)) as Hd.
  fold (discrepantPairs (acceptedPairs (orderMatch sch) fs fb)) in Hd.
  assert (length fs ≤ length ss)%nat as Hfs.
  { unfold fs. rewrite filterSystem_window. apply length_filter. }
  assert (length fb ≤ length bs)%nat as Hfb.
  { unfold fb. rewrite filterBank_window. apply length_filter. }
  lia.
Qed.

Lemma report_counts_are_consistent_witness :
  let r := reconcileLoaded (scheduleOf reversedOrder) discrepantSystem discrepantBank
             windowStart windowEnd in
  DiscrepantTransactions.Count (DiscrepantTransactions r) = 2 ∧
  len (DiscrepantTransactions.Details (DiscrepantTransactions r)) = 2 ∧
  Summary.MatchedTransactions (ReconciliationSummary r) = 3.
Proof.
  cbv zeta.
  destruct (report_counts_are_consistent (scheduleOf reversedOrder)
              discrepantSystem discrepantBank windowStart windowEnd
              (fair_scheduleOf reversedOrder fair_reversedOrder))
    as (Hcount & _).
  split; [|split].
  - vm_compute. reflexivity.
  - rewrite <-Hcount. vm_compute. reflexivity.
  - vm_compute. reflexivity.
Defined.



(** X5: a report only holds records that were loaded and lie in the
    window: both records of every matched pair, and so of every detail,
    every system-only entry and every record of a bank-only bucket come
    from the filtered lists, whose records come from the input and satisfy
    the window test of their side. *)
Theorem report_holds_only_window_records (sch : Schedule)
    (ss : list SysTx) (bs : list BankTx) (start end_ : GoTime.Time) :
  fairSchedule sch →
  let fs := filterSystemTransactionsByDate ss start end_ in
  let fb := filterBankTransactionsByDate bs start end_ in
  let r := reconcileLoaded sch ss bs start end_ in
  let u := UnmatchedTransactions r in
  (∀ s b, (s, b) ∈ acceptedPairs (orderMatch sch) fs fb → s ∈ fs ∧ b ∈ fb) ∧
  (∀ d, d ∈ elems (DiscrepantTransactions.Details (DiscrepantTransactions r)) →
        (DiscrepancyDetail.SystemTransaction d, DiscrepancyDetail.BankTransaction d)
          ∈ acceptedPairs (orderMatch sch) fs fb) ∧
  (∀ s, s ∈ elems (UnmatchedTransactions.SystemMissingFromBank u) → s ∈ fs) ∧
  (∀ src bucket b,
     entries (UnmatchedTransactions.BankMissingFromSystem u) !! src = Some bucket →
     b ∈ bucket → b ∈ fb) ∧
  (∀ s, s ∈ fs →
        s ∈ ss ∧ inSystemWindow start end_ (SystemTransaction.TransactionTime s)) ∧
  (∀ b, b ∈ fb → b ∈ bs ∧ inBankWindow start end_ (BankTransaction.Date b)).
Proof.
  intros Hsch. cbv zeta.
  set (fs := filterSystemTransactionsByDate ss start end_).
  set (fb := filterBankTransactionsByDate bs start end_).
  split; [intros s b; by apply acceptedPairs_members|].
  split.
  { intros d. rewrite loaded_details_made. simpl. fold fs fb.
    intros ([s b] & -> & [_ Hp]%list_elem_of_filter)%list_elem_of_fmap. done. }
  split.
  { intros s. rewrite (loaded_missing_system_perm sch Hsch). fold fs fb.
    by intros (? & _)%elem_of_systemResidue. }
  split.
  { intros src bucket b Hb Hin.
    destruct (loaded_bucket_members sch Hsch ss bs start end_ _ _ b Hb Hin) as [_ Hres].
    by apply elem_of_bankResidue in Hres as (? & _). }
  split.
  - intros s. unfold fs. rewrite filterSystem_window, list_elem_of_filter. tauto.
  - intros b. unfold fb. rewrite filterBank_window, list_elem_of_filter. tauto.
Qed.

Lemma report_holds_only_window_records_witness :
  let r := reconcileLoaded (scheduleOf reversedOrder) residueSystem residueBank
             windowStart windowEnd in
  let s := mkSys "TRX999" 500 CREDIT (day 5) in
  s ∈ elems (UnmatchedTransactions.SystemMissingFromBank (UnmatchedTransactions r)) ∧
  s ∈ residueSystem ∧
  inSystemWindow windowStart windowEnd (SystemTransaction.TransactionTime s).
Proof.
  cbv zeta.
  assert (mkSys "TRX999" 500 CREDIT (day 5)
            ∈ elems (UnmatchedTransactions.SystemMissingFromBank
                       (UnmatchedTransactions
                          (reconcileLoaded (scheduleOf reversedOrder) residueSystem
                             residueBank windowStart windowEnd)))) as Hin
    by (vm_compute; left).
  split; [exact Hin|].
  destruct (report_holds_only_window_records (scheduleOf reversedOrder)
              residueSystem residueBank windowStart windowEnd
              (fair_scheduleOf reversedOrder fair_reversedOrder))
    as (_ & _ & Hsys & _ & Hfs & _).
  exact (Hfs _ (Hsys _ Hin)).
Defined.

(** X6: the passes do not overlap.  An identifier that Pass 1 claimed is
    out of everything that follows: no grouped pair, no system-only entry
    and no record of a bank-only bucket carries a [TrxID], or a
    [UniqueIdentifier], of a Pass 1 pair. *)
Theorem pass1_identifiers_stay_claimed (sch : Schedule)
    (ss : list SysTx) (bs : list BankTx) (start end_ : GoTime.Time) :
  fairSchedule sch →
  let fs := filterSystemTransactionsByDate ss start end_ in
  let fb := filterBankTransactionsByDate bs start end_ in
  let r := reconcileLoaded sch ss bs start end_ in
  let u := UnmatchedTransactions r in
  let claimedSystem := sysIds (pass1Pairs fs fb) in
  let claimedBank := bankIds (pass1Pairs fs fb) in
  (∀ s b, (s, b) ∈ groupedPairs (orderMatch sch) fs fb →
          (SystemTransaction.TrxID s ∉ claimedSystem) ∧
          (BankTransaction.UniqueIdentifier b ∉ claimedBank)) ∧
  (∀ s, s ∈ elems (UnmatchedTransactions.SystemMissingFromBank u) →
        SystemTransaction.TrxID s ∉ claimedSystem) ∧
  (∀ src bucket b,
     entries (UnmatchedTransactions.BankMissingFromSystem u) !! src = Some bucket →
     b ∈ bucket → BankTransaction.UniqueIdentifier b ∉ claimedBank).
Proof.
  intros Hsch. cbv zeta.
  set (fs := filterSystemTransactionsByDate ss start end_).
  set (fb := filterBankTransactionsByDate bs start end_).
  assert (∀ s, systemClaimed fs fb s = false →
               SystemTransaction.TrxID s ∉ sysIds (pass1Pairs fs fb)) as Hsys.
  { intros s Hs Hin. apply (systemClaimed_ids ss bs start end_) in Hin.
    fold fs fb in Hin. congruence. }
  assert (∀ b, bankClaimed fs fb b = false →
               BankTransaction.UniqueIdentifier b ∉ bankIds (pass1Pairs fs fb)) as Hbank.
  { intros b Hb Hin. apply (bankClaimed_ids ss bs start end_) in Hin.
    fold fs fb in Hin. congruence. }
  split.
  { intros s b Hg. destruct Hsch as (Hm & _).
    destruct (groupedPairs_members _ Hm fs fb s b Hg)
      as (k & (? & _)%elem_of_groupOf & (? & _)%elem_of_groupOf & _).
    split; [by apply Hsys|by apply Hbank]. }
  split.
  { intros s. rewrite (loaded_missing_system_perm sch Hsch). fold fs fb.
    intros (_ & ? & _)%elem_of_systemResidue. by apply Hsys. }
  intros src bucket b Hb Hin.
  destruct (loaded_bucket_members sch Hsch ss bs start end_ _ _ b Hb Hin) as [_ Hres].
  apply elem_of_bankResidue in Hres as (_ & ? & _). by apply Hbank.
Qed.

Lemma pass1_identifiers_stay_claimed_witness :
  let fs := filterSystemTransactionsByDate residueSystem windowStart windowEnd in
  let fb := filterBankTransactionsByDate residueBank windowStart windowEnd in
  let r := reconcileLoaded (scheduleOf reversedOrder) residueSystem residueBank
             windowStart windowEnd in
  let s := mkSys "TRX999" 500 CREDIT (day 5) in
  sysIds (pass1Pairs fs fb) = ["TRX001"%string] ∧
  s ∈ elems (UnmatchedTransactions.SystemMissingFromBank (UnmatchedTransactions r)) ∧
  SystemTransaction.TrxID s ∉ sysIds (pass1Pairs fs fb).
Proof.
  cbv zeta. split; [vm_compute; reflexivity|].
  assert (mkSys "TRX999" 500 CREDIT (day 5)
            ∈ elems (UnmatchedTransactions.SystemMissingFromBank
                       (UnmatchedTransactions
                          (reconcileLoaded (scheduleOf reversedOrder) residueSystem
                             residueBank windowStart windowEnd)))) as Hin
    by (vm_compute; left).
  split; [exact Hin|].
  destruct (pass1_identifiers_stay_claimed (scheduleOf reversedOrder)
              residueSystem residueBank windowStart windowEnd
              (fair_scheduleOf reversedOrder fair_reversedOrder))
    as (_ & Hsys & _).
  exact (Hsys _ Hin).
Defined.

(** ** Runs in which Pass 1 accepts nothing *)

Section NoPass1.
Context (fs : list SysTx) (fb : list BankTx).

Lemma firstMatch_no_reference {R} (h : R → SysTx → BankTx → R) (st : Claims R) b :
  (∀ s, s ∈ fs → references b s = false) → firstMatch h fs st b = st.
Proof.
  intros Hno. unfold firstMatch.
  destruct (List.find (qualifies st b) fs) as [s|] eqn:Hfind; [|done].
  apply find_some in Hfind as [Hin Hq]. apply list_elem_of_In in Hin.
  apply qualifies_inv in Hq as (_ & _ & Href). rewrite Hno in Href; done.
Qed.

Lemma pass1_no_reference {R} (h : R → SysTx → BankTx → R) (st : Claims R) :
  (∀ s b, s ∈ fs → b ∈ fb → references b s = false) → pass1 h fs fb st = st.
Proof.
  intros Hno. rewrite pass1_firstMatch.
  induction fb as [|b l IH]; [done|].
  cbn [foldl]. rewrite firstMatch_no_reference.
  - apply IH. intros s b' Hs Hb'. apply Hno; [done|by right].
  - intros s Hs. apply Hno; [done|left].
Qed.

Lemma no_pass1_unclaimed :
  pass1Pairs fs fb = [] →
  (∀ s, systemClaimed fs fb s = false) ∧ (∀ b, bankClaimed fs fb b = false).
Proof.
  intros Hnil. destruct (afterPass1_inv fs fb) as [Hs Hb _ _ _].
  unfold pass1Pairs in Hnil. unfold systemClaimed, bankClaimed.
  rewrite Hs, Hb, Hnil. split; intros x; apply bool_decide_eq_false_2; set_solver.
Qed.

Lemma empty_side_no_pass1 : fs = [] ∨ fb = [] → pass1Pairs fs fb = [].
Proof.
  intros Hside. destruct (afterPass1_inv fs fb) as [_ _ _ _ Hfrom].
  unfold pass1Pairs. destruct (acc (afterPass1 fs fb)) as [|p l]; [done|].
  destruct (Hfrom p) as (Hs & Hb & _); [left|].
  destruct Hside as [Hnil|Hnil]; rewrite Hnil in *; set_solver.
Qed.

Lemma empty_side_no_paired_key k : fs = [] ∨ fb = [] → pairedKey fs fb k = false.
Proof.
  intros Hside. unfold pairedKey.
  rewrite systemGroups_lookup, bankGroups_lookup.
  unfold systemGroup, bankGroup, groupOf.
  destruct Hside as [-> | ->]; simpl; [done|].
  by destruct (optGroup _).
Qed.
End NoPass1.

(** X7: when one of the two filtered sets is empty nothing is matched,
    under any orders of map iteration: there is no pair and no
    discrepancy, every filtered system record is a system-only entry,
    every filtered bank record is in a bank-only bucket, and the unmatched
    count is the number of filtered records. *)
Theorem empty_side_matches_nothing (sch : Schedule)
    (ss : list SysTx) (bs : list BankTx) (start end_ : GoTime.Time) :
  fairSchedule sch →
  let fs := filterSystemTransactionsByDate ss start end_ in
  let fb := filterBankTransactionsByDate bs start end_ in
  let r := reconcileLoaded sch ss bs start end_ in
  let u := UnmatchedTransactions r in
  fs = [] ∨ fb = [] →
  acceptedPairs (orderMatch sch) fs fb = [] ∧
  Summary.MatchedTransactions (ReconciliationSummary r) = 0 ∧
  DiscrepantTransactions.Count (DiscrepantTransactions r) = 0 ∧
  elems (UnmatchedTransactions.SystemMissingFromBank u) ≡ₚ fs ∧
  concat (map_to_list (entries (UnmatchedTransactions.BankMissingFromSystem u))).*2
    ≡ₚ fb ∧
  UnmatchedTransactions.Count u = Z.of_nat (length fs + length fb).
Proof.
  intros Hsch. cbv zeta.
  set (fs := filterSystemTransactionsByDate ss start end_).
  set (fb := filterBankTransactionsByDate bs start end_).
  intros Hside.
  pose proof (empty_side_no_pass1 fs fb Hside) as Hp1.
  destruct (no_pass1_unclaimed fs fb Hp1) as [Hcs Hcb].
  assert (systemPaired fs fb = []) as Hsp.
  { apply filter_none. intros s _ [_ Hk].
    by rewrite (empty_side_no_paired_key fs fb _ Hside) in Hk. }
  assert (systemResidue fs fb = fs) as Hsr.
  { apply filter_every. intros s _.
    by rewrite Hcs, (empty_side_no_paired_key fs fb _ Hside). }
  assert (bankResidue fs fb = fb) as Hbr.
  { apply filter_every. intros b _.
    by rewrite Hcb, (empty_side_no_paired_key fs fb _ Hside). }
  assert (acceptedPairs (orderMatch sch) fs fb = []) as Hnone.
  { apply length_zero_iff_nil.
    pose proof (accepted_length sch Hsch ss bs start end_) as Hlen.
    fold fs fb in Hlen. by rewrite Hlen, Hp1, Hsp. }
  split; [done|]. split.
  { rewrite loaded_matched. fold fs fb. by rewrite Hnone. }
  split.
  { rewrite loaded_discrepant, replay_discrepant. fold fs fb. by rewrite Hnone. }
  split.
  { rewrite (loaded_missing_system_perm sch Hsch). fold fs fb. by rewrite Hsr. }
  split.
  { rewrite (loaded_bank_buckets_perm sch Hsch). fold fs fb. by rewrite Hbr. }
  rewrite loaded_count. unfold len.
  rewrite (loaded_missing_system_perm sch Hsch).
  rewrite (loaded_bank_count sch Hsch) by apply Hsch.
  fold fs fb. rewrite Hsr, Hbr. lia.
Qed.

Lemma empty_side_matches_nothing_witness :
  let r := reconcileLoaded (scheduleOf reversedOrder) looseSystem [] windowStart windowEnd in
  elems (UnmatchedTransactions.SystemMissingFromBank (UnmatchedTransactions r))
    ≡ₚ looseSystem ∧
  UnmatchedTransactions.Count (UnmatchedTransactions r) = 2.
Proof.
  cbv zeta.
  destruct (empty_side_matches_nothing (scheduleOf reversedOrder) looseSystem []
              windowStart windowEnd
              (fair_scheduleOf reversedOrder fair_reversedOrder))
    as (_ & _ & _ & Hsys & _ & Hcount).
  - right. reflexivity.
  - split; [exact Hsys|exact Hcount].
Defined.

(** X8: when no description of a filtered bank record contains "trxID:"
    followed by the identifier of a filtered system record, Pass 1 accepts
    nothing and claims nothing, and matching is by key alone: the groups
    are made of all the filtered records, and the pairs of a key are its
    system records zipped, in list order, with its bank records when they
    are as many, and none otherwise. *)
Theorem without_references_matching_is_by_key (o : MapOrder)
    (fs : list SysTx) (fb : list BankTx) (k : string) :
  fairOrder o →
  (∀ s b, s ∈ fs → b ∈ fb → references b s = false) →
  let sysTxs := filter (λ s, systemKey s = k) fs in
  let bankTxs := filter (λ b, bankKey b = k) fb in
  pass1Pairs fs fb = [] ∧
  filter (λ p, systemKey p.1 = k) (acceptedPairs o fs fb)
  = if bool_decide (sysTxs ≠ [] ∧ length sysTxs = length bankTxs)
    then zip sysTxs bankTxs else [].
Proof.
  intros Hfair Hno. cbv zeta.
  assert (pass1Pairs fs fb = []) as Hp1.
  { unfold pass1Pairs, afterPass1. by rewrite pass1_no_reference. }
  destruct (no_pass1_unclaimed fs fb Hp1) as [Hcs Hcb].
  assert (systemGroup fs fb k = filter (λ s, systemKey s = k) fs) as Hsg.
  { unfold systemGroup, groupOf. apply list_filter_iff. intros s. rewrite Hcs. tauto. }
  assert (bankGroup fs fb k = filter (λ b, bankKey b = k) fb) as Hbg.
  { unfold bankGroup, groupOf. apply list_filter_iff. intros b. rewrite Hcb. tauto. }
  split; [done|].
  rewrite (acceptedPairs_split o Hfair), Hp1, app_nil_l, <-(groupedPairs_eq o Hfair).
  rewrite (grouped_filter_key o Hfair fs fb (λ p, systemKey p.1)).
  - rewrite <-Hsg, <-Hbg. case_bool_decide as Hsize.
    + by rewrite (proj2 (pairedKey_sizes fs fb k) Hsize).
    + destruct (pairedKey fs fb k) eqn:Hp; [|done].
      by apply pairedKey_sizes in Hp.
  - intros e p He Hp. by destruct (pairsOfEntry_keys o Hfair fs fb e p He Hp).
Qed.

Lemma without_references_matching_is_by_key_witness :
  filter (λ p, systemKey p.1 = "2025-01-02-DEBIT-100.00"%string)
    (acceptedPairs reversedOrder groupSystem groupBank)
  = zip groupSystem groupBank.
Proof.
  destruct (without_references_matching_is_by_key reversedOrder groupSystem groupBank
              "2025-01-02-DEBIT-100.00" fair_reversedOrder) as [_ ->].
  - intros s b Hs Hb.
    repeat (apply elem_of_cons in Hs as [->|Hs]);
      repeat (apply elem_of_cons in Hb as [->|Hb]);
      try reflexivity; try (by apply elem_of_nil in Hs); by apply elem_of_nil in Hb.
  - vm_compute. reflexivity.
Defined.

(** X9: [countBankMapItems] returns the number of records in all the
    buckets of the map, whatever the order of its loop; it is never
    negative, and it is zero for a nil map and for a map without
    buckets. *)
Theorem countBankMapItems_counts_every_record (o : MapOrder) (m : gomap (list BankTx)) :
  fairOrder o →
  countBankMapItems o m = Z.of_nat (length (concat (map_to_list (entries m)).*2)) ∧
  0 ≤ countBankMapItems o m ∧
  countBankMapItems o nilMap = 0 ∧
  countBankMapItems o (Map ∅) = 0.
Proof.
  intros Hfair.
  assert (∀ m', countBankMapItems o m'
                = Z.of_nat (length (concat (map_to_list (entries m')).*2))) as Hcount.
  { intros m'. unfold countBankMapItems. rewrite count_foldl.
    unfold rangeMap. by rewrite (Hfair _ _). }
  split; [apply Hcount|]. split; [rewrite Hcount; lia|].
  rewrite !Hcount. simpl. by rewrite map_to_list_empty.
Qed.

Lemma countBankMapItems_counts_every_record_witness :
  countBankMapItems reversedOrder
    (Map (<["Bank1" := residueBank]> (<["Bank2" := groupBank]> ∅))) = 4.
Proof.
  destruct (countBankMapItems_counts_every_record reversedOrder
              (Map (<["Bank1" := residueBank]> (<["Bank2" := groupBank]> ∅)))
              fair_reversedOrder) as (-> & _).
  vm_compute. reflexivity.
Defined.

(** ** The order of the unmatched entries *)

Section ResidueOrder.


End ResidueOrder.



(** ** The discrepancy test *)

Section DiscrepancyTest.

Lemma SFcompare_refl_finite s m e :
  SFcompare (S754_finite s m e) (S754_finite s m e) = Some Eq.
Proof.
  unfold SFcompare. rewrite Z.compare_refl, Pos.compare_cont_refl. by destruct s.
Qed.

Lemma is_nan_Prim2SF (x : float) : PrimFloat.is_nan x = true ↔ Prim2SF x = S754_nan.
Proof.
  unfold is_nan. rewrite FloatAxioms.eqb_spec. unfold SFeqb.
  destruct (Prim2SF x) as [[]|[]| |s m e]; simpl; try done.
  rewrite Z.compare_refl, Pos.compare_cont_refl. by destruct s.
Qed.

Lemma ltb_epsilon_false (y : float) :
  match Prim2SF y with S754_zero _ | S754_nan => True | _ => False end →
  PrimFloat.ltb epsilon y = false.
Proof.
  rewrite FloatAxioms.ltb_spec.
  by destruct (Prim2SF y) as [[]|[]| |s m e].
Qed.

Lemma abs_zero_or_nan (y : float) :
  match Prim2SF y with S754_zero _ | S754_nan => True | _ => False end →
  match Prim2SF (PrimFloat.abs y) with S754_zero _ | S754_nan => True | _ => False end.
Proof. rewrite FloatAxioms.abs_spec. by destruct (Prim2SF y) as [[]|[]| |s m e]. Qed.

Lemma sub_diag_zero_or_nan (x : float) :
  match Prim2SF (PrimFloat.sub x x) with S754_zero _ | S754_nan => True | _ => False end.
Proof.
  rewrite FloatAxioms.sub_spec. unfold SF64sub, SFsub.
  destruct (Prim2SF x) as [[]|[]| |s m e]; try done.
  cbv zeta. by rewrite Z.sub_diag.
Qed.

Lemma sub_nan (x y : float) :
  Prim2SF x = S754_nan ∨ Prim2SF y = S754_nan →
  Prim2SF (PrimFloat.sub x y) = S754_nan.
Proof.
  rewrite FloatAxioms.sub_spec. unfold SF64sub, SFsub.
  intros [-> | ->]; [done|]. by destruct (Prim2SF x) as [[]|[]| |s m e].
Qed.

Lemma amountDiff_not_negative (s : SysTx) (b : BankTx) :
  PrimFloat.ltb (amountDiff s b) 0 = false.
Proof.
  unfold amountDiff. rewrite FloatAxioms.ltb_spec, FloatAxioms.abs_spec.
  by destruct (Prim2SF (PrimFloat.sub _ _)) as [[]|[]| |[] m e].
Qed.
End DiscrepancyTest.

(** X11: the test of [processMatch] never flags a pair whose two amounts
    are the same number, nor a pair with an amount that is not a number
    (NaN), however far apart the other amount is; and the difference it
    measures is never negative. *)
Theorem discrepancy_test_edges (s : SysTx) (b : BankTx) :
  PrimFloat.ltb (amountDiff s b) 0 = false ∧
  (SystemTransaction.Amount s = BankTransaction.NormalizedAmount b →
   isDiscrepancy s b = false) ∧
  (PrimFloat.is_nan (SystemTransaction.Amount s) = true ∨
   PrimFloat.is_nan (BankTransaction.NormalizedAmount b) = true →
   isDiscrepancy s b = false).
Proof.
  split; [apply amountDiff_not_negative|]. split.
  - intros Heq. unfold isDiscrepancy, amountDiff. rewrite Heq.
    apply ltb_epsilon_false, abs_zero_or_nan, sub_diag_zero_or_nan.
  - intros Hnan. unfold isDiscrepancy, amountDiff.
    apply ltb_epsilon_false, abs_zero_or_nan.
    rewrite sub_nan; [done|]. by rewrite <-!is_nan_Prim2SF.
Qed.

(** ** The grouping key *)

Section DateWidth.

Lemma allFrom_spec (f : Z → bool) (n : nat) (x : Z) :
  allFrom f n x = true → ∀ y, x ≤ y < x + Z.of_nat n → f y = true.
Proof.
  revert x. induction n as [|n IH]; intros x; [lia|].
  cbn [allFrom]. destruct (f x) eqn:Hx; [|done].
  intros Hall y Hy. destruct (decide (y = x)) as [->|Hne]; [done|].
  apply (IH (x + 1) Hall). lia.
Qed.

Lemma allFrom_zero (f : Z → bool) (n : Z) :
  allFrom f (Z.to_nat n) 0 = true → ∀ y, 0 ≤ y < n → f y = true.
Proof. intros Hall y Hy. apply (allFrom_spec f _ 0 Hall). lia. Qed.

Lemma monthDay_twoDigits doe : 0 ≤ doe < 146097 → twoDigits (monthDayOfEra doe) = true.
Proof.
  apply (allFrom_zero (λ doe, twoDigits (monthDayOfEra doe)) 146097).
  vm_compute. reflexivity.
Qed.

Lemma year_fourDigits y : 0 ≤ y < 10000 → fourDigits y = true.
Proof.
  apply (allFrom_zero fourDigits 10000). vm_compute. reflexivity.
Qed.

Lemma civilFromDays_monthDay days :
  let doe := (days + 719468) `mod` 146097 in
  ((GoTime.civilFromDays days).1.2, (GoTime.civilFromDays days).2) = monthDayOfEra doe.
Proof.
  cbv zeta. unfold GoTime.civilFromDays, monthDayOfEra. cbv zeta. cbn [fst snd].
  by rewrite Z.mod_eq, (Z.mul_comm 146097) by done.
Qed.

Lemma length_append (s1 s2 : string) :
  String.length (s1 +:+ s2) = (String.length s1 + String.length s2)%nat.
Proof. induction s1 as [|c s1 IH]; simpl; [done|]. by rewrite IH. Qed.

Lemma FormatDateOnly_length t :
  0 ≤ yearOf t < 10000 → String.length (GoTime.FormatDateOnly t) = 10%nat.
Proof.
  unfold yearOf, GoTime.FormatDateOnly. intros Hy.
  pose proof (civilFromDays_monthDay (GoTime.civilDay t)) as Hmd. cbv zeta in Hmd.
  pose proof (monthDay_twoDigits ((GoTime.civilDay t + 719468) `mod` 146097)) as Htwo.
  rewrite <-Hmd in Htwo.
  destruct (GoTime.civilFromDays (GoTime.civilDay t)) as [[y m] d]. cbn [fst snd] in *.
  apply year_fourDigits in Hy. unfold fourDigits in Hy. apply Nat.eqb_eq in Hy.
  unfold twoDigits in Htwo. cbn [fst snd] in Htwo.
  rewrite andb_true_iff, !Nat.eqb_eq in Htwo.
  destruct Htwo as [Hm Hd]; [by apply Z.mod_pos_bound|].
  rewrite !length_append, Hy, Hm, Hd. done.
Qed.

Lemma append_inj_length (s1 s2 r1 r2 : string) :
  String.length s1 = String.length s2 →
  s1 +:+ r1 = s2 +:+ r2 → s1 = s2 ∧ r1 = r2.
Proof.
  revert s2. induction s1 as [|c s1 IH]; intros [|c' s2]; simpl; try done.
  intros [= Hlen] [= -> Heq]. destruct (IH s2 Hlen Heq) as [-> ->]. done.
Qed.
End DateWidth.

(** X12: for kinds DEBIT and CREDIT and years of four digits, two records
    have the same grouping key exactly when they agree on the date as
    [Format] prints it, on the kind, and on the amount as ["%.2f"] prints
    it: the key mixes up no two such triples. *)
Theorem group_key_components (t1 t2 : GoTime.Time) (ty1 ty2 : TransactionType)
    (a1 a2 : float) :
  0 ≤ yearOf t1 < 10000 → 0 ≤ yearOf t2 < 10000 →
  ty1 ∈ [DEBIT; CREDIT] → ty2 ∈ [DEBIT; CREDIT] →
  buildGroupKey t1 ty1 a1 = buildGroupKey t2 ty2 a2
  ↔ GoTime.FormatDateOnly t1 = GoTime.FormatDateOnly t2 ∧
    ty1 = ty2 ∧
    GoFmt.Sprintf_2f a1 = GoFmt.Sprintf_2f a2.
Proof.
  intros Hy1%FormatDateOnly_length Hy2%FormatDateOnly_length Hty1 Hty2.
  unfold buildGroupKey. split; [|by intros (-> & -> & ->)].
  intros Hkey.
  apply (append_inj_length (GoTime.FormatDateOnly t1) (GoTime.FormatDateOnly t2))
    in Hkey as [Hdate Hrest]; [|congruence].
  split; [done|].
  injection Hrest as Hrest.
  assert (ty1 = ty2) as <-.
  { apply elem_of_cons in Hty1 as [->|Hty1];
      [|apply list_elem_of_singleton in Hty1 as ->];
      (apply elem_of_cons in Hty2 as [->|Hty2];
         [|apply list_elem_of_singleton in Hty2 as ->]);
      try done; by simpl in Hrest. }
  split; [done|].
  apply (append_inj_length ty1 ty1) in Hrest as [_ Hrest]; [|done].
  by injection Hrest.
Qed.

Lemma group_key_components_witness :
  let t1 := SystemTransaction.TransactionTime roundedSysTx in
  let t2 := BankTransaction.Date roundedBankTx in
  let a1 := SystemTransaction.Amount roundedSysTx in
  let a2 := BankTransaction.NormalizedAmount roundedBankTx in
  buildGroupKey t1 DEBIT a1 = buildGroupKey t2 DEBIT a2 ∧
  GoFmt.Sprintf_2f a1 = GoFmt.Sprintf_2f a2.
Proof.
  intros t1 t2 a1 a2.
  assert (0 ≤ yearOf t1 < 10000) as Hy1
    by (vm_compute; split; [discriminate|reflexivity]).
  assert (0 ≤ yearOf t2 < 10000) as Hy2
    by (vm_compute; split; [discriminate|reflexivity]).
  assert (DEBIT ∈ [DEBIT; CREDIT]) as Hty by left.
  assert (buildGroupKey t1 DEBIT a1 = buildGroupKey t2 DEBIT a2) as Hkey
    by (vm_compute; reflexivity).
  split; [exact Hkey|].
  exact (proj2 (proj2 (proj1 (group_key_components t1 t2 DEBIT DEBIT a1 a2
                                Hy1 Hy2 Hty Hty) Hkey))).
Defined.

(** * The CSV gateway *)

(** The gateway on files in the manner of its tests: the valid file, the
    file with a header only, the empty file, the missing file, the file
    with a bad time, and two bank statements read one after the other. *)
Example test_gateway_files :
  CSVTransactionRepository.GetSystemTransactions (lib := testLibrary) "system.csv"
  = Returned (Slice [firstSystemRow;
                     mkSys "SYS002" 200.5 CREDIT (GoTime.DateUTC 2025 9 1 11 30 0 0);
                     mkSys "SYS003" 75 DEBIT (GoTime.DateUTC 2025 9 2 9 0 0 0)]) ∧
  CSVTransactionRepository.GetSystemTransactions (lib := testLibrary) "header_only.csv"
  = Returned nilSlice ∧
  CSVTransactionRepository.GetSystemTransactions (lib := testLibrary) "empty.csv"
  = Failed (errorWrap "failed to read header from empty.csv: EOF" ioEOF) ∧
  CSVTransactionRepository.GetSystemTransactions (lib := testLibrary) "missing.csv"
  = Failed (errorWrap
              ("failed to open system transaction file missing.csv: "
               +:+ "open missing.csv: no such file or directory")
              (errorNew "open missing.csv: no such file or directory")) ∧
  CSVTransactionRepository.GetSystemTransactions (lib := testLibrary) "bad_time.csv"
  = Failed (errorWrap "could not parse transactionTime 'invalid_time': cannot parse time"
              (errorNew "cannot parse time")) ∧
  CSVTransactionRepository.GetBankTransactions (lib := testLibrary) testBankPaths
  = Returned (Slice [firstBankRow;
                     mkBank "BANK_A_2" 200.5 (GoTime.DateUTC 2025 9 1 0 0 0 0)
                       "Incoming Transfer" "test_bank_0.csv";
                     mkBank "BANK_A_3" (-75) (GoTime.DateUTC 2025 9 2 0 0 0 0)
                       "Withdrawal ATM Central" "test_bank_0.csv";
                     mkBank "BANK_B_1" 500 (GoTime.DateUTC 2025 9 3 0 0 0 0)
                       "Deposit from Client X" "test_bank_1.csv"]) ∧
  CSVTransactionRepository.GetBankTransactions (lib := testLibrary)
    ["/tmp/bank_header_only.csv"%string]
  = Returned nilSlice.
Proof. vm_compute. done. Qed.

(** ** The read loops *)

Section ReadLoops.
Context {lib : GatewayLibrary}.

Lemma outcomeBind_Returned {A B} (x : outcome A) (k : A → outcome B) b :
  outcomeBind x k = Returned b ↔ ∃ a, x = Returned a ∧ k a = Returned b.
Proof. destruct x; simpl; naive_solver. Qed.

Lemma orFail_Returned {A} (x : A + error) context a :
  orFail x context = Returned a ↔ x = inl a.
Proof. destruct x; simpl; naive_solver. Qed.

Lemma fieldAt_Returned record i s : fieldAt record i = Returned s ↔ record !! i = Some s.
Proof. unfold fieldAt. destruct (record !! i); naive_solver. Qed.

Lemma readSystemRecords_readAll path reader transactions :
  CSVTransactionRepository.readSystemRecords path reader transactions
  = outcomeBind (readAll CSVTransactionRepository.systemRecord path reader)
      (λ txs, Returned (append transactions txs)).
Proof.
  revert transactions. induction reader as [|[record|err] rest IH]; intros acc; simpl.
  - by rewrite append_nil_r.
  - destruct (CSVTransactionRepository.systemRecord record) as [tx| |]; simpl; [|done..].
    rewrite IH.
    destruct (readAll CSVTransactionRepository.systemRecord path rest); simpl; [|done..].
    by rewrite append_append.
  - done.
Qed.

Lemma readBankRecords_readAll path reader transactions :
  CSVTransactionRepository.readBankRecords path reader transactions
  = outcomeBind (readAll (CSVTransactionRepository.bankRecord path) path reader)
      (λ txs, Returned (append transactions txs)).
Proof.
  revert transactions. induction reader as [|[record|err] rest IH]; intros acc; simpl.
  - by rewrite append_nil_r.
  - destruct (CSVTransactionRepository.bankRecord path record) as [tx| |]; simpl; [|done..].
    rewrite IH.
    destruct (readAll (CSVTransactionRepository.bankRecord path) path rest); simpl;
      [|done..].
    by rewrite append_append.
  - done.
Qed.

Lemma readAll_Returned {T} (parse : list string → outcome T) path reader txs :
  readAll parse path reader = Returned txs
  ↔ Forall2 (λ row tx, ∃ record, row = ReadRecord record ∧ parse record = Returned tx)
      reader txs.
Proof.
  revert txs. induction reader as [|[record|err] rest IH]; intros txs; simpl.
  - split; [intros [= <-]; constructor|by intros ->%Forall2_nil_inv_l].
  - rewrite outcomeBind_Returned. split.
    + intros (tx & Htx & (l & Hl & [= <-])%outcomeBind_Returned).
      constructor; [by exists record|by apply IH].
    + intros (tx & l & (r & [= <-] & Hr) & Hl & ->)%Forall2_cons_inv_l.
      exists tx. split; [done|]. apply outcomeBind_Returned. exists l.
      split; [by apply IH|done].
  - split; [done|]. by intros (tx & l & (r & [=] & _) & _)%Forall2_cons_inv_l.
Qed.

Lemma readBankFiles_app paths1 paths2 transactions :
  CSVTransactionRepository.readBankFiles (paths1 ++ paths2) transactions
  = outcomeBind (CSVTransactionRepository.readBankFiles paths1 transactions)
      (CSVTransactionRepository.readBankFiles paths2).
Proof.
  revert transactions. induction paths1 as [|path paths1 IH]; intros acc; [done|].
  simpl. destruct (orFail _ _); simpl; [|done..].
  destruct (CSVTransactionRepository.skipHeader _ _); simpl; [|done..].
  destruct (CSVTransactionRepository.readBankRecords _ _ _); simpl; [|done..]. apply IH.
Qed.

Lemma readBankFiles_append paths transactions :
  CSVTransactionRepository.readBankFiles paths transactions
  = outcomeBind (CSVTransactionRepository.GetBankTransactions paths)
      (λ txs, Returned (append transactions (elems txs))).
Proof.
  unfold CSVTransactionRepository.GetBankTransactions. revert transactions.
  induction paths as [|path paths IH]; intros acc.
  { cbn. by rewrite append_nil_r. }
  cbn [CSVTransactionRepository.readBankFiles].
  destruct (orFail _ _) as [reader| |]; cbn [outcomeBind]; [|done..].
  destruct (CSVTransactionRepository.skipHeader _ _) as [rest| |]; cbn [outcomeBind]; [|done..].
  rewrite !readBankRecords_readAll.
  destruct (readAll _ _ rest) as [txs| |]; cbn [outcomeBind]; [|done..].
  rewrite (IH (append acc txs)), (IH (append nilSlice txs)).
  destruct (CSVTransactionRepository.readBankFiles paths nilSlice) as [more| |];
    cbn [outcomeBind]; [|done..].
  by rewrite !append_append, !append_elems.
Qed.
End ReadLoops.

(** ** The sign test of the bank gateway *)

Section Sign.
Lemma Prim2SF_zero : Prim2SF 0 = S754_zero false.
Proof. reflexivity. Qed.

Lemma ltb_abs_zero (x : float) : PrimFloat.ltb (PrimFloat.abs x) 0 = false.
Proof.
  rewrite FloatAxioms.ltb_spec, FloatAxioms.abs_spec, Prim2SF_zero.
  by destruct (Prim2SF x) as [| | |[] m e].
Qed.

Lemma Pos_compare_cont_refl (m : positive) : Pos.compare_cont Eq m m = Eq.
Proof. apply Pos.compare_cont_refl. Qed.

Lemma eqb_abs_of_not_negative (x : float) :
  PrimFloat.ltb x 0 = false →
  PrimFloat.is_nan x = true ∨ PrimFloat.eqb x (PrimFloat.abs x) = true.
Proof.
  unfold is_nan.
  rewrite FloatAxioms.ltb_spec, !FloatAxioms.eqb_spec, FloatAxioms.abs_spec, Prim2SF_zero.
  destruct (Prim2SF x) as [[]|[]| |[] m e]; simpl; try (by right); try (by left);
    try done.
  intros _. right. unfold SFeqb, SFcompare.
  rewrite Z.compare_refl, Pos.compare_cont_refl. done.
Qed.

Lemma eqb_abs_refl (x : float) :
  PrimFloat.is_nan x = true ∨ PrimFloat.eqb (PrimFloat.abs x) (PrimFloat.abs x) = true.
Proof.
  unfold is_nan. rewrite !FloatAxioms.eqb_spec, FloatAxioms.abs_spec.
  destruct (Prim2SF x) as [[]|[]| |[] m e]; simpl; try (by right); try (by left);
    right; unfold SFeqb, SFcompare;
    by rewrite Z.compare_refl, Pos.compare_cont_refl.
Qed.
End Sign.

Section Rows.
Context {lib : GatewayLibrary}.

Lemma systemRecord_Returned fields tx :
  CSVTransactionRepository.systemRecord fields = Returned tx ↔ systemRow (ReadRecord fields) tx.
Proof.
  unfold CSVTransactionRepository.systemRecord, systemRow. split.
  - intros (a & Ha%fieldAt_Returned & (amount & Hp%orFail_Returned &
      (t & Ht%fieldAt_Returned & (time & Hq%orFail_Returned &
      (id & Hid%fieldAt_Returned & (ty & Hty%fieldAt_Returned & [= <-])
        %outcomeBind_Returned)%outcomeBind_Returned)%outcomeBind_Returned)
        %outcomeBind_Returned)%outcomeBind_Returned)%outcomeBind_Returned.
    exists fields, a, t. simpl. done.
  - intros (f & a & t & [= <-] & H0 & H1 & Hp & H2 & H3 & Hq).
    destruct tx as [id amount ty time]. cbn [SystemTransaction.TrxID
      SystemTransaction.Amount SystemTransaction.Type_
      SystemTransaction.TransactionTime] in *.
    unfold fieldAt. rewrite H1. cbn [outcomeBind orFail]. rewrite Hp.
    cbn [outcomeBind orFail]. rewrite H3. cbn [outcomeBind orFail].
    rewrite Hq. cbn [outcomeBind orFail]. rewrite H0.
    cbn [outcomeBind]. unfold TransactionType in *. by rewrite H2.
Qed.

Lemma bankRecord_Returned path fields tx :
  CSVTransactionRepository.bankRecord path fields = Returned tx
  ↔ bankRow path (ReadRecord fields) tx.
Proof.
  unfold CSVTransactionRepository.bankRecord, bankRow. split.
  - intros (a & Ha%fieldAt_Returned & (amount & Hp%orFail_Returned &
      (t & Ht%fieldAt_Returned & (date & Hq%orFail_Returned &
      (id & Hid%fieldAt_Returned & (d & Hd%fieldAt_Returned & [= <-])
        %outcomeBind_Returned)%outcomeBind_Returned)%outcomeBind_Returned)
        %outcomeBind_Returned)%outcomeBind_Returned)%outcomeBind_Returned.
    exists fields, a, t. simpl. done.
  - intros (f & a & t & [= <-] & H0 & H1 & Hp & H2 & Hq & H3 & Hsrc & Hty & Hnorm).
    destruct tx as [id amount date description source normalized ty].
    cbn [BankTransaction.UniqueIdentifier BankTransaction.Amount
      BankTransaction.Date BankTransaction.Description
      BankTransaction.BankSource BankTransaction.NormalizedAmount
      BankTransaction.Type_] in *.
    unfold fieldAt. rewrite H1. cbn [outcomeBind orFail]. rewrite Hp.
    cbn [outcomeBind orFail]. rewrite H2. cbn [outcomeBind orFail].
    rewrite Hq. cbn [outcomeBind orFail]. rewrite H0.
    cbn [outcomeBind]. rewrite H3. cbn [outcomeBind].
    by rewrite Hsrc, Hty, Hnorm.
Qed.

Lemma readAll_rows {T} (parse : list string → outcome T) (rowOf : readResult → T → Prop)
    path reader txs :
  (∀ fields tx, parse fields = Returned tx ↔ rowOf (ReadRecord fields) tx) →
  (∀ err tx, ¬ rowOf (ReadError err) tx) →
  readAll parse path reader = Returned txs ↔ Forall2 rowOf reader txs.
Proof.
  intros Hparse Herr. rewrite readAll_Returned. split.
  - intros Hall. eapply Forall2_impl; [exact Hall|].
    intros row tx (fields & -> & Hp). by apply Hparse.
  - intros Hall. eapply Forall2_impl; [exact Hall|].
    intros [fields|err] tx Hrow.
    + exists fields. split; [done|]. by apply Hparse.
    + by apply Herr in Hrow.
Qed.

Lemma systemRow_error err tx : ¬ systemRow (ReadError err) tx.
Proof. by intros (? & ? & ? & [=] & _). Qed.

Lemma bankRow_error path err tx : ¬ bankRow path (ReadError err) tx.
Proof. by intros (? & ? & ? & [=] & _). Qed.

Lemma GetSystemTransactions_Returned path txs :
  CSVTransactionRepository.GetSystemTransactions path = Returned txs ↔
  ∃ header rows parsed,
    openCSV path = inl (ReadRecord header :: rows) ∧
    Forall2 systemRow rows parsed ∧
    txs = append nilSlice parsed.
Proof.
  unfold CSVTransactionRepository.GetSystemTransactions. rewrite outcomeBind_Returned. split.
  - intros (reader & Hopen%orFail_Returned &
           (rest & Hskip & Hread)%outcomeBind_Returned).
    destruct reader as [|[header|err] rows]; simpl in Hskip; try done.
    injection Hskip as <-.
    rewrite readSystemRecords_readAll in Hread.
    apply outcomeBind_Returned in Hread as (parsed & Hall & [= <-]).
    exists header, rows, parsed. split; [done|]. split; [|done].
    by apply (readAll_rows CSVTransactionRepository.systemRecord systemRow path);
      [apply systemRecord_Returned|apply systemRow_error|].
  - intros (header & rows & parsed & Hopen & Hrows & ->).
    exists (ReadRecord header :: rows). split; [by apply orFail_Returned|].
    simpl. rewrite readSystemRecords_readAll.
    apply outcomeBind_Returned. exists parsed. split; [|done].
    by apply (readAll_rows CSVTransactionRepository.systemRecord systemRow path);
      [apply systemRecord_Returned|apply systemRow_error|].
Qed.
End Rows.

Section Files.
Context {lib : GatewayLibrary}.

Lemma readBankFiles_Returned paths transactions txs :
  CSVTransactionRepository.readBankFiles paths transactions = Returned txs ↔
  ∃ perFile, Forall2 bankFile paths perFile ∧ txs = append transactions (concat perFile).
Proof.
  revert transactions. induction paths as [|path paths IH]; intros acc.
  - simpl. split.
    + intros [= <-]. exists []. split; [constructor|]. simpl.
      by rewrite append_nil_r.
    + intros (perFile & ->%Forall2_nil_inv_l & ->). simpl.
      by rewrite append_nil_r.
  - cbn [CSVTransactionRepository.readBankFiles]. rewrite outcomeBind_Returned. split.
    + intros (reader & Hopen%orFail_Returned &
             (rest & Hskip & (acc' & Hread & Hrest)%outcomeBind_Returned)
               %outcomeBind_Returned).
      destruct reader as [|[header|err] rows]; simpl in Hskip; try done.
      injection Hskip as <-.
      rewrite readBankRecords_readAll in Hread.
      apply outcomeBind_Returned in Hread as (parsed & Hall & [= <-]).
      apply IH in Hrest as (perFile & Hfiles & ->).
      exists (parsed :: perFile). split.
      * constructor; [|done]. exists header, rows. split; [done|].
        by apply (readAll_rows (CSVTransactionRepository.bankRecord path) (bankRow path) path);
          [apply bankRecord_Returned|apply bankRow_error|].
      * by rewrite append_append.
    + intros (perFile & (parsed & more & (header & rows & Hopen & Hrows) & Hfiles & ->)
                %Forall2_cons_inv_l & ->).
      exists (ReadRecord header :: rows). split; [by apply orFail_Returned|].
      cbn [CSVTransactionRepository.skipHeader outcomeBind]. rewrite readBankRecords_readAll.
      apply outcomeBind_Returned. exists (append acc parsed). split.
      * apply outcomeBind_Returned. exists parsed. split; [|done].
        by apply (readAll_rows (CSVTransactionRepository.bankRecord path) (bankRow path) path);
          [apply bankRecord_Returned|apply bankRow_error|].
      * apply IH. exists more. split; [done|]. simpl. by rewrite append_append.
Qed.

Lemma elem_of_concat {A} (x : A) (ls : list (list A)) :
  x ∈ concat ls ↔ ∃ l, x ∈ l ∧ l ∈ ls.
Proof.
  induction ls as [|l ls IH]; simpl.
  - split; [by intros ?%elem_of_nil|by intros (l & _ & ?%elem_of_nil)].
  - rewrite elem_of_app, IH. split.
    + intros [Hx|(l' & Hx & Hl')]; [exists l; split; [done|left]|].
      exists l'. split; [done|by right].
    + intros (l' & Hx & [->|Hl']%elem_of_cons); [by left|]. right. by exists l'.
Qed.

Lemma append_nilSlice_nil {A} (l : list A) : append nilSlice l = nilSlice ↔ l = [].
Proof. by destruct l. Qed.

Lemma append_nilSlice_elems {A} (l : list A) : elems (append nilSlice l) = l.
Proof. by destruct l. Qed.

Lemma append_nilSlice_not_empty {A} (l : list A) : append nilSlice l ≠ Slice [].
Proof. by destruct l. Qed.

Lemma bankRow_sign path row tx :
  bankRow path row tx →
  PrimFloat.ltb (BankTransaction.NormalizedAmount tx) 0 = false ∧
  (PrimFloat.is_nan (BankTransaction.Amount tx) = true ∨
   PrimFloat.eqb (BankTransaction.NormalizedAmount tx)
     (PrimFloat.abs (BankTransaction.Amount tx)) = true).
Proof.
  intros (fields & a & d & _ & _ & _ & _ & _ & _ & _ & _ & _ & ->).
  destruct (PrimFloat.ltb (BankTransaction.Amount tx) 0) eqn:Hneg.
  - split; [apply ltb_abs_zero|apply eqb_abs_refl].
  - split; [done|by apply eqb_abs_of_not_negative].
Qed.

Lemma readAll_not_Panicked {T} (parse : list string → outcome T) path reader :
  (∀ fields, (4 ≤ length fields)%nat → parse fields ≠ Panicked) →
  Forall fourFields reader →
  readAll parse path reader ≠ Panicked.
Proof.
  intros Hparse. induction 1 as [|[fields|err] rest Hrow _ IH]; simpl; [done| |done].
  specialize (Hparse fields Hrow).
  destruct (parse fields); simpl; [|done..].
  by destruct (readAll parse path rest).
Qed.

Lemma fieldAt_four fields (i : nat) :
  (4 ≤ length fields)%nat → (i < 4)%nat → ∃ s, fieldAt fields i = Returned s.
Proof.
  intros Hlen Hi. unfold fieldAt.
  destruct (lookup_lt_is_Some_2 fields i) as [s ->]; [lia|by exists s].
Qed.

Lemma systemRecord_not_Panicked fields :
  (4 ≤ length fields)%nat → CSVTransactionRepository.systemRecord fields ≠ Panicked.
Proof.
  intros Hlen. unfold CSVTransactionRepository.systemRecord.
  destruct (fieldAt_four fields 1 Hlen) as [a ->]; [lia|]. cbn [outcomeBind].
  destruct (ParseFloat a); cbn [orFail outcomeBind]; [|done].
  destruct (fieldAt_four fields 3 Hlen) as [t ->]; [lia|]. cbn [outcomeBind].
  destruct (ParseRFC3339 t); cbn [orFail outcomeBind]; [|done].
  destruct (fieldAt_four fields 0 Hlen) as [i ->]; [lia|]. cbn [outcomeBind].
  destruct (fieldAt_four fields 2 Hlen) as [ty ->]; [lia|]. done.
Qed.

Lemma bankRecord_not_Panicked path fields :
  (4 ≤ length fields)%nat → CSVTransactionRepository.bankRecord path fields ≠ Panicked.
Proof.
  intros Hlen. unfold CSVTransactionRepository.bankRecord.
  destruct (fieldAt_four fields 1 Hlen) as [a ->]; [lia|]. cbn [outcomeBind].
  destruct (ParseFloat a); cbn [orFail outcomeBind]; [|done].
  destruct (fieldAt_four fields 2 Hlen) as [t ->]; [lia|]. cbn [outcomeBind].
  destruct (ParseDateOnly t); cbn [orFail outcomeBind]; [|done].
  destruct (fieldAt_four fields 0 Hlen) as [i ->]; [lia|]. cbn [outcomeBind].
  destruct (fieldAt_four fields 3 Hlen) as [ty ->]; [lia|]. done.
Qed.

Lemma readBankFiles_not_Panicked paths transactions :
  (∀ path reader, path ∈ paths → openCSV path = inl reader → Forall fourFields reader) →
  CSVTransactionRepository.readBankFiles paths transactions ≠ Panicked.
Proof.
  revert transactions. induction paths as [|path paths IH]; intros acc Hall; [done|].
  cbn [CSVTransactionRepository.readBankFiles].
  destruct (openCSV path) as [reader|err] eqn:Hopen; cbn [orFail outcomeBind]; [|done].
  assert (Forall fourFields reader) as Hrows by (eapply Hall; [left|done]).
  destruct reader as [|[header|err] rows];
    cbn [CSVTransactionRepository.skipHeader outcomeBind]; [done| |done].
  rewrite readBankRecords_readAll.
  apply Forall_cons in Hrows as [_ Hrows].
  pose proof (readAll_not_Panicked (CSVTransactionRepository.bankRecord path) path rows
                (bankRecord_not_Panicked path) Hrows) as Hno.
  destruct (readAll (CSVTransactionRepository.bankRecord path) path rows);
    cbn [outcomeBind]; [|done..].
  apply IH. intros p r Hp. apply Hall. by right.
Qed.

Lemma readAll_first_failure {T} (parse : list string → outcome T) path good bad rest
    parsed err :
  Forall2 (λ row tx, ∃ fields, row = ReadRecord fields ∧ parse fields = Returned tx)
    good parsed →
  parse bad = Failed err →
  readAll parse path (good ++ ReadRecord bad :: rest) = Failed err.
Proof.
  intros Hgood Hbad. induction Hgood as [|row tx good parsed (f & -> & Hf) _ IH]; simpl.
  - by rewrite Hbad.
  - by rewrite Hf, IH.
Qed.
End Files.

(** ** Properties of the gateway *)

(** X13: [GetSystemTransactions] returns a list exactly when the file opens,
    has a first row, which is skipped unread, and every other row is a
    record whose second field parses as the amount and whose fourth as the
    time; the list then has one transaction per row, in the order of the
    file, with the identifier and the kind copied from the first and third
    fields unchecked. *)
Theorem system_file_read_row_by_row {lib : GatewayLibrary} path txs :
  CSVTransactionRepository.GetSystemTransactions path = Returned txs ↔
  ∃ header rows parsed,
    openCSV path = inl (ReadRecord header :: rows) ∧
    Forall2 systemRow rows parsed ∧
    txs = append nilSlice parsed.
Proof. apply GetSystemTransactions_Returned. Qed.

(** X14: [GetBankTransactions] returns a list exactly when every file of
    [paths] can be read in full; the list is then the transactions of the
    first file, in its order, followed by those of the second, and so on. *)
Theorem bank_files_read_in_order {lib : GatewayLibrary} paths txs :
  CSVTransactionRepository.GetBankTransactions paths = Returned txs ↔
  ∃ perFile, Forall2 bankFile paths perFile ∧ txs = append nilSlice (concat perFile).
Proof. apply readBankFiles_Returned. Qed.

(** X15: every bank transaction the gateway returns is normalized: it is a
    DEBIT when its amount is below zero and a CREDIT otherwise (a zero, or
    a NaN, is a CREDIT); its normalized amount is never below zero and,
    unless the amount is a NaN, equals the absolute value of the amount;
    and its source is the base name of one of the paths. *)
Theorem bank_transactions_are_normalized {lib : GatewayLibrary} paths txs tx :
  CSVTransactionRepository.GetBankTransactions paths = Returned txs →
  tx ∈ elems txs →
  BankTransaction.Type_ tx
  = (if PrimFloat.ltb (BankTransaction.Amount tx) 0 then DEBIT else CREDIT) ∧
  PrimFloat.ltb (BankTransaction.NormalizedAmount tx) 0 = false ∧
  (PrimFloat.is_nan (BankTransaction.Amount tx) = true ∨
   PrimFloat.eqb (BankTransaction.NormalizedAmount tx)
     (PrimFloat.abs (BankTransaction.Amount tx)) = true) ∧
  ∃ path, path ∈ paths ∧ BankTransaction.BankSource tx = Base path.
Proof.
  intros (perFile & Hfiles & ->)%readBankFiles_Returned Htx.
  rewrite append_nilSlice_elems in Htx.
  apply elem_of_concat in Htx as (parsed & Htx & Hparsed).
  apply list_elem_of_lookup in Hparsed as (i & Hi).
  destruct (Forall2_lookup_r _ _ _ _ _ Hfiles Hi)
    as (path & Hpath & header & rows & _ & Hrows).
  apply list_elem_of_lookup in Htx as (j & Hj).
  destruct (Forall2_lookup_r _ _ _ _ _ Hrows Hj) as (row & _ & Hrow).
  destruct (bankRow_sign _ _ _ Hrow) as (Hnorm & Habs).
  destruct Hrow as (fields & a & d & _ & _ & _ & _ & _ & _ & _ & Hsrc & Hty & _).
  repeat split; try done.
  exists path. split; [|done]. by apply list_elem_of_lookup; exists i.
Qed.

(** X16: reading the paths [paths1 ++ paths2] is reading [paths1], then
    [paths2], and appending the second list to the first; a failure or a
    panic in either part is the result of the whole, and the transactions
    read before it are lost. *)
Theorem bank_path_lists_compose {lib : GatewayLibrary} paths1 paths2 :
  CSVTransactionRepository.GetBankTransactions (paths1 ++ paths2)
  = (txs1 ←! CSVTransactionRepository.GetBankTransactions paths1;
     txs2 ←! CSVTransactionRepository.GetBankTransactions paths2;
     Returned (append txs1 (elems txs2))).
Proof.
  unfold CSVTransactionRepository.GetBankTransactions at 1. rewrite readBankFiles_app.
  fold (CSVTransactionRepository.GetBankTransactions paths1).
  destruct (CSVTransactionRepository.GetBankTransactions paths1) as [txs1| |];
    cbn [outcomeBind]; [|done..].
  apply readBankFiles_append.
Qed.

(** X17: a result without transactions is the nil slice, never an empty
    one: [GetSystemTransactions] returns nil exactly for a file that holds
    one row only, and [GetBankTransactions] exactly when every file does
    (so also for no paths at all). *)
Theorem results_without_rows_are_nil {lib : GatewayLibrary} :
  (∀ path, CSVTransactionRepository.GetSystemTransactions path = Returned nilSlice ↔
           ∃ header, openCSV path = inl [ReadRecord header]) ∧
  (∀ paths, CSVTransactionRepository.GetBankTransactions paths = Returned nilSlice ↔
            Forall (λ path, ∃ header, openCSV path = inl [ReadRecord header]) paths) ∧
  (∀ path, CSVTransactionRepository.GetSystemTransactions path ≠ Returned (Slice [])) ∧
  (∀ paths, CSVTransactionRepository.GetBankTransactions paths ≠ Returned (Slice [])).
Proof.
  split; [|split; [|split]].
  - intros path. rewrite GetSystemTransactions_Returned. split.
    + intros (header & rows & parsed & Hopen & Hrows & Hnil).
      symmetry in Hnil. apply append_nilSlice_nil in Hnil as ->.
      apply Forall2_nil_inv_r in Hrows as ->. by exists header.
    + intros (header & Hopen). exists header, [], []. by repeat split.
  - intros paths. unfold CSVTransactionRepository.GetBankTransactions.
    rewrite readBankFiles_Returned. split.
    + intros (perFile & Hfiles & Hnil).
      symmetry in Hnil. apply append_nilSlice_nil in Hnil.
      apply Forall_forall. intros path (i & Hi)%list_elem_of_lookup.
      destruct (Forall2_lookup_l _ _ _ _ _ Hfiles Hi)
        as (parsed & Hparsed & header & rows & Hopen & Hrows).
      assert (parsed = []) as ->.
      { assert (parsed ∈ perFile) as Hin by (apply list_elem_of_lookup; by exists i).
        destruct parsed as [|tx parsed]; [done|].
        assert (tx ∈ concat perFile) as Habs
          by (apply elem_of_concat; exists (tx :: parsed); split; [left|done]).
        rewrite Hnil in Habs. by apply elem_of_nil in Habs. }
      apply Forall2_nil_inv_r in Hrows as ->. by exists header.
    + intros Hall. exists (replicate (length paths) []). split.
      * induction Hall as [|path paths (header & Hopen) _ IH]; simpl; constructor; [|done].
        exists header, []. by split.
      * assert (concat (replicate (length paths) (@nil BankTx)) = []) as ->; [|done].
        clear. by induction paths.
  - intros path (header & rows & parsed & _ & _ & Heq)%GetSystemTransactions_Returned.
    symmetry in Heq. by apply append_nilSlice_not_empty in Heq.
  - intros paths (perFile & _ & Heq)%readBankFiles_Returned.
    symmetry in Heq. by apply append_nilSlice_not_empty in Heq.
Qed.

(** X18: the first row whose amount does not parse fails the whole file:
    when the rows before it are good, [GetSystemTransactions] returns the
    parser's error wrapped with the text of the amount field, whatever
    the other fields of the row and the rows after it hold, and none of the
    transactions read so far. *)
Theorem first_bad_amount_fails_the_file {lib : GatewayLibrary}
    path header good bad rest parsed amountText err :
  openCSV path = inl (ReadRecord header :: good ++ ReadRecord bad :: rest) →
  Forall2 systemRow good parsed →
  bad !! 1%nat = Some amountText →
  ParseFloat amountText = inr err →
  CSVTransactionRepository.GetSystemTransactions path
  = Failed (Errorf_w ("could not parse amount '" +:+ amountText +:+ "'") err).
Proof.
  intros Hopen Hgood Hfield Hparse. unfold CSVTransactionRepository.GetSystemTransactions.
  rewrite Hopen. cbn [orFail outcomeBind CSVTransactionRepository.skipHeader].
  rewrite readSystemRecords_readAll.
  rewrite (readAll_first_failure CSVTransactionRepository.systemRecord path good bad rest parsed
             (Errorf_w ("could not parse amount '" +:+ amountText +:+ "'") err)); [done| |].
  - eapply Forall2_impl; [exact Hgood|]. intros row tx Hrow.
    destruct row as [fields|e]; [|by apply systemRow_error in Hrow].
    exists fields. split; [done|]. by apply systemRecord_Returned.
  - unfold CSVTransactionRepository.systemRecord, fieldAt. rewrite Hfield.
    cbn [outcomeBind]. by rewrite Hparse.
Qed.

(** X19: the gateway indexes the fields of a row without checking their
    number.  When every row of every file it opens has at least four
    fields, neither method panics. *)
Theorem four_fields_never_panic {lib : GatewayLibrary} systemPath bankPaths :
  (∀ path reader, path ∈ systemPath :: bankPaths →
                  openCSV path = inl reader → Forall fourFields reader) →
  CSVTransactionRepository.GetSystemTransactions systemPath ≠ Panicked ∧
  CSVTransactionRepository.GetBankTransactions bankPaths ≠ Panicked.
Proof.
  intros Hall. split.
  - unfold CSVTransactionRepository.GetSystemTransactions.
    destruct (openCSV systemPath) as [reader|err] eqn:Hopen;
      cbn [orFail outcomeBind]; [|done].
    assert (Forall fourFields reader) as Hrows by (eapply Hall; [left|done]).
    destruct reader as [|[header|err] rows];
    cbn [CSVTransactionRepository.skipHeader outcomeBind]; [done| |done].
    rewrite readSystemRecords_readAll.
    apply Forall_cons in Hrows as [_ Hrows].
    pose proof (readAll_not_Panicked CSVTransactionRepository.systemRecord systemPath rows
                  systemRecord_not_Panicked Hrows) as Hno.
    by destruct (readAll CSVTransactionRepository.systemRecord systemPath rows).
  - apply readBankFiles_not_Panicked. intros path reader Hpath. apply Hall. by right.
Qed.

(** X20: the [csv] reader gives every record the number of fields of the
    first one and reports a row of another length as an error.  So in a
    file whose header has fewer than four fields the first data row the
    reader hands over has fewer than four too: it never gives a
    transaction, and it decides the result: the wrapped parser's error
    when it has a second field that does not parse as an amount, and a
    panic (index out of range) in every other case. *)
Theorem short_header_decides_the_result {lib : GatewayLibrary} path header row rest :
  openCSV path = inl (ReadRecord header :: ReadRecord row :: rest) →
  length row = length header →
  (length header < 4)%nat →
  CSVTransactionRepository.GetSystemTransactions path
  = match row !! 1%nat with
    | Some amountText =>
        match ParseFloat amountText with
        | inr err => Failed (Errorf_w ("could not parse amount '" +:+ amountText +:+ "'") err)
        | inl _ => Panicked
        end
    | None => Panicked
    end.
Proof.
  intros Hopen Hsame Hshort. unfold CSVTransactionRepository.GetSystemTransactions.
  rewrite Hopen. cbn [orFail outcomeBind CSVTransactionRepository.skipHeader].
  cbn [CSVTransactionRepository.readSystemRecords].
  assert (row !! 3%nat = None) as H3 by (apply lookup_ge_None_2; lia).
  unfold CSVTransactionRepository.systemRecord, fieldAt. rewrite H3.
  destruct (row !! 1%nat) as [amountText|]; cbn [outcomeBind]; [|done].
  by destruct (ParseFloat amountText) as [amount|err].
Qed.

Lemma bank_transactions_are_normalized_witness :
  ∃ txs,
    CSVTransactionRepository.GetBankTransactions (lib := testLibrary) testBankPaths
    = Returned txs ∧
    firstBankRow ∈ elems txs ∧
    BankTransaction.Type_ firstBankRow = DEBIT ∧
    BankTransaction.NormalizedAmount firstBankRow = 150%float ∧
    BankTransaction.BankSource firstBankRow = "test_bank_0.csv"%string.
Proof.
  destruct (CSVTransactionRepository.GetBankTransactions (lib := testLibrary) testBankPaths)
    as [txs| |] eqn:Hread;
    [|by vm_compute in Hread..].
  assert (firstBankRow ∈ elems txs) as Hin.
  { vm_compute in Hread. injection Hread as <-. simpl. left. }
  exists txs. split; [done|]. split; [done|].
  pose proof (bank_transactions_are_normalized (lib := testLibrary)
                testBankPaths txs firstBankRow Hread Hin) as Hnorm.
  by repeat split.
Defined.

Lemma first_bad_amount_fails_the_file_witness :
  CSVTransactionRepository.GetSystemTransactions (lib := testLibrary) "bad_amount.csv"
  = Failed (errorWrap "could not parse amount 'invalid_amount': invalid syntax"
              (errorNew "invalid syntax")).
Proof.
  apply (first_bad_amount_fails_the_file (lib := testLibrary) "bad_amount.csv"
           ["trxID"; "amount"; "type"; "transactionTime"]%string
           [ReadRecord ["SYS001"; "150.00"; "DEBIT"; "2025-09-01T10:00:00Z"]%string]
           ["SYS002"; "invalid_amount"; "DEBIT"; "invalid_time"]%string
           [ReadRecord ["SYS003"; "75.00"; "DEBIT"; "2025-09-02T09:00:00Z"]%string]
           [firstSystemRow] "invalid_amount" (errorNew "invalid syntax")).
  - reflexivity.
  - constructor; [|constructor].
    exists ["SYS001"; "150.00"; "DEBIT"; "2025-09-01T10:00:00Z"]%string,
      "150.00"%string, "2025-09-01T10:00:00Z"%string.
    repeat split; reflexivity.
  - reflexivity.
  - reflexivity.
Defined.

Lemma four_fields_never_panic_witness :
  CSVTransactionRepository.GetSystemTransactions (lib := testLibrary) "system.csv" ≠ Panicked ∧
  CSVTransactionRepository.GetBankTransactions (lib := testLibrary) testBankPaths ≠ Panicked.
Proof.
  apply (four_fields_never_panic (lib := testLibrary)).
  intros path reader Hpath Hopen.
  repeat (apply elem_of_cons in Hpath as [->|Hpath];
          [vm_compute in Hopen; injection Hopen as <-;
           repeat constructor|]).
  by apply elem_of_nil in Hpath.
Defined.

Lemma short_header_decides_the_result_witness :
  CSVTransactionRepository.GetSystemTransactions (lib := testLibrary) "short.csv" = Panicked.
Proof.
  apply (short_header_decides_the_result (lib := testLibrary) "short.csv"
           ["trxID"; "amount"]%string ["SYS001"; "150.00"]%string []).
  - reflexivity.
  - reflexivity.
  - simpl. lia.
Defined.
